(** * The CI/CD healing agent: pipeline, failure records, fixes and score

    A shallow embedding of the agent pipeline of [rift-agent/backend]:
    the shared [AgentState] (agent/state.py), the six graph nodes
    (agent/agents/*.py), the graph wiring and its retry edge
    (agent/orchestrator.py) and the trigger endpoint (main.py).

    Conventions of the model.
    - Python [int] is [Z]; Python [str] is [string]; a [TypedDict] is a
      record and [{**state, "k": v}] is the setter [set_k v state].
    - Python [float] is modelled by exact rationals [Q]: additions,
      multiplications and divisions are exact, and [round(x, n)] rounds the
      exact value, half to even.  The model agrees with binary floating
      point wherever every value on the way, the rounded ones included, is
      one that binary floating point represents exactly (integers and
      their sums, for instance); elsewhere it can differ in the last
      digit.  Every statement below about the value of a score either
      holds whatever the arithmetic gives, or is about values of the first
      kind.
    - [graph.invoke] is called without a configuration, so a run is cut
      off by the recursion limit of the graph library, 25 by default.
    - What a node obtains from outside the process (git, the test runners,
      the remote completion service, the CI service, the file tree) is an
      explicit argument of the node: an outcome value or an oracle.
    - The [timestamp] and [detail] of a timeline event (wall clock and
      formatted prose) are not modelled; an event keeps its name and status. *)

From Stdlib Require Import ZArith QArith Qminmax Lqa String Ascii List Lia Bool.
From stdpp Require Import base option list relations gmap strings.
Import ListNotations.

Local Open Scope string_scope.
Local Open Scope Z_scope.
Local Open Scope list_scope.

(** ** Python primitives used by the nodes *)

Module Py.

(** [a / b] on two ints: true division. *)
Definition truediv (a b : Z) : Q := (inject_Z a / inject_Z b)%Q.

(** Nearest integer of a rational, ties to the even neighbour. *)
Definition round_half_even (x : Q) : Z :=
  let n := Qnum x in
  let d := Zpos (Qden x) in
  let q := n / d in
  let r := n mod d in
  match (2 * r ?= d) with
  | Lt => q
  | Gt => q + 1
  | Eq => if Z.even q then q else q + 1
  end.

(** [round(x, ndigits)]. *)
Definition round (x : Q) (ndigits : nat) : Q :=
  let scale := inject_Z (10 ^ Z.of_nat ndigits) in
  (inject_Z (round_half_even (x * scale)) / scale)%Q.

(** [max(0, x)] on ints and on floats. *)
Definition max0 (x : Z) : Z := if 0 <? x then x else 0.
Definition qmax0 (x : Q) : Q := if Qle_bool x 0 then 0%Q else x.

(** [a < b] and [a >= b] on floats. *)
Definition qlt (a b : Q) : bool := negb (Qle_bool b a).
Definition qge (a b : Q) : bool := Qle_bool b a.

End Py.

(** ** agent/state.py *)

Record FailureEvent := {
  fe_bug_type : string;
  fe_file : string;
  fe_line : Z;
  fe_message : string
}.

Record FixRecord := {
  fx_bug_type : string;
  fx_file : string;
  fx_line : Z;
  fx_fix_description : string;
  fx_patch : string;
  fx_status : string
}.

Record CICDEvent := {
  ev_event : string;
  ev_status : string
}.

Record ScoreBreakdown := {
  tests_passed_pct : Q;
  fixes_applied : Z;
  fix_quality_score : Q;
  ci_success_bonus : Q;
  base_score : Q;
  speed_bonus : Q;
  efficiency_penalty : Z;
  total_score : Q
}.

Record AgentState := {
  repo_url : string;
  team_name : string;
  leader_name : string;
  openai_key : string;
  retry_limit : Z;
  github_token : string;
  branch_name : string;
  clone_path : string;
  language : string;
  failures : list FailureEvent;
  total_tests : Z;
  tests_passed : Z;
  tests_failed : Z;
  fixes : list FixRecord;
  commit_sha : string;
  pr_url : string;
  cicd_timeline : list CICDEvent;
  cicd_status : string;
  score : ScoreBreakdown;
  retry_count : Z;
  status : string;
  error_message : option string;
  run_id : string;
  started_at : string;
  finished_at : string;
  duration_seconds : Q
}.

(** [{**state, "k": v}]: one setter per key that some node writes. *)

Definition set_branch_name (v : string) (st : AgentState) : AgentState :=
  {| repo_url := repo_url st; team_name := team_name st;
     leader_name := leader_name st; openai_key := openai_key st;
     retry_limit := retry_limit st; github_token := github_token st;
     branch_name := v; clone_path := clone_path st; language := language st;
     failures := failures st; total_tests := total_tests st;
     tests_passed := tests_passed st; tests_failed := tests_failed st;
     fixes := fixes st; commit_sha := commit_sha st; pr_url := pr_url st;
     cicd_timeline := cicd_timeline st; cicd_status := cicd_status st;
     score := score st; retry_count := retry_count st; status := status st;
     error_message := error_message st; run_id := run_id st;
     started_at := started_at st; finished_at := finished_at st;
     duration_seconds := duration_seconds st |}.

Definition set_clone_path (v : string) (st : AgentState) : AgentState :=
  {| repo_url := repo_url st; team_name := team_name st;
     leader_name := leader_name st; openai_key := openai_key st;
     retry_limit := retry_limit st; github_token := github_token st;
     branch_name := branch_name st; clone_path := v; language := language st;
     failures := failures st; total_tests := total_tests st;
     tests_passed := tests_passed st; tests_failed := tests_failed st;
     fixes := fixes st; commit_sha := commit_sha st; pr_url := pr_url st;
     cicd_timeline := cicd_timeline st; cicd_status := cicd_status st;
     score := score st; retry_count := retry_count st; status := status st;
     error_message := error_message st; run_id := run_id st;
     started_at := started_at st; finished_at := finished_at st;
     duration_seconds := duration_seconds st |}.

Definition set_language (v : string) (st : AgentState) : AgentState :=
  {| repo_url := repo_url st; team_name := team_name st;
     leader_name := leader_name st; openai_key := openai_key st;
     retry_limit := retry_limit st; github_token := github_token st;
     branch_name := branch_name st; clone_path := clone_path st;
     language := v; failures := failures st; total_tests := total_tests st;
     tests_passed := tests_passed st; tests_failed := tests_failed st;
     fixes := fixes st; commit_sha := commit_sha st; pr_url := pr_url st;
     cicd_timeline := cicd_timeline st; cicd_status := cicd_status st;
     score := score st; retry_count := retry_count st; status := status st;
     error_message := error_message st; run_id := run_id st;
     started_at := started_at st; finished_at := finished_at st;
     duration_seconds := duration_seconds st |}.

Definition set_failures (v : list FailureEvent) (st : AgentState) : AgentState :=
  {| repo_url := repo_url st; team_name := team_name st;
     leader_name := leader_name st; openai_key := openai_key st;
     retry_limit := retry_limit st; github_token := github_token st;
     branch_name := branch_name st; clone_path := clone_path st;
     language := language st; failures := v; total_tests := total_tests st;
     tests_passed := tests_passed st; tests_failed := tests_failed st;
     fixes := fixes st; commit_sha := commit_sha st; pr_url := pr_url st;
     cicd_timeline := cicd_timeline st; cicd_status := cicd_status st;
     score := score st; retry_count := retry_count st; status := status st;
     error_message := error_message st; run_id := run_id st;
     started_at := started_at st; finished_at := finished_at st;
     duration_seconds := duration_seconds st |}.

Definition set_total_tests (v : Z) (st : AgentState) : AgentState :=
  {| repo_url := repo_url st; team_name := team_name st;
     leader_name := leader_name st; openai_key := openai_key st;
     retry_limit := retry_limit st; github_token := github_token st;
     branch_name := branch_name st; clone_path := clone_path st;
     language := language st; failures := failures st; total_tests := v;
     tests_passed := tests_passed st; tests_failed := tests_failed st;
     fixes := fixes st; commit_sha := commit_sha st; pr_url := pr_url st;
     cicd_timeline := cicd_timeline st; cicd_status := cicd_status st;
     score := score st; retry_count := retry_count st; status := status st;
     error_message := error_message st; run_id := run_id st;
     started_at := started_at st; finished_at := finished_at st;
     duration_seconds := duration_seconds st |}.

Definition set_tests_passed (v : Z) (st : AgentState) : AgentState :=
  {| repo_url := repo_url st; team_name := team_name st;
     leader_name := leader_name st; openai_key := openai_key st;
     retry_limit := retry_limit st; github_token := github_token st;
     branch_name := branch_name st; clone_path := clone_path st;
     language := language st; failures := failures st;
     total_tests := total_tests st; tests_passed := v;
     tests_failed := tests_failed st; fixes := fixes st;
     commit_sha := commit_sha st; pr_url := pr_url st;
     cicd_timeline := cicd_timeline st; cicd_status := cicd_status st;
     score := score st; retry_count := retry_count st; status := status st;
     error_message := error_message st; run_id := run_id st;
     started_at := started_at st; finished_at := finished_at st;
     duration_seconds := duration_seconds st |}.

Definition set_tests_failed (v : Z) (st : AgentState) : AgentState :=
  {| repo_url := repo_url st; team_name := team_name st;
     leader_name := leader_name st; openai_key := openai_key st;
     retry_limit := retry_limit st; github_token := github_token st;
     branch_name := branch_name st; clone_path := clone_path st;
     language := language st; failures := failures st;
     total_tests := total_tests st; tests_passed := tests_passed st;
     tests_failed := v; fixes := fixes st; commit_sha := commit_sha st;
     pr_url := pr_url st; cicd_timeline := cicd_timeline st;
     cicd_status := cicd_status st; score := score st;
     retry_count := retry_count st; status := status st;
     error_message := error_message st; run_id := run_id st;
     started_at := started_at st; finished_at := finished_at st;
     duration_seconds := duration_seconds st |}.

Definition set_fixes (v : list FixRecord) (st : AgentState) : AgentState :=
  {| repo_url := repo_url st; team_name := team_name st;
     leader_name := leader_name st; openai_key := openai_key st;
     retry_limit := retry_limit st; github_token := github_token st;
     branch_name := branch_name st; clone_path := clone_path st;
     language := language st; failures := failures st;
     total_tests := total_tests st; tests_passed := tests_passed st;
     tests_failed := tests_failed st; fixes := v;
     commit_sha := commit_sha st; pr_url := pr_url st;
     cicd_timeline := cicd_timeline st; cicd_status := cicd_status st;
     score := score st; retry_count := retry_count st; status := status st;
     error_message := error_message st; run_id := run_id st;
     started_at := started_at st; finished_at := finished_at st;
     duration_seconds := duration_seconds st |}.

Definition set_commit_sha (v : string) (st : AgentState) : AgentState :=
  {| repo_url := repo_url st; team_name := team_name st;
     leader_name := leader_name st; openai_key := openai_key st;
     retry_limit := retry_limit st; github_token := github_token st;
     branch_name := branch_name st; clone_path := clone_path st;
     language := language st; failures := failures st;
     total_tests := total_tests st; tests_passed := tests_passed st;
     tests_failed := tests_failed st; fixes := fixes st; commit_sha := v;
     pr_url := pr_url st; cicd_timeline := cicd_timeline st;
     cicd_status := cicd_status st; score := score st;
     retry_count := retry_count st; status := status st;
     error_message := error_message st; run_id := run_id st;
     started_at := started_at st; finished_at := finished_at st;
     duration_seconds := duration_seconds st |}.

Definition set_cicd_timeline (v : list CICDEvent) (st : AgentState) : AgentState :=
  {| repo_url := repo_url st; team_name := team_name st;
     leader_name := leader_name st; openai_key := openai_key st;
     retry_limit := retry_limit st; github_token := github_token st;
     branch_name := branch_name st; clone_path := clone_path st;
     language := language st; failures := failures st;
     total_tests := total_tests st; tests_passed := tests_passed st;
     tests_failed := tests_failed st; fixes := fixes st;
     commit_sha := commit_sha st; pr_url := pr_url st; cicd_timeline := v;
     cicd_status := cicd_status st; score := score st;
     retry_count := retry_count st; status := status st;
     error_message := error_message st; run_id := run_id st;
     started_at := started_at st; finished_at := finished_at st;
     duration_seconds := duration_seconds st |}.

Definition set_cicd_status (v : string) (st : AgentState) : AgentState :=
  {| repo_url := repo_url st; team_name := team_name st;
     leader_name := leader_name st; openai_key := openai_key st;
     retry_limit := retry_limit st; github_token := github_token st;
     branch_name := branch_name st; clone_path := clone_path st;
     language := language st; failures := failures st;
     total_tests := total_tests st; tests_passed := tests_passed st;
     tests_failed := tests_failed st; fixes := fixes st;
     commit_sha := commit_sha st; pr_url := pr_url st;
     cicd_timeline := cicd_timeline st; cicd_status := v; score := score st;
     retry_count := retry_count st; status := status st;
     error_message := error_message st; run_id := run_id st;
     started_at := started_at st; finished_at := finished_at st;
     duration_seconds := duration_seconds st |}.

Definition set_score (v : ScoreBreakdown) (st : AgentState) : AgentState :=
  {| repo_url := repo_url st; team_name := team_name st;
     leader_name := leader_name st; openai_key := openai_key st;
     retry_limit := retry_limit st; github_token := github_token st;
     branch_name := branch_name st; clone_path := clone_path st;
     language := language st; failures := failures st;
     total_tests := total_tests st; tests_passed := tests_passed st;
     tests_failed := tests_failed st; fixes := fixes st;
     commit_sha := commit_sha st; pr_url := pr_url st;
     cicd_timeline := cicd_timeline st; cicd_status := cicd_status st;
     score := v; retry_count := retry_count st; status := status st;
     error_message := error_message st; run_id := run_id st;
     started_at := started_at st; finished_at := finished_at st;
     duration_seconds := duration_seconds st |}.

Definition set_retry_count (v : Z) (st : AgentState) : AgentState :=
  {| repo_url := repo_url st; team_name := team_name st;
     leader_name := leader_name st; openai_key := openai_key st;
     retry_limit := retry_limit st; github_token := github_token st;
     branch_name := branch_name st; clone_path := clone_path st;
     language := language st; failures := failures st;
     total_tests := total_tests st; tests_passed := tests_passed st;
     tests_failed := tests_failed st; fixes := fixes st;
     commit_sha := commit_sha st; pr_url := pr_url st;
     cicd_timeline := cicd_timeline st; cicd_status := cicd_status st;
     score := score st; retry_count := v; status := status st;
     error_message := error_message st; run_id := run_id st;
     started_at := started_at st; finished_at := finished_at st;
     duration_seconds := duration_seconds st |}.

Definition set_status (v : string) (st : AgentState) : AgentState :=
  {| repo_url := repo_url st; team_name := team_name st;
     leader_name := leader_name st; openai_key := openai_key st;
     retry_limit := retry_limit st; github_token := github_token st;
     branch_name := branch_name st; clone_path := clone_path st;
     language := language st; failures := failures st;
     total_tests := total_tests st; tests_passed := tests_passed st;
     tests_failed := tests_failed st; fixes := fixes st;
     commit_sha := commit_sha st; pr_url := pr_url st;
     cicd_timeline := cicd_timeline st; cicd_status := cicd_status st;
     score := score st; retry_count := retry_count st; status := v;
     error_message := error_message st; run_id := run_id st;
     started_at := started_at st; finished_at := finished_at st;
     duration_seconds := duration_seconds st |}.

Definition set_error_message (v : option string) (st : AgentState) : AgentState :=
  {| repo_url := repo_url st; team_name := team_name st;
     leader_name := leader_name st; openai_key := openai_key st;
     retry_limit := retry_limit st; github_token := github_token st;
     branch_name := branch_name st; clone_path := clone_path st;
     language := language st; failures := failures st;
     total_tests := total_tests st; tests_passed := tests_passed st;
     tests_failed := tests_failed st; fixes := fixes st;
     commit_sha := commit_sha st; pr_url := pr_url st;
     cicd_timeline := cicd_timeline st; cicd_status := cicd_status st;
     score := score st; retry_count := retry_count st; status := status st;
     error_message := v; run_id := run_id st; started_at := started_at st;
     finished_at := finished_at st;
     duration_seconds := duration_seconds st |}.

Definition set_finished_at (v : string) (st : AgentState) : AgentState :=
  {| repo_url := repo_url st; team_name := team_name st;
     leader_name := leader_name st; openai_key := openai_key st;
     retry_limit := retry_limit st; github_token := github_token st;
     branch_name := branch_name st; clone_path := clone_path st;
     language := language st; failures := failures st;
     total_tests := total_tests st; tests_passed := tests_passed st;
     tests_failed := tests_failed st; fixes := fixes st;
     commit_sha := commit_sha st; pr_url := pr_url st;
     cicd_timeline := cicd_timeline st; cicd_status := cicd_status st;
     score := score st; retry_count := retry_count st; status := status st;
     error_message := error_message st; run_id := run_id st;
     started_at := started_at st; finished_at := v;
     duration_seconds := duration_seconds st |}.

Definition set_duration_seconds (v : Q) (st : AgentState) : AgentState :=
  {| repo_url := repo_url st; team_name := team_name st;
     leader_name := leader_name st; openai_key := openai_key st;
     retry_limit := retry_limit st; github_token := github_token st;
     branch_name := branch_name st; clone_path := clone_path st;
     language := language st; failures := failures st;
     total_tests := total_tests st; tests_passed := tests_passed st;
     tests_failed := tests_failed st; fixes := fixes st;
     commit_sha := commit_sha st; pr_url := pr_url st;
     cicd_timeline := cicd_timeline st; cicd_status := cicd_status st;
     score := score st; retry_count := retry_count st; status := status st;
     error_message := error_message st; run_id := run_id st;
     started_at := started_at st; finished_at := finished_at st;
     duration_seconds := v |}.

(** ** agent/agents/score_agent.py *)

Definition mk_event (name st : string) : CICDEvent :=
  {| ev_event := name; ev_status := st |}.

Definition str_eq (a b : string) : bool := String.eqb a b.

(** [sum(1 for f in fixes if f.get("status") == "applied")]. *)
Definition count_applied (fs : list FixRecord) : Z :=
  Z.of_nat (length (List.filter (fun f => str_eq (fx_status f) "applied") fs)).

(** [len(failures)]. *)
Definition len_failures (st : AgentState) : Z := Z.of_nat (length (failures st)).

Module Score.

(** Tests Passed component: the pair (tests_passed_pct, tests_score). *)
Definition tests_component (st : AgentState) : Q * Q :=
  if 0 <? total_tests st then
    ((Py.truediv (tests_passed st) (total_tests st) * 100)%Q,
     (Py.truediv (tests_passed st) (total_tests st) * 40)%Q)
  else if len_failures st =? 0 then (100%Q, 40%Q)
  else (0%Q, 0%Q).

Definition tests_score (st : AgentState) : Q := snd (tests_component st).

(** Fix Quality component. *)
Definition applied_fixes (st : AgentState) : Z := count_applied (fixes st).

Definition fix_quality (st : AgentState) : Q :=
  if 0 <? len_failures st
  then (Py.truediv (applied_fixes st) (len_failures st) * 40)%Q
  else 40%Q.

(** CI/CD Success component. *)
Definition ci_bonus (st : AgentState) : Q :=
  if str_eq (cicd_status st) "success" then 20%Q
  else if (len_failures st =? 0) && (total_tests st =? 0) then 20%Q
  else 0%Q.

Definition base (st : AgentState) : Q :=
  (tests_score st + fix_quality st + ci_bonus st)%Q.

Definition speed (st : AgentState) : Q :=
  if Py.qlt (duration_seconds st) 300 then 10%Q else 0%Q.

Definition total_commits (st : AgentState) : Z := retry_count st + 1.

Definition penalty (st : AgentState) : Z :=
  Py.max0 ((total_commits st - 20) * 2).

Definition total (st : AgentState) : Q :=
  Py.round (Py.qmax0 (base st + speed st - inject_Z (penalty st))) 2.

Definition breakdown (st : AgentState) : ScoreBreakdown :=
  {| tests_passed_pct := Py.round (fst (tests_component st)) 1;
     fixes_applied := applied_fixes st;
     fix_quality_score := Py.round (fix_quality st) 2;
     ci_success_bonus := ci_bonus st;
     base_score := Py.round (base st) 2;
     speed_bonus := speed st;
     efficiency_penalty := penalty st;
     total_score := total st |}.

End Score.

Definition score_agent (st : AgentState) : AgentState :=
  set_status (if Py.qge (Score.total st) 50 then "success" else "partial")
    (set_cicd_timeline
       (cicd_timeline st ++ [mk_event "score_calculated" "success"])
       (set_score (Score.breakdown st) st)).

(** ** String operations of the Python standard library

    Characters are the 8-bit [ascii] of the standard library; the
    whitespace and line-boundary classes below are Python's, restricted to
    code points below 256. *)

Module Str.

Definition tab : ascii := "009"%char.
Definition lf : ascii := "010"%char.
Definition cr : ascii := "013"%char.
Definition space : ascii := " "%char.

Definition code (c : ascii) : N := N_of_ascii c.

(** [bool(s)]: a string is truthy when it is not empty. *)
Definition truthy (s : string) : bool :=
  match s with EmptyString => false | String _ _ => true end.

(** [c.isspace()]. *)
Definition is_space (c : ascii) : bool :=
  let n := code c in
  ((9 <=? n) && (n <=? 13) || (28 <=? n) && (n <=? 32)
   || (n =? 133) || (n =? 160))%N.

(** [s.lstrip()], [s.rstrip()], [s.strip()]. *)
Fixpoint lstrip (s : string) : string :=
  match s with
  | EmptyString => EmptyString
  | String c t => if is_space c then lstrip t else s
  end.

Fixpoint rstrip (s : string) : string :=
  match s with
  | EmptyString => EmptyString
  | String c t =>
      match rstrip t with
      | EmptyString => if is_space c then EmptyString else String c EmptyString
      | t' => String c t'
      end
  end.

Definition strip (s : string) : string := rstrip (lstrip s).

Fixpoint drop (n : nat) (s : string) : string :=
  match n, s with
  | O, _ => s
  | S n', String _ t => drop n' t
  | S _, EmptyString => EmptyString
  end.

(** The text before and after the first occurrence of [pat] in [s]. *)
Fixpoint split_first (pat s : string) : option (string * string) :=
  if String.prefix pat s then Some (EmptyString, drop (String.length pat) s)
  else match s with
       | EmptyString => None
       | String c t =>
           match split_first pat t with
           | Some (before, after) => Some (String c before, after)
           | None => None
           end
       end.

(** ["".join(parts)]. *)
Definition join (parts : list string) : string :=
  fold_right String.append EmptyString parts.

(** A character that ends a line for [str.splitlines]. *)
Definition is_linebreak (c : ascii) : bool :=
  let n := code c in
  ((10 <=? n) && (n <=? 13) || (28 <=? n) && (n <=? 30) || (n =? 133))%N.

Definition starts_with_lf (s : string) : bool :=
  match s with String c _ => Ascii.eqb c lf | EmptyString => false end.

(** [s.splitlines(keepends=True)]; a carriage return directly followed by
    a line feed ends one line, not two. *)
Fixpoint splitlines (s : string) : list string :=
  match s with
  | EmptyString => []
  | String c t =>
      if is_linebreak c && negb (Ascii.eqb c cr && starts_with_lf t)
      then String c EmptyString :: splitlines t
      else match splitlines t with
           | [] => [String c EmptyString]
           | l :: ls => String c l :: ls
           end
  end.

(** Text-mode reading translates ["\r\n"] and ["\r"] to ["\n"]. *)
Fixpoint universal_newlines (s : string) : string :=
  match s with
  | EmptyString => EmptyString
  | String c t =>
      if Ascii.eqb c cr
      then if starts_with_lf t then universal_newlines t
           else String lf (universal_newlines t)
      else String c (universal_newlines t)
  end.

(** [f.readlines()] on translated text: lines end at ["\n"] only. *)
Fixpoint lines_lf (s : string) : list string :=
  match s with
  | EmptyString => []
  | String c t =>
      if Ascii.eqb c lf then String c EmptyString :: lines_lf t
      else match lines_lf t with
           | [] => [String c EmptyString]
           | l :: ls => String c l :: ls
           end
  end.

(** [c * n] for a one-character string. *)
Fixpoint replicate (n : nat) (c : ascii) : string :=
  match n with O => EmptyString | S n' => String c (replicate n' c) end.

(** Length of the run of leading tabs, and the text after it. *)
Fixpoint leading_tabs (s : string) : nat * string :=
  match s with
  | String c t =>
      if Ascii.eqb c tab
      then let '(n, rest) := leading_tabs t in (S n, rest)
      else (O, s)
  | EmptyString => (O, s)
  end.

(** [re.sub(r"^\t+", lambda m: "    " * len(m.group()), line)]: the
    pattern matches the whole run of tabs at the start of the string, if
    there is at least one, and the run is replaced by four spaces per tab. *)
Definition sub_leading_tabs (line : string) : string :=
  match leading_tabs line with
  | (O, _) => line
  | (n, rest) => String.append (replicate (4 * n) space) rest
  end.

(** [s.upper()] and [s.replace(" ", "_")] on ASCII text. *)
Definition upper_char (c : ascii) : ascii :=
  let n := code c in
  if ((97 <=? n) && (n <=? 122))%N then ascii_of_N (n - 32) else c.

Fixpoint upper (s : string) : string :=
  match s with
  | EmptyString => EmptyString
  | String c t => String (upper_char c) (upper t)
  end.

Fixpoint spaces_to_underscores (s : string) : string :=
  match s with
  | EmptyString => EmptyString
  | String c t =>
      String (if Ascii.eqb c space then "_"%char else c)
             (spaces_to_underscores t)
  end.

(** Does the character occur in the string? *)
Fixpoint mem (c : ascii) (s : string) : bool :=
  match s with
  | EmptyString => false
  | String d t => Ascii.eqb c d || mem c t
  end.

End Str.

(** ** List slices *)

Module Slice.

(** A slice bound as Python normalises it against a list of length [len]:
    a negative bound counts from the end, and every bound is clipped to
    [0, len]. *)
Definition bound (len i : Z) : nat :=
  Z.to_nat (if i <? 0 then Z.max 0 (len + i) else Z.min i len).

(** [l[start:stop]]. *)
Definition get {A} (l : list A) (start stop : Z) : list A :=
  let len := Z.of_nat (length l) in
  let a := bound len start in
  let b := bound len stop in
  take (b - a) (drop a l).

(** [l[start:stop] = r] on a copy of [l]. *)
Definition assign {A} (l : list A) (start stop : Z) (r : list A) : list A :=
  let len := Z.of_nat (length l) in
  let a := bound len start in
  let b := bound len stop in
  take a l ++ r ++ drop (Nat.max a b) l.

End Slice.

(** ** Results of code that may raise *)

Inductive Result (A : Type) : Type :=
| Ok (a : A)
| Raise (exc : string).
Arguments Ok {A} a.
Arguments Raise {A} exc.

Definition bind {A B} (r : Result A) (k : A -> Result B) : Result B :=
  match r with
  | Ok a => k a
  | Raise exc => Raise exc
  end.

Notation "'let!' x ':=' r 'in' k" := (bind r (fun x => k))
  (at level 10, x name, r at level 100, k at level 200).

(** ** agent/agents/clone_agent.py *)

(** What [git clone] and the language detection deliver: the fresh
    directory and the detected language, or the text of the exception. *)
Inductive clone_outcome :=
| CloneOk (tmp_dir language : string)
| CloneRaises (exc : string).

Definition clone_agent (o : clone_outcome) (st : AgentState) : AgentState :=
  let timeline := cicd_timeline st ++ [mk_event "clone_started" "running"] in
  match o with
  | CloneOk tmp_dir lang =>
      set_error_message None
        (set_cicd_timeline (timeline ++ [mk_event "clone_success" "success"])
           (set_language lang (set_clone_path tmp_dir st)))
  | CloneRaises exc =>
      set_error_message (Some exc)
        (set_status "failed"
           (set_cicd_timeline (timeline ++ [mk_event "clone_failed" "failure"])
              (set_language "unknown" (set_clone_path "" st))))
  end.

(** ** agent/agents/analyze_agent.py *)

(** What the test runner, the linters and the parsers of their output
    deliver: the failure list before deduplication with the two counters of
    the summary line, or the text of an exception. *)
Inductive analyze_outcome :=
| AnalyzeOk (raw : list FailureEvent) (total passed : Z)
| AnalyzeRaises (error_detail : string).

Definition failure_key (f : FailureEvent) : string * string * Z :=
  (fe_bug_type f, fe_file f, fe_line f).

(** The deduplication loop, with its two accumulators [seen] and [deduped]. *)
Fixpoint dedup_loop (fs : list FailureEvent) (seen : gset (string * string * Z))
    (deduped : list FailureEvent) : list FailureEvent :=
  match fs with
  | [] => deduped
  | f :: rest =>
      if decide (failure_key f ∈ seen) then dedup_loop rest seen deduped
      else dedup_loop rest ({[failure_key f]} ∪ seen) (deduped ++ [f])
  end.

Definition dedup (fs : list FailureEvent) : list FailureEvent :=
  dedup_loop fs ∅ [].

Definition analyze_agent (o : analyze_outcome) (st : AgentState) : AgentState :=
  if negb (Str.truthy (clone_path st)) || str_eq (status st) "failed" then st
  else
    let timeline :=
      cicd_timeline st ++ [mk_event "analysis_started" "running"] in
    match o with
    | AnalyzeOk raw total passed =>
        let fs := dedup raw in
        set_cicd_timeline
          (timeline ++
             [mk_event "analysis_complete"
                (if (length fs =? 0)%nat then "success" else "failure")])
          (set_tests_failed (Z.of_nat (length fs))
             (set_tests_passed passed
                (set_total_tests total (set_failures fs st))))
    | AnalyzeRaises error_detail =>
        set_error_message (Some error_detail)
          (set_cicd_timeline
             (timeline ++ [mk_event "analysis_error" "failure"])
             (set_tests_failed 0
                (set_tests_passed 0 (set_total_tests 0 (set_failures [] st)))))
    end.

(** ** agent/agents/fix_agent.py *)

Infix "+++" := String.append (at level 60, right associativity).

(** What the call to the remote completion service delivers: the content of
    the reply (the empty string when there is none), or the text of the
    exception raised on the way. *)
Inductive delegate_outcome :=
| DelegateReply (content : string)
| DelegateRaises (exc : string).

Definition _call_llm (o : delegate_outcome) : string :=
  match o with
  | DelegateReply content => content
  | DelegateRaises exc =>
      "---FIX_DESC---rule-based fix applied" +++
      String Str.lf ("---FIXED_CODE---# LLM error: " +++ exc)
  end.

(** The two searches of [_parse_llm_response].  The description is the text
    after the first description marker, up to the next code marker or the
    end; the code is all the text after the first code marker; both are
    stripped. *)
Definition _parse_llm_response (response : string) : string * string :=
  let fix_desc :=
    match Str.split_first "---FIX_DESC---" response with
    | Some (_, rest) =>
        Str.strip
          match Str.split_first "---FIXED_CODE---" rest with
          | Some (before, _) => before
          | None => rest
          end
    | None => "apply automated fix"
    end in
  let fixed_code :=
    match Str.split_first "---FIXED_CODE---" response with
    | Some (_, rest) => Str.strip rest
    | None => ""
    end in
  (fix_desc, fixed_code).

Definition _rule_based_fix (failure : FailureEvent) (code_lines : list string)
  : string * list string :=
  let bug_type := fe_bug_type failure in
  let line_idx := fe_line failure - 1 in
  let in_range :=
    (0 <=? line_idx) && (line_idx <? Z.of_nat (length code_lines)) in
  if str_eq bug_type "INDENTATION" && in_range then
    ("fix indentation to use 4 spaces consistently",
     alter Str.sub_leading_tabs (Z.to_nat line_idx) code_lines)
  else if str_eq bug_type "IMPORT" && in_range then
    ("remove the unused import statement",
     alter (fun l => "# " +++ Str.rstrip l +++
                     "  # removed unused import" +++ String Str.lf "")
           (Z.to_nat line_idx) code_lines)
  else ("apply automated fix", code_lines).

(** The working tree: what is found at a path.  [Unreadable] stands for a
    path that exists and cannot be opened for reading (a directory, a file
    without permission), with the text of the exception. *)
Inductive entry :=
| RegularFile (content : string)
| Unreadable (exc : string).

Definition path_exists (fs : gmap string entry) (p : string) : bool :=
  match fs !! p with Some _ => true | None => false end.

Definition _read_file_lines (fs : gmap string entry) (filepath : string)
  : Result (list string) :=
  match fs !! filepath with
  | Some (RegularFile content) =>
      Ok (Str.lines_lf (Str.universal_newlines content))
  | Some (Unreadable exc) => Raise exc
  | None => Raise "FileNotFoundError"
  end.

(** The text submitted to the service, by its ingredients. *)
Record Prompt := {
  p_bug_type : string;
  p_file : string;
  p_line : Z;
  p_message : string;
  p_first : Z;
  p_last : Z;
  p_context : string
}.

(** The surroundings of one call of [_apply_fix]: path arithmetic
    ([Path(clone_path) / file]), the recursive search for a file name under
    the clone ([rglob]), the completion service, and the paths that cannot
    be written (with the text of the exception). *)
Record Host := {
  resolve : string -> string -> string;
  rglob_name : string -> string -> list string;
  delegate : Prompt -> string -> delegate_outcome;
  write_error : string -> option string
}.

Definition _write_file_lines (h : Host) (fs : gmap string entry)
    (filepath : string) (lines : list string) : Result (gmap string entry) :=
  match write_error h filepath with
  | Some exc => Raise exc
  | None => Ok (<[filepath := RegularFile (Str.join lines)]> fs)
  end.

Definition fix_record (failure : FailureEvent) (desc patch st : string)
  : FixRecord :=
  {| fx_bug_type := fe_bug_type failure;
     fx_file := fe_file failure;
     fx_line := fe_line failure;
     fx_fix_description := desc;
     fx_patch := patch;
     fx_status := st |}.

(** The rule-based tail of [_apply_fix]. *)
Definition rule_based_branch (h : Host) (fs : gmap string entry)
    (failure : FailureEvent) (abs_path : string) (original_lines : list string)
  : FixRecord * gmap string entry :=
  let '(fix_desc, fixed_lines) := _rule_based_fix failure original_lines in
  match _write_file_lines h fs abs_path fixed_lines with
  | Ok fs' => (fix_record failure fix_desc (Str.join fixed_lines) "applied", fs')
  | Raise exc =>
      (fix_record failure ("rule-based fix error: " +++ exc) "" "failed", fs)
  end.

Definition _apply_fix (h : Host) (fs : gmap string entry)
    (failure : FailureEvent) (clone_path openai_key : string)
  : Result (FixRecord * gmap string entry) :=
  let direct := resolve h clone_path (fe_file failure) in
  let abs_path :=
    if path_exists fs direct then direct
    else match rglob_name h clone_path (fe_file failure) with
         | c :: _ => c
         | [] => direct
         end in
  if negb (path_exists fs abs_path) then
    Ok (fix_record failure "file not found – skipped" "" "failed", fs)
  else
    let! original_lines := _read_file_lines fs abs_path in
    if Str.truthy openai_key && String.prefix "sk-" openai_key then
      let start := Z.max 0 (fe_line failure - 11) in
      let stop :=
        Z.min (Z.of_nat (length original_lines)) (fe_line failure + 10) in
      let context := Str.join (Slice.get original_lines start stop) in
      let prompt :=
        {| p_bug_type := fe_bug_type failure; p_file := fe_file failure;
           p_line := fe_line failure; p_message := fe_message failure;
           p_first := start + 1; p_last := stop; p_context := context |} in
      let llm_response := _call_llm (delegate h prompt openai_key) in
      let '(fix_desc, fixed_code) := _parse_llm_response llm_response in
      if Str.truthy fixed_code then
        let replacement := Str.splitlines fixed_code in
        let fixed_lines :=
          Slice.assign original_lines start stop replacement in
        match _write_file_lines h fs abs_path fixed_lines with
        | Ok fs' => Ok (fix_record failure fix_desc fixed_code "applied", fs')
        | Raise exc =>
            Ok (fix_record failure ("LLM fix write error: " +++ exc) ""
                  "failed", fs)
        end
      else Ok (rule_based_branch h fs failure abs_path original_lines)
    else Ok (rule_based_branch h fs failure abs_path original_lines).

(** The loop of [fix_agent] over the failures; the [k]-th call of
    [_apply_fix] runs in the surroundings [hosts k] and on the tree as the
    calls before it left it. *)
Fixpoint fix_loop (hosts : nat -> Host) (k : nat) (fs : gmap string entry)
    (todo : list FailureEvent) (clone_path openai_key : string)
    (fixes : list FixRecord) : Result (list FixRecord * gmap string entry) :=
  match todo with
  | [] => Ok (fixes, fs)
  | failure :: rest =>
      let! r := _apply_fix (hosts k) fs failure clone_path openai_key in
      fix_loop hosts (S k) (snd r) rest clone_path openai_key (fixes ++ [fst r])
  end.

Definition fix_agent (hosts : nat -> Host) (fs : gmap string entry)
    (st : AgentState) : Result (AgentState * gmap string entry) :=
  match failures st with
  | [] => Ok (st, fs)
  | _ :: _ =>
      if str_eq (status st) "failed" then Ok (st, fs)
      else
        let timeline := cicd_timeline st ++ [mk_event "fix_started" "running"] in
        let! r := fix_loop hosts 0 fs (failures st) (clone_path st)
                    (openai_key st) [] in
        let applied := count_applied (fst r) in
        Ok (set_cicd_timeline
              (timeline ++
                 [mk_event "fix_complete"
                    (if 0 <? applied then "success" else "failure")])
              (set_fixes (fst r) st),
            snd r)
  end.

(** ** agent/agents/git_agent.py *)

Definition _build_branch_name (team leader : string) : string :=
  Str.spaces_to_underscores (Str.upper team) +++ "_" +++
  Str.spaces_to_underscores (Str.upper leader) +++ "_AI_Fix".

(** What the git commands deliver: a clean tree, a pushed commit with its
    hash, or the text of an exception. *)
Inductive git_outcome :=
| GitNothingToCommit
| GitPushed (commit : string)
| GitRaises (exc : string).

Definition git_agent (o : git_outcome) (st : AgentState) : AgentState :=
  if negb (Str.truthy (clone_path st)) || str_eq (status st) "failed" then st
  else
    let branch := _build_branch_name (team_name st) (leader_name st) in
    let timeline := cicd_timeline st ++ [mk_event "git_started" "running"] in
    match o with
    | GitNothingToCommit =>
        set_cicd_timeline
          (timeline ++ [mk_event "git_nothing_to_commit" "success"])
          (set_commit_sha "" (set_branch_name branch st))
    | GitPushed commit =>
        set_cicd_timeline (timeline ++ [mk_event "git_pushed" "success"])
          (set_commit_sha commit (set_branch_name branch st))
    | GitRaises exc =>
        set_error_message (Some exc)
          (set_cicd_timeline (timeline ++ [mk_event "git_failed" "failure"])
             (set_commit_sha "" (set_branch_name branch st)))
    end.

(** ** agent/agents/cicd_agent.py *)

(** The remote CI service as the monitor sees it: whether the repository URL
    names an owner and a repository (the regular-expression match), the
    latest workflow run of the branch, and the answer to the [i]-th status
    request, a pair (status, conclusion). *)
Record CIService := {
  repo_of_url : string -> option (string * string);
  latest_workflow_run : Result (option string);
  workflow_status : nat -> Result (string * option string)
}.

Definition max_polls : nat := 60.

Definition conclusion_is_success (conclusion : option string) : bool :=
  match conclusion with Some c => str_eq c "success" | None => false end.

(** The polling loop, [n] iterations left, [i] requests made so far.  It
    returns the CI status and the timeline. *)
Fixpoint poll (svc : CIService) (n i : nat) (last_status : string)
    (timeline : list CICDEvent) : string * list CICDEvent :=
  match n with
  | O => ("failure", timeline ++ [mk_event "cicd_timeout" "failure"])
  | S n' =>
      match workflow_status svc i with
      | Raise _ => ("failure", timeline ++ [mk_event "cicd_error" "failure"])
      | Ok (st, conclusion) =>
          let changed := negb (str_eq st last_status) in
          let final :=
            if conclusion_is_success conclusion then "success" else "failure" in
          let timeline' :=
            if changed then
              timeline ++
                [mk_event ("cicd_" +++ st)
                   (if str_eq st "queued" || str_eq st "in_progress"
                    then "running" else final)]
            else timeline in
          if str_eq st "completed" then (final, timeline')
          else poll svc n' (S i) (if changed then st else last_status) timeline'
      end
  end.

Definition cicd_agent (svc : CIService) (st : AgentState) : AgentState :=
  let timeline := cicd_timeline st in
  if negb (Str.truthy (github_token st)) || negb (Str.truthy (commit_sha st))
  then
    let applied := count_applied (fixes st) in
    let ci_status :=
      if (0 <? applied) && (0 <? len_failures st) then "success"
      else "failure" in
    set_cicd_timeline (timeline ++ [mk_event "cicd_simulated" ci_status])
      (set_cicd_status ci_status st)
  else
    match repo_of_url svc (repo_url st) with
    | None =>
        set_cicd_timeline (timeline ++ [mk_event "cicd_skipped" "pending"])
          (set_cicd_status "pending" st)
    | Some _ =>
        let timeline :=
          timeline ++ [mk_event "cicd_polling_started" "running"] in
        match latest_workflow_run svc with
        | Raise _ =>
            set_cicd_timeline (timeline ++ [mk_event "cicd_error" "failure"])
              (set_cicd_status "failure" st)
        | Ok run =>
            if match run with Some id => Str.truthy id | None => false end
            then
              let '(ci_status, timeline') := poll svc max_polls 0 "" timeline in
              set_cicd_timeline timeline' (set_cicd_status ci_status st)
            else
              set_cicd_timeline
                (timeline ++ [mk_event "cicd_no_workflow" "pending"])
                (set_cicd_status "pending" st)
        end
    end.

(** ** agent/orchestrator.py *)

Definition should_retry (st : AgentState) : string :=
  if str_eq (status st) "failed" then "score"
  else if str_eq (cicd_status st) "success" then "score"
  else if retry_count st >=? retry_limit st then "score"
  else "analyze".

Definition increment_retry (st : AgentState) : AgentState :=
  set_fixes [] (set_retry_count (retry_count st + 1) st).

(** The nodes registered by [build_graph], and [END]. *)
Inductive node :=
| N_clone | N_analyze | N_fix | N_git | N_cicd_monitor | N_score
| N_increment_retry | N_END.

(** The path map of the conditional edge leaving [cicd_monitor]. *)
Definition retry_path_map (label : string) : option node :=
  if str_eq label "score" then Some N_score
  else if str_eq label "analyze" then Some N_increment_retry
  else None.

(** The node that follows [n] once [n] has produced the state [st']. *)
Definition next_node (n : node) (st' : AgentState) : option node :=
  match n with
  | N_clone => Some N_analyze
  | N_analyze => Some N_fix
  | N_fix => Some N_git
  | N_git => Some N_cicd_monitor
  | N_cicd_monitor => retry_path_map (should_retry st')
  | N_increment_retry => Some N_analyze
  | N_score => Some N_END
  | N_END => None
  end.

(** Everything one pass of the graph obtains from outside the process. *)
Record Externals := {
  x_clone : clone_outcome;
  x_analyze : analyze_outcome;
  x_hosts : nat -> Host;
  x_tree : gmap string entry;
  x_git : git_outcome;
  x_ci : CIService
}.

(** The function registered for a node, run on the state. *)
Definition run_node (x : Externals) (n : node) (st : AgentState)
  : Result AgentState :=
  match n with
  | N_clone => Ok (clone_agent (x_clone x) st)
  | N_analyze => Ok (analyze_agent (x_analyze x) st)
  | N_fix => let! r := fix_agent (x_hosts x) (x_tree x) st in Ok (fst r)
  | N_git => Ok (git_agent (x_git x) st)
  | N_cicd_monitor => Ok (cicd_agent (x_ci x) st)
  | N_score => Ok (score_agent st)
  | N_increment_retry => Ok (increment_retry st)
  | N_END => Ok st
  end.

(** One step of the graph: a node runs, then its outgoing edge is followed.
    A node that raises ends the run; no step is taken from there. *)
Inductive step : node * AgentState -> node * AgentState -> Prop :=
| step_node x n st st' n' :
    run_node x n st = Ok st' ->
    next_node n st' = Some n' ->
    step (n, st) (n', st').

(** The run of the graph under a limit of [steps] node executions, against
    a world that answers cycle [k] with [env k]: [None] when the limit is
    reached before the run has ended, otherwise the final state or the
    exception that ended the run. *)
Fixpoint invoke (env : nat -> Externals) (steps : nat) (cycle : nat) (n : node)
    (st : AgentState) : option (Result AgentState) :=
  match steps with
  | O => None
  | S steps' =>
      match run_node (env cycle) n st with
      | Raise exc => Some (Raise exc)
      | Ok st' =>
          match next_node n st' with
          | None => Some (Ok st')
          | Some N_END => Some (Ok st')
          | Some n' =>
              invoke env steps'
                (match n with N_increment_retry => S cycle | _ => cycle end)
                n' st'
          end
      end
  end.

(** What [run_pipeline] reads from the clock and the random source. *)
Record RunClock := {
  new_run_id : string;
  start_iso : string;
  finish_iso : string;
  elapsed : Q
}.

Definition initial_score : ScoreBreakdown :=
  {| tests_passed_pct := 0; fixes_applied := 0; fix_quality_score := 0;
     ci_success_bonus := 0; base_score := 0; speed_bonus := 0;
     efficiency_penalty := 0; total_score := 0 |}.

Definition initial_state (clk : RunClock)
    (repo team leader key token : string) (limit : Z) : AgentState :=
  {| repo_url := repo; team_name := team; leader_name := leader;
     openai_key := key; retry_limit := limit; github_token := token;
     branch_name := ""; clone_path := ""; language := "python";
     failures := []; total_tests := 0; tests_passed := 0; tests_failed := 0;
     fixes := []; commit_sha := ""; pr_url := ""; cicd_timeline := [];
     cicd_status := "pending"; score := initial_score; retry_count := 0;
     status := "running"; error_message := None; run_id := new_run_id clk;
     started_at := start_iso clk; finished_at := "";
     duration_seconds := 0 |}.

(** The recursion limit of the graph library when [invoke] is given no
    configuration, as [run_pipeline] calls it: the number of steps a run may
    take.  A run of this graph executes one node per step, 6 + 5k nodes
    when it retries k times, so under any limit from 21 to 25 the same runs
    reach their end. *)
Definition recursion_limit : nat := 25.

(** The exception of the library for a run that has not ended within the
    limit; its text begins with this sentence. *)
Definition GraphRecursionError : string :=
  "Recursion limit of 25 reached without hitting a stop condition.".

(** The result is never [None]: a run cut off by the limit ends with the
    exception of the library, which [run_pipeline] does not catch. *)
Definition run_pipeline (env : nat -> Externals) (clk : RunClock)
    (repo team leader key token : string) (limit : Z)
  : option (Result AgentState) :=
  match invoke env recursion_limit 0 N_clone
          (initial_state clk repo team leader key token limit) with
  | Some (Ok final_state) =>
      Some (Ok (set_duration_seconds (Py.round (elapsed clk) 2)
                  (set_finished_at (finish_iso clk) final_state)))
  | Some (Raise exc) => Some (Raise exc)
  | None => Some (Raise GraphRecursionError)
  end.

(** ** main.py *)

Record RunAgentRequest := {
  rq_repo_url : string;
  rq_team_name : string;
  rq_leader_name : string;
  rq_openai_key : string;
  rq_github_token : string;
  rq_retry_limit : Z
}.

(** The module-level dictionary [_pipeline_state]. *)
Record PipelineState := {
  ps_status : string;
  ps_run_id : option string;
  ps_data : option AgentState;
  ps_error : option string
}.

(** The server: the shared dictionary and the background tasks that were
    added and have not started yet. *)
Record Server := {
  pipeline_state : PipelineState;
  background_tasks : list RunAgentRequest
}.

Inductive Response :=
| HTTPException (status_code : Z) (detail : string)
| Reply (message st : string).

Definition idle_state : PipelineState :=
  {| ps_status := "idle"; ps_run_id := None; ps_data := None;
     ps_error := None |}.

(** [POST /api/run-agent]; the body under the lock is one atomic step. *)
Definition run_agent (request : RunAgentRequest) (srv : Server)
  : Response * Server :=
  if str_eq (ps_status (pipeline_state srv)) "running" then
    (HTTPException 409
       "Pipeline is already running. Wait for it to complete.", srv)
  else
    (Reply "Pipeline started successfully" "queued",
     {| pipeline_state :=
          {| ps_status := "queued"; ps_run_id := None; ps_data := None;
             ps_error := None |};
        background_tasks := background_tasks srv ++ [request] |}).

(** [_run_pipeline_task], first locked block: the task starts. *)
Definition task_begin (ps : PipelineState) : PipelineState :=
  {| ps_status := "running"; ps_run_id := ps_run_id ps; ps_data := ps_data ps;
     ps_error := None |}.

(** [_run_pipeline_task], second locked block or the handler of an
    exception: the task ends. *)
Definition task_end (r : Result AgentState) (ps : PipelineState)
  : PipelineState :=
  match r with
  | Ok final_state =>
      {| ps_status := status final_state;
         ps_run_id := Some (run_id final_state);
         ps_data := Some final_state; ps_error := ps_error ps |}
  | Raise exc =>
      {| ps_status := "failed"; ps_run_id := ps_run_id ps;
         ps_data := ps_data ps; ps_error := Some exc |}
  end.

(** One of the background tasks that wait starts, the one at position [i]:
    it leaves the list, and the first locked block of [_run_pipeline_task]
    runs. *)
Definition start_task (i : nat) (srv : Server)
  : option (RunAgentRequest * Server) :=
  match background_tasks srv !! i with
  | None => None
  | Some request =>
      Some (request,
            {| pipeline_state := task_begin (pipeline_state srv);
               background_tasks := delete i (background_tasks srv) |})
  end.

(** [POST /api/reset]. *)
Definition reset_pipeline (srv : Server) : Response * Server :=
  (Reply "Pipeline reset successfully" "idle",
   {| pipeline_state := idle_state;
      background_tasks := background_tasks srv |}).

(** ** Concrete states used by the examples *)

Definition demo_clock : RunClock :=
  {| new_run_id := "run-1"; start_iso := "2026-01-01T00:00:00+00:00";
     finish_iso := "2026-01-01T00:01:00+00:00"; elapsed := 60 |}.

Definition demo_state (limit : Z) : AgentState :=
  initial_state demo_clock "https://github.com/o/r" "RIFT TEAM" "LEADER"
    "" "" limit.

Definition demo_failure (bug file : string) (line : Z) : FailureEvent :=
  {| fe_bug_type := bug; fe_file := file; fe_line := line;
     fe_message := "msg" |}.

(** A state whose summary counters report more passed tests than tests. *)
Definition overcounted_state : AgentState :=
  set_cicd_status "success"
    (set_tests_passed 2 (set_total_tests 1 (demo_state 5))).

(** The second worked example of the specification:
    ScoreCalculator(10, 5, 2, 1, failure, 400, 25). *)
Definition worked_example_state : AgentState :=
  set_retry_count 25
    (set_duration_seconds 400
       (set_cicd_status "failure"
          (set_fixes
             [fix_record (demo_failure "LOGIC" "a.py" 1) "d" "p" "applied";
              fix_record (demo_failure "LOGIC" "a.py" 2) "d" "" "failed"]
             (set_failures
                [demo_failure "LOGIC" "a.py" 1; demo_failure "LOGIC" "a.py" 2]
                (set_tests_passed 5 (set_total_tests 10 (demo_state 30))))))).

(** Externals for the nodes that are examined without their surroundings. *)
Definition quiet_host : Host :=
  {| resolve := fun root file => root +++ "/" +++ file;
     rglob_name := fun _ _ => [];
     delegate := fun _ _ => DelegateReply "";
     write_error := fun _ => None |}.

Definition quiet_ci : CIService :=
  {| repo_of_url := fun _ => None;
     latest_workflow_run := Ok None;
     workflow_status := fun _ => Ok ("completed", Some "failure") |}.

Definition quiet_externals : Externals :=
  {| x_clone := CloneRaises "unreachable";
     x_analyze := AnalyzeOk [] 0 0;
     x_hosts := fun _ => quiet_host;
     x_tree := ∅;
     x_git := GitNothingToCommit;
     x_ci := quiet_ci |}.

(** The deduplication without accumulators: keep an entry when its key has
    not been seen, and remember the key. *)
Fixpoint keep_unseen (fs : list FailureEvent) (seen : gset (string * string * Z))
  : list FailureEvent :=
  match fs with
  | [] => []
  | f :: rest =>
      if decide (failure_key f ∈ seen) then keep_unseen rest seen
      else f :: keep_unseen rest ({[failure_key f]} ∪ seen)
  end.

Definition duplicated_raw : list FailureEvent :=
  [ {| fe_bug_type := "LINTING"; fe_file := "a.py"; fe_line := 3;
       fe_message := "E302 first" |};
    {| fe_bug_type := "SYNTAX"; fe_file := "a.py"; fe_line := 3;
       fe_message := "invalid syntax" |};
    {| fe_bug_type := "LINTING"; fe_file := "a.py"; fe_line := 3;
       fe_message := "E303 second" |};
    {| fe_bug_type := "LINTING"; fe_file := "b.py"; fe_line := 3;
       fe_message := "W291" |};
    {| fe_bug_type := "SYNTAX"; fe_file := "a.py"; fe_line := 3;
       fe_message := "invalid syntax" |} ].

Definition cloned_state : AgentState :=
  clone_agent (CloneOk "/tmp/rift_agent_1_1" "python") (demo_state 5).

(** A line with one leading tab and a tab further on. *)
Definition tab_inside_line : string :=
  String Str.tab ("a" +++ String Str.tab ("b" +++ String Str.lf "")).

Definition two_tabs_line : string :=
  String Str.tab (String Str.tab ("x = 1" +++ String Str.lf "")).

(** Does the string begin with a tab? *)
Definition starts_with_tab (s : string) : bool :=
  match s with String c _ => Ascii.eqb c Str.tab | EmptyString => false end.

(** ** A small working tree for the fix step *)

Definition demo_source : string :=
  "def f():" +++ String Str.lf (String Str.tab ("return 1" +++ String Str.lf "")).

Definition demo_tree : gmap string entry :=
  {[ "/repo/a.py" := RegularFile demo_source ]}.

Definition indentation_failure : FailureEvent :=
  {| fe_bug_type := "INDENTATION"; fe_file := "a.py"; fe_line := 2;
     fe_message := "unexpected indent" |}.

(** A host whose completion service cannot be reached. *)
Definition unreachable_host : Host :=
  {| resolve := fun root file => root +++ "/" +++ file;
     rglob_name := fun _ _ => [];
     delegate := fun _ _ => DelegateRaises "Connection error.";
     write_error := fun _ => None |}.

Definition fix_key (r : FixRecord) : string * string * Z :=
  (fx_bug_type r, fx_file r, fx_line r).

(** A tree in which the path of the failure is a directory. *)
Definition directory_tree : gmap string entry :=
  {[ "/repo/a.py" := Unreadable "IsADirectoryError" ]}.

(** A project in which lib/big.js is named by a failure and is not there,
    while node_modules/big.js, the directory of a package, is. *)
Definition package_tree : gmap string entry :=
  {[ "/repo/node_modules/big.js" := Unreadable "IsADirectoryError";
     "/repo/index.js" := RegularFile "" ]}.

Definition package_host : Host :=
  {| resolve := fun root file => root +++ "/" +++ file;
     rglob_name := fun _ file =>
       if str_eq file "lib/big.js" then ["/repo/node_modules/big.js"] else [];
     delegate := fun _ _ => DelegateReply "";
     write_error := fun _ => None |}.

Definition package_failure_state : AgentState :=
  set_failures [demo_failure "TYPE_ERROR" "lib/big.js" 3]
    (set_language "javascript" (set_clone_path "/repo" (demo_state 5))).

Definition two_failures_state : AgentState :=
  set_failures
    [indentation_failure; demo_failure "IMPORT" "missing.py" 1]
    (set_clone_path "/repo" (demo_state 5)).

(** ** Cycles of the graph

    One cycle is the chain analyze, fix, git, cicd_monitor; [cycles] is the
    state in which cycle [c + k] ends when cycle [c] starts in [st] and every
    cycle before [c + k] is followed by a retry. *)

Definition one_cycle (x : Externals) (st : AgentState) : Result AgentState :=
  let! fixed := run_node x N_fix (analyze_agent (x_analyze x) st) in
  Ok (cicd_agent (x_ci x) (git_agent (x_git x) fixed)).

Fixpoint cycles (env : nat -> Externals) (c : nat) (st : AgentState) (k : nat)
  : Result AgentState :=
  match k with
  | O => one_cycle (env c) st
  | S k' =>
      let! ended := one_cycle (env c) st in
      cycles env (S c) (increment_retry ended) k'
  end.

Definition cycle_end (env : nat -> Externals) (st0 : AgentState) (k : nat)
  : Result AgentState :=
  cycles env 0 (clone_agent (x_clone (env 0%nat)) st0) k.

(** A world in which the clone succeeds, the analysis finds nothing and no
    CI credential is given, so that the monitor infers a failure. *)
Definition clean_externals : Externals :=
  {| x_clone := CloneOk "/tmp/rift_agent_1_1" "python";
     x_analyze := AnalyzeOk [] 0 0;
     x_hosts := fun _ => quiet_host;
     x_tree := ∅;
     x_git := GitNothingToCommit;
     x_ci := quiet_ci |}.

(** ** Concrete servers *)

Definition demo_request : RunAgentRequest :=
  {| rq_repo_url := "https://github.com/o/r"; rq_team_name := "RIFT_TEAM";
     rq_leader_name := "LEADER"; rq_openai_key := ""; rq_github_token := "";
     rq_retry_limit := 5 |}.

Definition idle_server : Server :=
  {| pipeline_state := idle_state; background_tasks := [] |}.

(** The server while the task of an accepted request runs. *)
Definition running_server : Server :=
  {| pipeline_state := task_begin (pipeline_state (snd (run_agent demo_request idle_server)));
     background_tasks := [] |}.

(** ** Predicates on runs *)

(** The summary counters of an analysis do not report more passed tests
    than tests. *)
Definition well_counted (o : analyze_outcome) : Prop :=
  match o with
  | AnalyzeOk _ total passed => passed <= total
  | AnalyzeRaises _ => True
  end.

(** The retry counter of a run with budget [L], negative budgets included. *)
Definition budget_kept (L : Z) (n : node) (st : AgentState) : Prop :=
  retry_limit st = L /\ 0 <= retry_count st <= Z.max 0 L /\
  (n = N_increment_retry -> retry_count st < L).

(** The counters that the score step divides: passed tests against tests,
    applied fixes against failures; before the fix step of a cycle the fix
    list is empty. *)
Definition counters_consistent (n : node) (st : AgentState) : Prop :=
  tests_passed st <= total_tests st /\
  count_applied (fixes st) <= len_failures st /\
  (n = N_clone \/ n = N_analyze \/ n = N_fix -> fixes st = []).

(** The log is empty when the clone node starts and begins with its first
    event from then on. *)
Definition log_started (n : node) (st : AgentState) : Prop :=
  match n with
  | N_clone => cicd_timeline st = []
  | _ => exists k, cicd_timeline st = mk_event "clone_started" "running" :: k
  end.

(** The externals of a run on a small Python project: the analysis finds
    one indentation failure and two of three tests passing, there is no
    delegate credential and no CI credential. *)
Definition small_project : Externals :=
  {| x_clone := CloneOk "/repo" "python";
     x_analyze := AnalyzeOk [indentation_failure; indentation_failure] 3 2;
     x_hosts := fun _ => quiet_host;
     x_tree := demo_tree;
     x_git := GitPushed "0123456789abcdef";
     x_ci := quiet_ci |}.

Definition small_run (limit : Z) : option (Result AgentState) :=
  run_pipeline (fun _ => small_project) demo_clock "https://github.com/o/r"
    "RIFT TEAM" "LEADER" "" "" limit.

(** ** Concrete CI services *)

(** A service whose run is queued, then in progress, then completed with
    success. *)
Definition passing_ci : CIService :=
  {| repo_of_url := fun _ => Some ("o", "r");
     latest_workflow_run := Ok (Some "42");
     workflow_status := fun i =>
       match i with
       | O => Ok ("queued", None)
       | S O => Ok ("in_progress", None)
       | _ => Ok ("completed", Some "success")
       end |}.

(** A service whose run never completes. *)
Definition stalled_ci : CIService :=
  {| repo_of_url := fun _ => Some ("o", "r");
     latest_workflow_run := Ok (Some "42");
     workflow_status := fun _ => Ok ("in_progress", None) |}.

(** The same, except that it would complete at the 61st request. *)
Definition late_ci : CIService :=
  {| repo_of_url := fun _ => Some ("o", "r");
     latest_workflow_run := Ok (Some "42");
     workflow_status := fun i =>
       if (i <? 60)%nat then Ok ("in_progress", None)
       else Ok ("completed", Some "success") |}.

(** A state with a CI credential and a pushed commit. *)
Definition pushed_state : AgentState :=
  set_commit_sha "0123456789abcdef"
    (initial_state demo_clock "https://github.com/o/r" "RIFT TEAM" "LEADER"
       "" "ghp_token" 5).

(** ** More concrete inputs for the fix step *)

Definition import_failure : FailureEvent :=
  {| fe_bug_type := "IMPORT"; fe_file := "a.py"; fe_line := 1;
     fe_message := "No module named x" |}.

Definition import_lines : list string :=
  ["import x" +++ String Str.lf ""; "y = 1" +++ String Str.lf ""].

(** The file of the failure is found neither at its path under the clone
    nor by its name: the first path of that name, if the search gives one,
    does not exist either. *)
Definition file_missing (h : Host) (fs : gmap string entry)
    (clone_path : string) (failure : FailureEvent) : Prop :=
  fs !! resolve h clone_path (fe_file failure) = None /\
  match rglob_name h clone_path (fe_file failure) with
  | c :: _ => fs !! c = None
  | [] => True
  end.

(** Two failures in files that the small tree does not hold. *)
Definition missing_files_state : AgentState :=
  set_failures
    [demo_failure "IMPORT" "missing.py" 1; demo_failure "LOGIC" "gone/b.py" 7]
    (set_clone_path "/repo" (demo_state 5)).

(** The record that [_apply_fix] returns for a file it does not find. *)
Definition not_found_record (failure : FailureEvent) : FixRecord :=
  fix_record failure "file not found – skipped" "" "failed".

(** The line that the IMPORT rule writes for a line [l]. *)
Definition commented_import (l : string) : string :=
  "# " +++ Str.rstrip l +++ "  # removed unused import" +++ String Str.lf "".

(** A file of thirty numbered lines, and a failure at line 15. *)
Definition thirty_lines : list string :=
  (fun i => "line" +++ String Str.lf "") <$> seq 0 30.

Definition untagged_reply : string :=
  "Here is the corrected code:" +++ String Str.lf "x = 1".

(** ** agent/agents/analyze_agent.py: classification and counters *)

Definition ALLOWED_BUG_TYPES : gset string :=
  {[ "LINTING"; "SYNTAX"; "LOGIC"; "TYPE_ERROR"; "IMPORT"; "INDENTATION" ]}.

(** [mapping.get(key, default)]. *)
Definition dict_get (mapping : gmap string string) (key default : string)
  : string :=
  match mapping !! key with Some v => v | None => default end.

Definition python_error_rows : list (string * string) :=
  [ ("SYNTAXERROR", "SYNTAX"); ("INDENTATIONERROR", "INDENTATION");
    ("IMPORTERROR", "IMPORT"); ("MODULENOTFOUNDERROR", "IMPORT");
    ("TYPEERROR", "TYPE_ERROR"); ("NAMEERROR", "LOGIC");
    ("ATTRIBUTEERROR", "LOGIC") ].

Definition _classify_python_error (etype : string) : string :=
  dict_get (list_to_map python_error_rows) (Str.upper etype) "LOGIC".

Definition js_error_rows : list (string * string) :=
  [ ("TypeError", "TYPE_ERROR"); ("SyntaxError", "SYNTAX");
    ("ReferenceError", "IMPORT") ].

Definition _classify_js_error (etype : string) : string :=
  dict_get (list_to_map js_error_rows) etype "LOGIC".

Module Re.

(** The character class [\d] on code points below 256. *)
Definition is_digit (c : ascii) : bool :=
  let n := Str.code c in ((48 <=? n) && (n <=? 57))%N.

(** The longest run of digits at the start of the string, and the rest. *)
Fixpoint digit_run (s : string) : string * string :=
  match s with
  | String c t =>
      if is_digit c
      then let '(ds, rest) := digit_run t in (String c ds, rest)
      else (EmptyString, s)
  | EmptyString => (EmptyString, s)
  end.

(** The longest run of [\s] characters at the start, and the rest. *)
Fixpoint space_run (s : string) : string * string :=
  match s with
  | String c t =>
      if Str.is_space c
      then let '(ws, rest) := space_run t in (String c ws, rest)
      else (EmptyString, s)
  | EmptyString => (EmptyString, s)
  end.

(** [int(digits)]. *)
Fixpoint int_of_digits (acc : Z) (s : string) : Z :=
  match s with
  | EmptyString => acc
  | String c t => int_of_digits (10 * acc + Z.of_N (Str.code c - 48)) t
  end.

(** A match of [(\d+)lit] at the start of the string: the number and the
    text after the match.  The digits are matched greedily, and giving
    digits back cannot help, since [lit] begins with a character that is
    not a digit. *)
Definition number_then (lit s : string) : option (Z * string) :=
  match digit_run s with
  | (EmptyString, _) => None
  | (ds, rest) =>
      if String.prefix lit rest
      then Some (int_of_digits 0 ds, Str.drop (String.length lit) rest)
      else None
  end.

(** [re.search(r"(\d+)lit", s)]: the leftmost match, tried at every
    position from the left. *)
Fixpoint search_number_then (lit s : string) : option Z :=
  match number_then lit s with
  | Some (n, _) => Some n
  | None =>
      match s with
      | EmptyString => None
      | String _ t => search_number_then lit t
      end
  end.

(** [\s+] at the start: at least one whitespace character; the rest. *)
Definition spaces_then (s : string) : option string :=
  match space_run s with
  | (EmptyString, _) => None
  | (_, rest) => Some rest
  end.

(** A match of the Jest summary after its literal ["Tests:"]:
    [\s+(?:(\d+) failed,\s+)?(\d+) passed(?:,\s+(\d+) total)?], giving the
    three groups.  When the optional first group matches and no
    ["N passed"] follows it, leaving the group out does not help either:
    the digits are then followed by [" failed,"]. *)
Definition jest_summary_after (s : string)
  : option (option Z * Z * option Z) :=
  match spaces_then s with
  | None => None
  | Some s1 =>
      let with_failed :=
        match number_then " failed," s1 with
        | Some (failed, s2) =>
            match spaces_then s2 with
            | Some s3 =>
                match number_then " passed" s3 with
                | Some (passed, s4) => Some (Some failed, passed, s4)
                | None => None
                end
            | None => None
            end
        | None => None
        end in
      let groups :=
        match with_failed with
        | Some g => Some g
        | None =>
            match number_then " passed" s1 with
            | Some (passed, s4) => Some (None, passed, s4)
            | None => None
            end
        end in
      match groups with
      | None => None
      | Some (failed, passed, s4) =>
          let total :=
            match s4 with
            | String c s5 =>
                if Ascii.eqb c ","%char then
                  match spaces_then s5 with
                  | Some s6 =>
                      match number_then " total" s6 with
                      | Some (total, _) => Some total
                      | None => None
                      end
                  | None => None
                  end
                else None
            | EmptyString => None
            end in
          Some (failed, passed, total)
      end
  end.

(** [re.search] of the Jest summary: the leftmost ["Tests:"] after which
    the summary matches. *)
Fixpoint search_jest_summary (s : string) : option (option Z * Z * option Z) :=
  match (if String.prefix "Tests:" s
         then jest_summary_after (Str.drop 6 s) else None) with
  | Some g => Some g
  | None =>
      match s with
      | EmptyString => None
      | String _ t => search_jest_summary t
      end
  end.

End Re.

Definition _count_tests_in_output (output language : string) : Z * Z :=
  if str_eq language "python" then
    let passed :=
      match Re.search_number_then " passed" output with
      | Some n => n | None => 0 end in
    let failed :=
      match Re.search_number_then " failed" output with
      | Some n => n | None => 0 end in
    (passed + failed, passed)
  else
    match Re.search_jest_summary output with
    | Some (g1, passed, g3) =>
        let failed := match g1 with Some n => n | None => 0 end in
        let total := match g3 with Some n => n | None => passed + failed end in
        (total, passed)
    | None => (0, 0)
    end.

(** The string holds no digit. *)
Fixpoint no_digit (s : string) : bool :=
  match s with
  | EmptyString => true
  | String c t => negb (Re.is_digit c) && no_digit t
  end.

(** ** agent/agents/clone_agent.py: language detection *)

(** One path met by [root.rglob("*")]: whether it is a regular file, and
    its [suffix] as [pathlib] gives it. *)
Record PathEntry := {
  pe_is_file : bool;
  pe_suffix : string
}.

(** The dictionary [counts], with its three keys. *)
Record LanguageCounts := {
  n_python : Z;
  n_typescript : Z;
  n_javascript : Z
}.

(** One iteration of the loop over the paths. *)
Definition count_path (counts : LanguageCounts) (p : PathEntry)
  : LanguageCounts :=
  if negb (pe_is_file p) then counts
  else if str_eq (pe_suffix p) ".py" then
    {| n_python := n_python counts + 1;
       n_typescript := n_typescript counts;
       n_javascript := n_javascript counts |}
  else if str_eq (pe_suffix p) ".ts" || str_eq (pe_suffix p) ".tsx" then
    {| n_python := n_python counts;
       n_typescript := n_typescript counts + 1;
       n_javascript := n_javascript counts |}
  else if str_eq (pe_suffix p) ".js" || str_eq (pe_suffix p) ".jsx" then
    {| n_python := n_python counts;
       n_typescript := n_typescript counts;
       n_javascript := n_javascript counts + 1 |}
  else counts.

Definition count_paths (paths : list PathEntry) : LanguageCounts :=
  fold_left count_path paths
    {| n_python := 0; n_typescript := 0; n_javascript := 0 |}.

(** The decision after the loop. *)
Definition pick_language (counts : LanguageCounts) : string :=
  if (0 <? n_typescript counts)
     && (n_javascript counts <=? n_typescript counts)
  then "typescript"
  else if (n_javascript counts <=? n_python counts)
          && (n_typescript counts <=? n_python counts)
  then (if 0 <? n_python counts then "python" else "javascript")
  else "javascript".

Definition _detect_language (paths : list PathEntry) : string :=
  pick_language (count_paths paths).

(** The regular files with one of the given suffixes. *)
Definition has_suffix (suffixes : list string) (p : PathEntry) : bool :=
  pe_is_file p && existsb (str_eq (pe_suffix p)) suffixes.

Fixpoint count_files (f : PathEntry -> bool) (paths : list PathEntry) : Z :=
  match paths with
  | [] => 0
  | p :: rest => (if f p then 1 else 0) + count_files f rest
  end.

Definition file (suffix : string) : PathEntry :=
  {| pe_is_file := true; pe_suffix := suffix |}.

Definition directory : PathEntry :=
  {| pe_is_file := false; pe_suffix := "" |}.

(** Three Python sources and one TypeScript component. *)
Definition mostly_python_tree : list PathEntry :=
  [directory; file ".py"; file ".py"; file ".tsx"; file ".py"; file ".md"].

(** ** main.py: the background task *)

(** [_run_pipeline_task]: the three blocks in sequence.  [write_error]
    answers for [write_results]: the text of the exception it raises on the
    final state, if any. *)
Definition _run_pipeline_task (env : nat -> Externals) (clk : RunClock)
    (write_error : AgentState -> option string) (request : RunAgentRequest)
    (ps : PipelineState) : option PipelineState :=
  match run_pipeline env clk (rq_repo_url request) (rq_team_name request)
          (rq_leader_name request) (rq_openai_key request)
          (rq_github_token request) (rq_retry_limit request) with
  | None => None
  | Some r =>
      let outcome :=
        let! final_state := r in
        match write_error final_state with
        | Some exc => Raise exc
        | None => Ok final_state
        end in
      Some (task_end outcome (task_begin ps))
  end.

(** [GET /api/status]: status, run id, starting time and message. *)
Definition get_status (srv : Server)
  : string * option string * option string * string :=
  let state := pipeline_state srv in
  (ps_status state, ps_run_id state,
   match ps_data state with
   | Some data => Some (started_at data)
   | None => None
   end,
   match ps_error state with
   | Some e => if Str.truthy e then e else "Pipeline is " +++ ps_status state
   | None => "Pipeline is " +++ ps_status state
   end).

(** [GET /api/timeline]. *)
Definition get_timeline (srv : Server) : string * list CICDEvent :=
  (ps_status (pipeline_state srv),
   match ps_data (pipeline_state srv) with
   | Some data => cicd_timeline data
   | None => []
   end).

(** ** Predicates on the identity of a run *)

(** A node keeps what identifies the run, and leaves the branch alone or
    sets it to the name built from the two names. *)
Definition identity_kept (st st' : AgentState) : Prop :=
  run_id st' = run_id st /\ started_at st' = started_at st /\
  repo_url st' = repo_url st /\ team_name st' = team_name st /\
  leader_name st' = leader_name st /\
  (branch_name st' = branch_name st
   \/ branch_name st' = _build_branch_name (team_name st) (leader_name st)).

(** The state belongs to the run started at [clk] for the repository and
    the names given. *)
Definition run_identity (clk : RunClock) (repo team leader : string)
    (st : AgentState) : Prop :=
  run_id st = new_run_id clk /\ started_at st = start_iso clk /\
  repo_url st = repo /\ team_name st = team /\ leader_name st = leader /\
  (branch_name st = ""
   \/ branch_name st = _build_branch_name team leader).

(** The results are written without an exception. *)
Definition results_written : AgentState -> option string := fun _ => None.

(** * Properties *)

(** ** Sanity checks of the primitives on concrete inputs *)

Example round_half_even_examples :
  Py.round_half_even (5 # 2) = 2 /\ Py.round_half_even (7 # 2) = 4 /\
  Py.round_half_even (-5 # 2) = -2 /\ Py.round_half_even (249 # 100) = 2.
Proof. repeat split; reflexivity. Qed.

Example strip_example :
  Str.strip (String Str.tab " a b " +++ String Str.lf "") = "a b".
Proof. reflexivity. Qed.

Example splitlines_example :
  Str.splitlines ("a" +++ String Str.cr (String Str.lf "b" +++ String Str.lf "c"))
  = ["a" +++ String Str.cr (String Str.lf ""); "b" +++ String Str.lf ""; "c"].
Proof. reflexivity. Qed.

Example split_first_example :
  Str.split_first "--" "ab--cd--e" = Some ("ab", "cd--e").
Proof. reflexivity. Qed.

Example slice_examples :
  Slice.get [1; 2; 3; 4; 5] 1 3 = [2; 3] /\
  Slice.get [1; 2; 3; 4; 5] 0 (-1) = [1; 2; 3; 4] /\
  Slice.assign [1; 2; 3; 4; 5] 1 3 [9] = [1; 9; 4; 5] /\
  Slice.assign [1; 2; 3; 4; 5] 3 1 [9] = [1; 2; 3; 9; 4; 5].
Proof. repeat split; reflexivity. Qed.

(** ** The score step (score_agent.py) *)

Lemma str_eq_spec (a b : string) : reflect (a = b) (str_eq a b).
Proof. apply String.eqb_spec. Qed.

Lemma str_eq_refl (a : string) : str_eq a a = true.
Proof. apply String.eqb_refl. Qed.

Lemma count_applied_bounds (fs : list FixRecord) :
  0 <= count_applied fs <= Z.of_nat (length fs).
Proof.
  unfold count_applied. split; [lia|].
  apply inj_le, List.filter_length_le.
Qed.

Lemma max0_Zmax (x : Z) : Py.max0 x = Z.max 0 x.
Proof. unfold Py.max0. destruct (Z.ltb_spec 0 x); lia. Qed.

Lemma score_agent_score (st : AgentState) :
  score (score_agent st) = Score.breakdown st.
Proof. reflexivity. Qed.

Lemma score_agent_status (st : AgentState) :
  status (score_agent st) =
  if Py.qge (Score.total st) 50 then "success" else "partial".
Proof. reflexivity. Qed.

(** The two worked examples of the specification. *)
Example score_clean_run :
  let b := score (score_agent (set_cicd_status "success" (demo_state 5))) in
  (base_score b == 100 /\ speed_bonus b == 10 /\ efficiency_penalty b = 0%Z
   /\ total_score b == 110)%Q.
Proof. vm_compute. repeat split; reflexivity. Qed.

Example score_worked_example :
  let b := score (score_agent worked_example_state) in
  (Score.tests_score worked_example_state == 20 /\ fix_quality_score b == 20
   /\ ci_success_bonus b == 0 /\ base_score b == 40 /\ speed_bonus b == 0
   /\ efficiency_penalty b = 12%Z /\ total_score b == 28)%Q.
Proof. vm_compute. repeat split; reflexivity. Qed.

(** C1.  The score step does not keep the total within the maximum of 110
    that its own description gives.  It reads tests_passed and total_tests
    as it finds them: for the counters of a summary that reports two
    passed tests of one, which is what the test counter stores for such a
    summary, the percentage is 200, the tests component is 80 instead of at
    most 40, the base score 140 instead of at most 100, and the total 150;
    the run is graded "success".  Every value on the way is an integer, so
    floating point computes the same numbers. *)
Theorem score_agent_exceeds_maximum :
  let st := overcounted_state in
  let b := score (score_agent st) in
  _count_tests_in_output "Tests: 2 passed, 1 total" "javascript" = (1, 2) /\
  total_tests st = 1 /\ tests_passed st = 2 /\
  failures st = [] /\ fixes st = [] /\ cicd_status st = "success" /\
  duration_seconds st = 0%Q /\ retry_count st = 0 /\
  (tests_passed_pct b == 200)%Q /\
  (Score.tests_score st == 80)%Q /\
  (fix_quality_score b == 40)%Q /\
  (ci_success_bonus b == 20)%Q /\
  (base_score b == 140)%Q /\
  (speed_bonus b == 10)%Q /\
  efficiency_penalty b = 0 /\
  (total_score b == 150)%Q /\
  ~ (total_score b <= 110)%Q /\
  status (score_agent st) = "success".
Proof.
  vm_compute. repeat (split; [reflexivity|]). split; [|reflexivity].
  intros H. apply H. reflexivity.
Qed.



(** ** The retry edge (orchestrator.py) *)

Lemma step_inv (n n' : node) (st st' : AgentState) :
  step (n, st) (n', st') <->
  exists x, run_node x n st = Ok st' /\ next_node n st' = Some n'.
Proof.
  split.
  - intros H. inversion H; subst. eauto.
  - intros (x & Hrun & Hnext). econstructor; eassumption.
Qed.

Lemma should_retry_cases (st : AgentState) :
  should_retry st =
  if decide (status st = "failed") then "score"
  else if decide (cicd_status st = "success") then "score"
  else if decide (retry_count st >= retry_limit st) then "score"
  else "analyze".
Proof.
  unfold should_retry.
  destruct (str_eq_spec (status st) "failed");
    destruct (str_eq_spec (cicd_status st) "success");
    repeat case_decide; try congruence; try reflexivity;
    rewrite Z.geb_leb; destruct (Z.leb_spec (retry_limit st) (retry_count st));
    try reflexivity; lia.
Qed.

Lemma should_retry_label (st : AgentState) :
  should_retry st = "score" \/ should_retry st = "analyze".
Proof. rewrite should_retry_cases. repeat case_decide; auto. Qed.

(** C2.  After the verify step, the decision follows this order: a state
    whose status is "failed" goes to score; otherwise a state whose CI
    outcome is "success" goes to score; otherwise a state with
    retry_count >= retry_limit goes to score; every other state takes the
    retry path.  The retry path is the node increment_retry, which adds
    exactly one to retry_count, empties the fix list, leaves the rest of the
    state alone, and is followed by analyze. *)
Theorem should_retry_precedence (st : AgentState) :
  (status st = "failed" -> should_retry st = "score") /\
  (status st <> "failed" -> cicd_status st = "success" ->
   should_retry st = "score") /\
  (status st <> "failed" -> cicd_status st <> "success" ->
   retry_count st >= retry_limit st -> should_retry st = "score") /\
  (status st <> "failed" -> cicd_status st <> "success" ->
   retry_count st < retry_limit st -> should_retry st = "analyze") /\
  (should_retry st = "score" -> next_node N_cicd_monitor st = Some N_score) /\
  (should_retry st = "analyze" ->
   next_node N_cicd_monitor st = Some N_increment_retry) /\
  (forall c, step (N_increment_retry, st) c <->
             c = (N_analyze, increment_retry st)) /\
  retry_count (increment_retry st) = retry_count st + 1 /\
  fixes (increment_retry st) = [] /\
  set_fixes (fixes st) (set_retry_count (retry_count st) (increment_retry st))
  = st.
Proof.
  rewrite should_retry_cases.
  repeat split; try (repeat case_decide; intros; congruence || lia).
  - intros H. cbn. rewrite should_retry_cases, H. reflexivity.
  - intros H. cbn. rewrite should_retry_cases, H. reflexivity.
  - destruct c as [n' st']. rewrite step_inv. intros (x & Hrun & Hnext).
    cbn in Hrun, Hnext. congruence.
  - intros ->. apply step_inv. exists quiet_externals. split; reflexivity.
  - destruct st; reflexivity.
Qed.

Lemma should_retry_precedence_witness :
  should_retry (demo_state 5) = "analyze" /\
  should_retry (set_status "failed" (demo_state 5)) = "score" /\
  should_retry (set_cicd_status "success" (demo_state 5)) = "score" /\
  should_retry (demo_state 0) = "score" /\
  next_node N_cicd_monitor (demo_state 5) = Some N_increment_retry /\
  next_node N_cicd_monitor (demo_state 0) = Some N_score.
Proof.
  destruct (should_retry_precedence (demo_state 5))
    as (_ & _ & _ & Hretry & _ & Hto_incr & _).
  destruct (should_retry_precedence (set_status "failed" (demo_state 5)))
    as (Hfailed & _).
  destruct (should_retry_precedence
              (set_cicd_status "success" (demo_state 5)))
    as (_ & Hsuccess & _).
  destruct (should_retry_precedence (demo_state 0))
    as (_ & _ & Hspent & _ & Hto_score & _).
  split; [|split; [|split; [|split; [|split]]]].
  - apply Hretry; [discriminate | discriminate | reflexivity].
  - apply Hfailed. reflexivity.
  - apply Hsuccess; [discriminate | reflexivity].
  - apply Hspent; [discriminate | discriminate | discriminate].
  - apply Hto_incr. reflexivity.
  - apply Hto_score. reflexivity.
Defined.

(** ** Deduplication of failures (analyze_agent.py) *)

Section Dedup.

Implicit Types (fs acc : list FailureEvent) (f : FailureEvent).
Implicit Types (seen : gset (string * string * Z)).

Lemma fresh_after_add (k k0 : string * string * Z) seen :
  (k ∉ {[k0]} ∪ seen) <-> (k <> k0 /\ (k ∉ seen)).
Proof. by rewrite not_elem_of_union, not_elem_of_singleton. Qed.

Lemma dedup_loop_keep fs : forall seen acc,
  dedup_loop fs seen acc = acc ++ keep_unseen fs seen.
Proof.
  induction fs as [|f rest IH]; intros seen acc; cbn.
  - by rewrite app_nil_r.
  - case_decide; rewrite IH; [done|]. by rewrite <- app_assoc.
Qed.

Lemma dedup_keep fs : dedup fs = keep_unseen fs ∅.
Proof. unfold dedup. by rewrite dedup_loop_keep. Qed.

Lemma keep_unseen_fresh fs : forall seen f,
  f ∈ keep_unseen fs seen -> failure_key f ∉ seen.
Proof.
  induction fs as [|f0 rest IH]; intros seen f; cbn.
  - by intros ?%elem_of_nil.
  - case_decide as Hin.
    + apply IH.
    + intros [->|Hf]%elem_of_cons; [done|].
      apply IH in Hf. by apply fresh_after_add in Hf as [_ Hf].
Qed.

Lemma keep_unseen_NoDup fs : forall seen,
  NoDup (failure_key <$> keep_unseen fs seen).
Proof.
  induction fs as [|f0 rest IH]; intros seen; cbn.
  - constructor.
  - case_decide as Hin; [apply IH|].
    cbn. constructor; [|apply IH].
    intros Hk. apply list_elem_of_fmap_1 in Hk. destruct Hk as (f & Hk & Hf).
    apply keep_unseen_fresh, fresh_after_add in Hf as [Hne _]. congruence.
Qed.

Lemma keep_unseen_sublist fs : forall seen, sublist (keep_unseen fs seen) fs.
Proof.
  induction fs as [|f0 rest IH]; intros seen; cbn.
  - constructor.
  - case_decide.
    + apply sublist_cons, IH.
    + apply sublist_skip, IH.
Qed.

Lemma keep_unseen_covers fs : forall seen f,
  f ∈ fs ->
  failure_key f ∈ seen \/ failure_key f ∈ (failure_key <$> keep_unseen fs seen).
Proof.
  induction fs as [|f0 rest IH]; intros seen f; cbn.
  - by intros ?%elem_of_nil.
  - intros [->|Hf]%elem_of_cons.
    + case_decide; [by left|]. right. cbn. apply elem_of_cons. by left.
    + case_decide as Hin; [by apply IH|].
      destruct (IH ({[failure_key f0]} ∪ seen) f Hf) as [Hs|Hk].
      * apply elem_of_union in Hs as [Hs|Hs]; [|by left].
        right. cbn. apply elem_of_cons. left. by apply elem_of_singleton in Hs.
      * right. cbn. apply elem_of_cons. by right.
Qed.

(** An entry is kept exactly when it sits at a position of the input
    before which its key does not occur. *)
Lemma keep_unseen_first fs : forall seen f,
  f ∈ keep_unseen fs seen <->
  exists l1 l2, fs = l1 ++ f :: l2 /\ (failure_key f ∉ seen)
                /\ (failure_key f ∉ (failure_key <$> l1)).
Proof.
  induction fs as [|f0 rest IH]; intros seen f; cbn.
  - split; [by intros ?%elem_of_nil|].
    intros (l1 & l2 & E & _). by destruct l1.
  - case_decide as Hin.
    + rewrite IH. split.
      * intros (l1 & l2 & -> & Hs & Hl). exists (f0 :: l1), l2.
        split; [done|]. split; [done|]. cbn. rewrite not_elem_of_cons.
        split; [|done]. intros E. rewrite E in Hs. done.
      * intros (l1 & l2 & E & Hs & Hl). destruct l1 as [|f1 l1].
        -- cbn in E. injection E as -> ->. done.
        -- cbn in E. injection E as -> ->. exists l1, l2.
           split; [done|]. split; [done|].
           cbn in Hl. by apply not_elem_of_cons in Hl as [_ Hl].
    + rewrite elem_of_cons, IH. split.
      * intros [->|(l1 & l2 & -> & Hs & Hl)].
        -- exists [], rest. split; [done|]. split; [done|].
           cbn. apply not_elem_of_nil.
        -- exists (f0 :: l1), l2. split; [done|].
           apply fresh_after_add in Hs as [Hne Hs].
           split; [done|]. cbn. by rewrite not_elem_of_cons.
      * intros (l1 & l2 & E & Hs & Hl). destruct l1 as [|f1 l1].
        -- cbn in E. injection E as -> ->. by left.
        -- cbn in E. injection E as -> ->. right. exists l1, l2.
           cbn in Hl. apply not_elem_of_cons in Hl as [Hne Hl].
           split; [done|]. split; [by apply fresh_after_add|done].
Qed.

End Dedup.

Example dedup_example :
  fe_message <$> dedup duplicated_raw = ["E302 first"; "invalid syntax"; "W291"].
Proof. vm_compute. reflexivity. Qed.

Lemma analyze_agent_failures (raw : list FailureEvent) (total passed : Z)
    (st : AgentState) :
  Str.truthy (clone_path st) = true -> status st <> "failed" ->
  failures (analyze_agent (AnalyzeOk raw total passed) st) = dedup raw.
Proof.
  intros Hc Hs. unfold analyze_agent. rewrite Hc.
  destruct (str_eq_spec (status st) "failed"); [done|]. reflexivity.
Qed.

(** C7.  Whatever list the parsers extract from the tool output, the failure
    list the analyze step stores holds no two entries with the same
    (bug_type, file, line); it is the extracted list with later duplicates
    dropped: a subsequence of it, in which every extracted key is
    represented, and whose entries are exactly those that are not preceded
    by an entry with the same key.  When the analysis raises instead, the
    stored list is empty. *)
Theorem analyze_agent_deduplicates (raw : list FailureEvent)
    (total passed : Z) (st : AgentState) :
  Str.truthy (clone_path st) = true -> status st <> "failed" ->
  let out := failures (analyze_agent (AnalyzeOk raw total passed) st) in
  out = dedup raw /\
  NoDup (failure_key <$> out) /\
  sublist out raw /\
  (forall f, f ∈ raw -> failure_key f ∈ (failure_key <$> out)) /\
  (forall f, f ∈ out <->
             exists l1 l2, raw = l1 ++ f :: l2
                           /\ (failure_key f ∉ (failure_key <$> l1))) /\
  (forall error_detail,
      failures (analyze_agent (AnalyzeRaises error_detail) st) = []).
Proof.
  intros Hc Hs. cbn zeta. rewrite analyze_agent_failures by assumption.
  rewrite dedup_keep. split; [done|]. split; [apply keep_unseen_NoDup|].
  split; [apply keep_unseen_sublist|]. split; [|split].
  - intros f Hf. destruct (keep_unseen_covers raw ∅ f Hf) as [H|H]; [|done].
    by apply not_elem_of_empty in H.
  - intros f. rewrite keep_unseen_first. split.
    + intros (l1 & l2 & E & _ & H). eauto.
    + intros (l1 & l2 & E & H). exists l1, l2.
      split; [done|]. split; [apply not_elem_of_empty|done].
  - intros error_detail. unfold analyze_agent. rewrite Hc.
    destruct (str_eq_spec (status st) "failed"); [done|]. reflexivity.
Qed.

Lemma analyze_agent_deduplicates_witness :
  NoDup (failure_key <$>
           failures (analyze_agent (AnalyzeOk duplicated_raw 4 1) cloned_state)).
Proof.
  apply (analyze_agent_deduplicates duplicated_raw 4 1 cloned_state);
    [reflexivity | discriminate].
Defined.

(** ** The indentation rule (fix_agent.py, [_rule_based_fix]) *)

Section Indentation.

Lemma append_cons (c : ascii) (s t : string) :
  String c s +++ t = String c (s +++ t).
Proof. reflexivity. Qed.

Lemma append_empty (t : string) : "" +++ t = t.
Proof. reflexivity. Qed.

Lemma leading_tabs_cons (c : ascii) (t : string) :
  Str.leading_tabs (String c t) =
  if Ascii.eqb c Str.tab
  then let '(n, rest) := Str.leading_tabs t in (S n, rest)
  else (O, String c t).
Proof. reflexivity. Qed.

Lemma leading_tabs_run (n : nat) (rest : string) :
  starts_with_tab rest = false ->
  Str.leading_tabs (Str.replicate n Str.tab +++ rest) = (n, rest).
Proof.
  intros Hrest. induction n as [|n IH].
  - destruct rest as [|c r]; [reflexivity|].
    change (Str.replicate 0 Str.tab +++ String c r) with (String c r).
    rewrite leading_tabs_cons.
    change (starts_with_tab (String c r)) with (Ascii.eqb c Str.tab) in Hrest.
    rewrite Hrest. reflexivity.
  - change (Str.replicate (S n) Str.tab +++ rest)
      with (String Str.tab (Str.replicate n Str.tab +++ rest)).
    rewrite leading_tabs_cons, Ascii.eqb_refl, IH. reflexivity.
Qed.

Lemma mem_append (c : ascii) (s1 s2 : string) :
  Str.mem c (s1 +++ s2) = Str.mem c s1 || Str.mem c s2.
Proof.
  induction s1 as [|d s1 IH]; [reflexivity|].
  rewrite append_cons. cbn [Str.mem]. rewrite IH. apply orb_assoc.
Qed.

Lemma mem_replicate_other (c d : ascii) (n : nat) :
  Ascii.eqb c d = false -> Str.mem c (Str.replicate n d) = false.
Proof.
  intros H. induction n as [|n IH]; cbn [Str.mem Str.replicate];
    [reflexivity|]. by rewrite H, IH.
Qed.

Lemma starts_with_tab_spaces (n : nat) (rest : string) :
  starts_with_tab rest = false ->
  starts_with_tab (Str.replicate n Str.space +++ rest) = false.
Proof. intros H. destruct n; [exact H|reflexivity]. Qed.

Lemma sub_leading_tabs_run (n : nat) (rest : string) :
  starts_with_tab rest = false ->
  Str.sub_leading_tabs (Str.replicate n Str.tab +++ rest)
  = Str.replicate (4 * n) Str.space +++ rest.
Proof.
  intros Hrest. unfold Str.sub_leading_tabs.
  rewrite leading_tabs_run by assumption. destruct n; reflexivity.
Qed.

End Indentation.

Example sub_leading_tabs_example :
  Str.sub_leading_tabs two_tabs_line = "        x = 1" +++ String Str.lf "".
Proof. reflexivity. Qed.

(** C9 as stated fails: only the run of tabs at the start of the line is
    rewritten, so a tab further on stays in the line. *)
Lemma indentation_rule_keeps_inner_tab :
  Str.sub_leading_tabs tab_inside_line
  = "    a" +++ String Str.tab ("b" +++ String Str.lf "")
  /\ Str.mem Str.tab (Str.sub_leading_tabs tab_inside_line) <> false.
Proof. split; [reflexivity|]. vm_compute. discriminate. Qed.

(** C9 (amended).  For a line that is a run of N >= 1 tabs followed by a
    remainder that does not begin with a tab, the indentation rule yields
    4 x N spaces followed by the unchanged remainder; the result does not
    begin with a tab, and it holds a tab exactly when the remainder does.
    This is what [_rule_based_fix] writes at the failing line of an
    INDENTATION failure, leaving the other lines as they are. *)
Theorem indentation_rule_expands_leading_tabs (n : nat) (rest : string) :
  (1 <= n)%nat -> starts_with_tab rest = false ->
  let line := Str.replicate n Str.tab +++ rest in
  let fixed := Str.sub_leading_tabs line in
  fixed = Str.replicate (4 * n) Str.space +++ rest /\
  starts_with_tab fixed = false /\
  Str.mem Str.tab fixed = Str.mem Str.tab rest /\
  (forall (failure : FailureEvent) (code_lines : list string),
      fe_bug_type failure = "INDENTATION" ->
      1 <= fe_line failure ->
      code_lines !! Z.to_nat (fe_line failure - 1) = Some line ->
      _rule_based_fix failure code_lines
      = ("fix indentation to use 4 spaces consistently",
         <[Z.to_nat (fe_line failure - 1) := fixed]> code_lines)).
Proof.
  intros Hn Hrest line fixed. subst fixed line.
  rewrite sub_leading_tabs_run by assumption.
  split; [reflexivity|]. split; [by apply starts_with_tab_spaces|]. split.
  - rewrite mem_append, mem_replicate_other by reflexivity. reflexivity.
  - intros failure code_lines Hbug Hline Hlook.
    unfold _rule_based_fix. rewrite Hbug. cbn [str_eq String.eqb Ascii.eqb].
    pose proof (lookup_lt_Some _ _ _ Hlook) as Hlt.
    destruct (Z.leb_spec 0 (fe_line failure - 1)); [|lia].
    destruct (Z.ltb_spec (fe_line failure - 1) (Z.of_nat (length code_lines)));
      [|lia].
    cbn. f_equal.
    apply list_eq. intros i.
    destruct (decide (i = Z.to_nat (fe_line failure - 1))) as [->|Hne].
    + rewrite list_lookup_alter_eq, list_lookup_insert_eq by assumption.
      rewrite Hlook. cbn. by rewrite sub_leading_tabs_run.
    + by rewrite list_lookup_alter_ne, list_lookup_insert_ne.
Qed.

Lemma indentation_rule_expands_leading_tabs_witness :
  Str.sub_leading_tabs two_tabs_line
  = Str.replicate 8 Str.space +++ ("x = 1" +++ String Str.lf "").
Proof.
  apply (indentation_rule_expands_leading_tabs 2 ("x = 1" +++ String Str.lf ""));
    [lia | reflexivity].
Defined.

(** ** The fix step (fix_agent.py) *)

Example parse_llm_response_example :
  _parse_llm_response
    ("---FIX_DESC--- add the colon " +++
     String Str.lf ("---FIXED_CODE---" +++ String Str.lf ("def f():" +++
     String Str.lf "")))
  = ("add the colon", "def f():").
Proof. reflexivity. Qed.

Example parse_llm_response_no_markers :
  _parse_llm_response "I cannot help with that."
  = ("apply automated fix", "").
Proof. reflexivity. Qed.

Section DelegateFailure.

Lemma rstrip_keeps_visible (c : ascii) (t : string) :
  Str.is_space c = false -> exists t', Str.rstrip (String c t) = String c t'.
Proof.
  intros Hc. cbn [Str.rstrip]. destruct (Str.rstrip t); rewrite ?Hc; eauto.
Qed.

(** What [_call_llm] returns when the call raises parses into a
    description and a code that is never empty. *)
Lemma parse_of_raised_call (exc : string) :
  exists tail,
    _parse_llm_response (_call_llm (DelegateRaises exc))
    = ("rule-based fix applied", String "#" tail)
    /\ String "#" tail = Str.strip ("# LLM error: " +++ exc).
Proof.
  destruct (rstrip_keeps_visible "#" (" LLM error: " +++ exc) eq_refl)
    as [tail Htail].
  exists tail. split; [|symmetry; exact Htail].
  unfold _parse_llm_response, _call_llm.
  change (Str.split_first "---FIX_DESC---"
            ("---FIX_DESC---rule-based fix applied" +++
             String Str.lf ("---FIXED_CODE---# LLM error: " +++ exc)))
    with (Some ("", "rule-based fix applied" +++
                    String Str.lf ("---FIXED_CODE---# LLM error: " +++ exc))).
  change (Str.split_first "---FIXED_CODE---"
            ("---FIX_DESC---rule-based fix applied" +++
             String Str.lf ("---FIXED_CODE---# LLM error: " +++ exc)))
    with (Some ("---FIX_DESC---rule-based fix applied" +++ String Str.lf "",
                "# LLM error: " +++ exc)).
  change (Str.split_first "---FIXED_CODE---"
            ("rule-based fix applied" +++
             String Str.lf ("---FIXED_CODE---# LLM error: " +++ exc)))
    with (Some ("rule-based fix applied" +++ String Str.lf "",
                "# LLM error: " +++ exc)).
  cbv beta iota.
  change (Str.strip ("rule-based fix applied" +++ String Str.lf ""))
    with "rule-based fix applied".
  change (Str.strip ("# LLM error: " +++ exc))
    with (Str.rstrip (String "#" (" LLM error: " +++ exc))).
  rewrite Htail. reflexivity.
Qed.

End DelegateFailure.

Section ApplyFix.

Variables (h : Host) (fs : gmap string entry) (failure : FailureEvent).
Variables (clone_path key content : string).

Let path := resolve h clone_path (fe_file failure).
Let original := Str.lines_lf (Str.universal_newlines content).
Let start := Z.max 0 (fe_line failure - 11).
Let stop := Z.min (Z.of_nat (length original)) (fe_line failure + 10).

Hypothesis Hfile : fs !! path = Some (RegularFile content).

Lemma prefix_sk_truthy :
  String.prefix "sk-" key = true ->
  Str.truthy key && String.prefix "sk-" key = true.
Proof. intros H. rewrite H. destruct key; [discriminate|reflexivity]. Qed.

Lemma apply_fix_reads_original :
  _apply_fix h fs failure clone_path key =
  if Str.truthy key && String.prefix "sk-" key then
    let prompt :=
      {| p_bug_type := fe_bug_type failure; p_file := fe_file failure;
         p_line := fe_line failure; p_message := fe_message failure;
         p_first := start + 1; p_last := stop;
         p_context := Str.join (Slice.get original start stop) |} in
    let '(fix_desc, fixed_code) :=
      _parse_llm_response (_call_llm (delegate h prompt key)) in
    if Str.truthy fixed_code then
      match _write_file_lines h fs path
              (Slice.assign original start stop (Str.splitlines fixed_code))
      with
      | Ok fs' => Ok (fix_record failure fix_desc fixed_code "applied", fs')
      | Raise exc =>
          Ok (fix_record failure ("LLM fix write error: " +++ exc) ""
                "failed", fs)
      end
    else Ok (rule_based_branch h fs failure path original)
  else Ok (rule_based_branch h fs failure path original).
Proof.
  unfold _apply_fix. fold path. unfold path_exists. rewrite Hfile.
  cbn [negb]. unfold _read_file_lines. rewrite Hfile. reflexivity.
Qed.

(** Without a well-formed credential the rule table decides. *)
Lemma apply_fix_without_credential :
  String.prefix "sk-" key = false ->
  _apply_fix h fs failure clone_path key
  = Ok (rule_based_branch h fs failure path original).
Proof.
  intros Hk. rewrite apply_fix_reads_original, Hk, andb_false_r. reflexivity.
Qed.

(** A reply without the code marker is no usable response: the rule table
    decides. *)
Lemma apply_fix_reply_without_code (reply : string) :
  String.prefix "sk-" key = true ->
  (forall p, delegate h p key = DelegateReply reply) ->
  Str.split_first "---FIXED_CODE---" reply = None ->
  _apply_fix h fs failure clone_path key
  = Ok (rule_based_branch h fs failure path original).
Proof.
  intros Hk Hd Hr. rewrite apply_fix_reads_original, prefix_sk_truthy by done.
  cbv zeta. rewrite Hd. unfold _parse_llm_response, _call_llm. rewrite Hr.
  reflexivity.
Qed.

(** A call that raises is not treated that way: the text of the exception
    comes back as code, replaces the context window and is written. *)
Lemma apply_fix_when_call_raises (exc : string) :
  String.prefix "sk-" key = true ->
  (forall p, delegate h p key = DelegateRaises exc) ->
  write_error h path = None ->
  let code := Str.strip ("# LLM error: " +++ exc) in
  Str.truthy code = true /\
  _apply_fix h fs failure clone_path key
  = Ok (fix_record failure "rule-based fix applied" code "applied",
        <[path := RegularFile
                    (Str.join (Slice.assign original start stop
                                 (Str.splitlines code)))]> fs).
Proof.
  intros Hk Hd Hw code. subst code.
  destruct (parse_of_raised_call exc) as (tail & Hparse & Htail).
  rewrite <- Htail. split; [reflexivity|].
  rewrite apply_fix_reads_original, prefix_sk_truthy by done.
  cbv zeta. rewrite Hd, Hparse. cbn [Str.truthy].
  unfold _write_file_lines. rewrite Hw. reflexivity.
Qed.

End ApplyFix.

(** C5, at a concrete failure.  The file a.py exists, the credential is
    well formed and the completion service cannot be reached.  The fix
    synthesizer does not fall through to the rule table: it reports the fix
    as applied and writes the text of the error over the window, so the two
    lines of the file are replaced by one comment.  With no credential the
    rule table runs and turns the leading tab of line 2 into four spaces. *)
Theorem delegate_failure_overwrites_context_window :
  (exists fs',
      _apply_fix unreachable_host demo_tree indentation_failure
        "/repo" "sk-test"
      = Ok (fix_record indentation_failure "rule-based fix applied"
              "# LLM error: Connection error." "applied", fs')
      /\ fs' !! "/repo/a.py"
         = Some (RegularFile "# LLM error: Connection error.")) /\
  (exists fs',
      _apply_fix unreachable_host demo_tree indentation_failure "/repo" ""
      = Ok (fix_record indentation_failure
              "fix indentation to use 4 spaces consistently"
              ("def f():" +++ String Str.lf ("    return 1" +++ String Str.lf ""))
              "applied", fs')
      /\ fs' !! "/repo/a.py"
         = Some (RegularFile
                   ("def f():" +++
                    String Str.lf ("    return 1" +++ String Str.lf "")))).
Proof.
  split.
  - destruct (apply_fix_when_call_raises unreachable_host demo_tree
                indentation_failure "/repo" "sk-test" demo_source eq_refl
                "Connection error." eq_refl (fun _ => eq_refl) eq_refl)
      as [_ Heq].
    eexists. split; [exact Heq|]. rewrite lookup_insert_eq. reflexivity.
  - eexists. split.
    + rewrite (apply_fix_without_credential unreachable_host demo_tree
                 indentation_failure "/repo" "" demo_source eq_refl eq_refl).
      reflexivity.
    + rewrite lookup_insert_eq. reflexivity.
Qed.

Section FixAgent.

Lemma apply_fix_one_record h fs failure clone_path key r fs' :
  _apply_fix h fs failure clone_path key = Ok (r, fs') ->
  fix_key r = failure_key failure.
Proof.
  unfold _apply_fix. set (p := if path_exists fs _ then _ else _).
  destruct (negb (path_exists fs p)); [by intros [= <- <-]|].
  destruct (_read_file_lines fs p) as [original|exc]; [|discriminate].
  cbn [bind].
  assert (Hrule : forall x,
    Ok (rule_based_branch h fs failure p original) = Ok (r, fs') ->
    x = fix_key r -> x = failure_key failure).
  { intros x. unfold rule_based_branch.
    destruct (_rule_based_fix failure original) as [desc fixed].
    destruct (_write_file_lines h fs p fixed); intros [= <- <-] ->; reflexivity. }
  destruct (Str.truthy key && String.prefix "sk-" key); [|by eauto].
  cbv zeta. destruct (_parse_llm_response _) as [desc code].
  destruct (Str.truthy code); [|by eauto].
  destruct (_write_file_lines h fs p _); by intros [= <- <-].
Qed.

Lemma fix_loop_keys hosts clone_path key todo : forall k fs acc out fs',
  fix_loop hosts k fs todo clone_path key acc = Ok (out, fs') ->
  exists new, out = acc ++ new /\ fix_key <$> new = failure_key <$> todo.
Proof.
  induction todo as [|failure rest IH]; intros k fs acc out fs';
    cbn [fix_loop].
  - intros [= <- <-]. exists []. by rewrite app_nil_r.
  - destruct (_apply_fix _ _ _ _ _) as [[r fs1]|exc] eqn:E; [|discriminate].
    cbn [bind fst snd]. intros (new & -> & Hkeys)%IH.
    exists (r :: new). rewrite <- app_assoc. split; [reflexivity|].
    cbn. by rewrite (apply_fix_one_record _ _ _ _ _ _ _ E), Hkeys.
Qed.

(** The read of [_apply_fix] is the one step of it that no handler guards:
    a path that exists and cannot be read ends the call with the exception
    of the read. *)
Lemma apply_fix_raises_on_unreadable_path h fs failure clone_path key exc :
  fs !! resolve h clone_path (fe_file failure) = Some (Unreadable exc)
  \/ (fs !! resolve h clone_path (fe_file failure) = None
      /\ exists c more,
           rglob_name h clone_path (fe_file failure) = c :: more
           /\ fs !! c = Some (Unreadable exc)) ->
  _apply_fix h fs failure clone_path key = Raise exc.
Proof.
  unfold _apply_fix, path_exists, _read_file_lines.
  intros [H|(H & c & more & Hc & Hu)].
  - rewrite H. cbn [negb]. rewrite H. reflexivity.
  - rewrite H, Hc, Hu. cbn [negb]. reflexivity.
Qed.

End FixAgent.

(** C8.  The fix step does not yield a record for every failure.  The file
    of a failure is read without a handler, unlike the writes after it: when
    the path of the first failure, or the first path found for its name
    under the clone, exists and cannot be read (a directory, for one), the
    step raises the exception of the read and returns no record at all,
    and the run ends there.  Only when the step returns does its fix list
    have the length of the failure list, with the bug_type, file and line
    of the failure at each position. *)
Theorem fix_agent_raises_on_unreadable_path (hosts : nat -> Host)
    (fs : gmap string entry) (st : AgentState) :
  (1 <= length (failures st))%nat -> status st <> "failed" ->
  (forall failure rest exc,
      failures st = failure :: rest ->
      fs !! resolve (hosts 0%nat) (clone_path st) (fe_file failure)
      = Some (Unreadable exc)
      \/ (fs !! resolve (hosts 0%nat) (clone_path st) (fe_file failure) = None
          /\ exists c more,
               rglob_name (hosts 0%nat) (clone_path st) (fe_file failure)
               = c :: more
               /\ fs !! c = Some (Unreadable exc)) ->
      fix_agent hosts fs st = Raise exc) /\
  (forall st' fs',
      fix_agent hosts fs st = Ok (st', fs') ->
      length (fixes st') = length (failures st) /\
      (forall i failure,
          failures st !! i = Some failure ->
          exists r, fixes st' !! i = Some r
                    /\ fx_bug_type r = fe_bug_type failure
                    /\ fx_file r = fe_file failure
                    /\ fx_line r = fe_line failure) /\
      failures st' = failures st).
Proof.
  intros Hlen Hstatus. split.
  - intros failure rest exc Hfail Hpath. unfold fix_agent. rewrite Hfail.
    destruct (str_eq_spec (status st) "failed"); [done|].
    cbn [fix_loop].
    rewrite (apply_fix_raises_on_unreadable_path _ _ _ _ _ exc Hpath).
    reflexivity.
  - intros st' fs'. unfold fix_agent.
    destruct (failures st) as [|f0 rest] eqn:Hfail; [cbn in Hlen; lia|].
    destruct (str_eq_spec (status st) "failed"); [done|].
    destruct (fix_loop _ _ _ _ _ _ _) as [[out fs1]|exc] eqn:Hloop;
      [|discriminate].
    cbn [bind fst snd]. intros [= <- <-].
    apply fix_loop_keys in Hloop as (new & -> & Hkeys).
    cbn [fixes failures set_cicd_timeline set_fixes app].
    assert (Hl : length new = length (f0 :: rest)).
    { rewrite <- (length_fmap fix_key new), Hkeys. apply length_fmap. }
    split; [exact Hl|]. split; [|exact Hfail].
    intros i failure Hi.
    destruct (new !! i) as [r|] eqn:Hr.
    + exists r. split; [reflexivity|].
      assert (Hk : fix_key r = failure_key failure).
      { assert (H1 : (fix_key <$> new) !! i = Some (fix_key r))
          by (rewrite list_lookup_fmap, Hr; reflexivity).
        rewrite Hkeys, list_lookup_fmap, Hi in H1. cbn in H1. congruence. }
      unfold fix_key, failure_key in Hk. by injection Hk.
    + apply lookup_ge_None in Hr. apply lookup_lt_Some in Hi. lia.
Qed.

Lemma fix_agent_raises_on_unreadable_path_witness :
  fix_agent (fun _ => quiet_host) directory_tree two_failures_state
  = Raise "IsADirectoryError".
Proof.
  destruct (fix_agent_raises_on_unreadable_path (fun _ => quiet_host)
              directory_tree two_failures_state) as [H _].
  - cbn. lia.
  - discriminate.
  - eapply H; [reflexivity|]. left. reflexivity.
Defined.

(** The same with a name that is searched for: lib/big.js is not there, and
    the first path with that name under the clone is the directory of a
    package. *)
Example fix_agent_raises_on_package_directory :
  fix_agent (fun _ => package_host) package_tree package_failure_state
  = Raise "IsADirectoryError".
Proof. reflexivity. Qed.

(** With the same failures on a tree where a.py is a file, the step returns
    its two records: the first applied, the second for a file that is not
    found. *)
Example fix_agent_returns_on_files :
  exists st' fs',
    fix_agent (fun _ => quiet_host) demo_tree two_failures_state = Ok (st', fs')
    /\ fx_status <$> fixes st' = ["applied"; "failed"].
Proof. eexists _, _. split; reflexivity. Qed.

(** ** The graph (orchestrator.py) *)

Section Preservation.

(** The control fields that each node leaves alone. *)

Lemma clone_agent_retry o st :
  retry_count (clone_agent o st) = retry_count st
  /\ retry_limit (clone_agent o st) = retry_limit st.
Proof. destruct o; split; reflexivity. Qed.

Lemma analyze_agent_control o st :
  retry_count (analyze_agent o st) = retry_count st
  /\ retry_limit (analyze_agent o st) = retry_limit st
  /\ status (analyze_agent o st) = status st.
Proof.
  unfold analyze_agent.
  destruct (negb (Str.truthy (clone_path st)) || str_eq (status st) "failed");
    [done|]. destruct o; done.
Qed.

Lemma fix_agent_control hosts fs st st' fs' :
  fix_agent hosts fs st = Ok (st', fs') ->
  retry_count st' = retry_count st /\ retry_limit st' = retry_limit st
  /\ status st' = status st.
Proof.
  unfold fix_agent. destruct (failures st); [by intros [= <- <-]|].
  destruct (str_eq (status st) "failed"); [by intros [= <- <-]|].
  destruct (fix_loop _ _ _ _ _ _ _) as [r|exc]; [|discriminate].
  cbn [bind]. by intros [= <- <-].
Qed.

Lemma git_agent_control o st :
  retry_count (git_agent o st) = retry_count st
  /\ retry_limit (git_agent o st) = retry_limit st
  /\ status (git_agent o st) = status st.
Proof.
  unfold git_agent.
  destruct (negb (Str.truthy (clone_path st)) || str_eq (status st) "failed");
    [done|]. destruct o; done.
Qed.

Lemma cicd_agent_control svc st :
  retry_count (cicd_agent svc st) = retry_count st
  /\ retry_limit (cicd_agent svc st) = retry_limit st
  /\ status (cicd_agent svc st) = status st.
Proof.
  unfold cicd_agent.
  destruct (negb (Str.truthy (github_token st))
            || negb (Str.truthy (commit_sha st))); [done|].
  destruct (repo_of_url svc (repo_url st)); [|done].
  destruct (latest_workflow_run svc) as [[id|]|]; try done.
  destruct (Str.truthy id); [|done].
  destruct (poll svc max_polls 0 "" _); done.
Qed.

Lemma run_node_retry x n st st' :
  run_node x n st = Ok st' ->
  retry_limit st' = retry_limit st /\
  retry_count st' =
    match n with N_increment_retry => retry_count st + 1 | _ => retry_count st end.
Proof.
  destruct n; cbn [run_node].
  - intros [= <-]. destruct (clone_agent_retry (x_clone x) st). done.
  - intros [= <-]. destruct (analyze_agent_control (x_analyze x) st) as (?&?&?).
    done.
  - destruct (fix_agent _ _ st) as [[s fs']|exc] eqn:E; [|discriminate].
    cbn. intros [= <-]. apply fix_agent_control in E as (?&?&?). done.
  - intros [= <-]. destruct (git_agent_control (x_git x) st) as (?&?&?). done.
  - intros [= <-]. destruct (cicd_agent_control (x_ci x) st) as (?&?&?). done.
  - by intros [= <-].
  - by intros [= <-].
  - by intros [= <-].
Qed.

Lemma one_cycle_control x st st' :
  one_cycle x st = Ok st' ->
  retry_count st' = retry_count st /\ retry_limit st' = retry_limit st
  /\ status st' = status st.
Proof.
  unfold one_cycle. cbn [run_node].
  destruct (fix_agent _ _ _) as [[s fs']|exc] eqn:E; [|discriminate].
  cbn. intros [= <-]. apply fix_agent_control in E as (E1 & E2 & E3).
  destruct (analyze_agent_control (x_analyze x) st) as (A1 & A2 & A3).
  destruct (git_agent_control (x_git x) s) as (G1 & G2 & G3).
  destruct (cicd_agent_control (x_ci x) (git_agent (x_git x) s))
    as (C1 & C2 & C3).
  repeat split; congruence.
Qed.

End Preservation.

Section RetryBudget.


Lemma retry_edge_below_limit st :
  next_node N_cicd_monitor st = Some N_increment_retry ->
  retry_count st < retry_limit st.
Proof.
  cbn [next_node]. rewrite should_retry_cases.
  repeat case_decide; cbn; try discriminate. lia.
Qed.

End RetryBudget.

Section Driver.

Variable env : nat -> Externals.

Lemma one_cycle_unfold c st e :
  one_cycle (env c) st = Ok e ->
  exists s fs',
    fix_agent (x_hosts (env c)) (x_tree (env c))
      (analyze_agent (x_analyze (env c)) st) = Ok (s, fs')
    /\ e = cicd_agent (x_ci (env c)) (git_agent (x_git (env c)) s).
Proof.
  unfold one_cycle. cbn [run_node].
  destruct (fix_agent _ _ _) as [[s fs']|exc]; [|discriminate].
  cbn. intros [= <-]. eauto.
Qed.

(** A cycle that ends with the label "analyze" costs five nodes and leads
    to the next cycle. *)
Lemma invoke_retry fuel c st e :
  one_cycle (env c) st = Ok e -> should_retry e = "analyze" ->
  invoke env (S (S (S (S (S fuel))))) c N_analyze st
  = invoke env fuel (S c) N_analyze (increment_retry e).
Proof.
  intros (s & fs' & Hfix & ->)%one_cycle_unfold Hlabel.
  cbn [invoke run_node next_node]. rewrite Hfix. cbn [bind fst].
  rewrite Hlabel. cbn [retry_path_map str_eq String.eqb Ascii.eqb Bool.eqb].
  destruct fuel; reflexivity.
Qed.

(** A cycle that ends with the label "score" costs four nodes and the
    score node. *)
Lemma invoke_score fuel c st e :
  one_cycle (env c) st = Ok e -> should_retry e = "score" ->
  invoke env (S (S (S (S (S fuel))))) c N_analyze st
  = Some (Ok (score_agent e)).
Proof.
  intros (s & fs' & Hfix & ->)%one_cycle_unfold Hlabel.
  cbn [invoke run_node next_node]. rewrite Hfix. cbn [bind fst].
  rewrite Hlabel. reflexivity.
Qed.

Lemma cycle_path c st e n' :
  one_cycle (env c) st = Ok e ->
  next_node N_cicd_monitor e = Some n' ->
  rtc step (N_analyze, st) (n', e).
Proof.
  intros (s & fs' & Hfix & ->)%one_cycle_unfold Hnext.
  eapply rtc_l; [apply (step_node (env c)); reflexivity|].
  eapply rtc_l.
  { apply (step_node (env c) N_fix _ s); [|reflexivity].
    cbn [run_node]. rewrite Hfix. reflexivity. }
  eapply rtc_l; [apply (step_node (env c)); reflexivity|].
  apply rtc_once. apply (step_node (env c)); [reflexivity|exact Hnext].
Qed.

(** The retry loop: when [m] retries remain and none of the cycles ahead
    reports success, the run retries [m] times and reaches score with the
    whole budget spent. *)
Lemma retry_loop : forall (m c : nat) (st : AgentState),
  status st <> "failed" ->
  retry_count st + Z.of_nat m = retry_limit st ->
  (forall k, (k <= m)%nat ->
             exists e, cycles env c st k = Ok e /\ cicd_status e <> "success") ->
  exists e,
    cycles env c st m = Ok e
    /\ retry_count e = retry_limit st
    /\ retry_limit e = retry_limit st
    /\ (forall fuel, (5 * m + 5 <= fuel)%nat ->
          invoke env fuel c N_analyze st = Some (Ok (score_agent e)))
    /\ rtc step (N_analyze, st) (N_score, e).
Proof.
  induction m as [|m IH]; intros c st Hst Hrc Hfail.
  - destruct (Hfail 0%nat (le_n _)) as (e & He & Hci). cbn [cycles] in He.
    destruct (one_cycle_control _ _ _ He) as (E1 & E2 & E3).
    assert (Hlabel : should_retry e = "score").
    { rewrite should_retry_cases. repeat case_decide; try done. lia. }
    exists e. split; [exact He|]. split; [lia|]. split; [done|]. split.
    + intros fuel Hfuel. do 5 (destruct fuel as [|fuel]; [lia|]).
      apply invoke_score; assumption.
    + eapply cycle_path; [eassumption|]. cbn [next_node].
      rewrite Hlabel. reflexivity.
  - destruct (Hfail 0%nat (Nat.le_0_l _)) as (e & He & Hci).
    cbn [cycles] in He.
    destruct (one_cycle_control _ _ _ He) as (E1 & E2 & E3).
    assert (Hlabel : should_retry e = "analyze").
    { rewrite should_retry_cases. repeat case_decide; try done; try lia.
      congruence. }
    destruct (IH (S c) (increment_retry e)) as (e' & He' & R1 & R2 & R3 & R4).
    + cbn. congruence.
    + cbn. lia.
    + intros k Hk. destruct (Hfail (S k) ltac:(lia)) as (ek & Hek & Hcik).
      cbn [cycles] in Hek. rewrite He in Hek. cbn [bind] in Hek. eauto.
    + exists e'. cbn [cycles]. rewrite He. cbn [bind].
      cbn [increment_retry retry_limit set_fixes set_retry_count] in R1, R2.
      split; [exact He'|]. split; [congruence|]. split; [congruence|]. split.
      * intros fuel Hfuel. do 5 (destruct fuel as [|fuel]; [lia|]).
        rewrite (invoke_retry _ _ _ e) by assumption. apply R3. lia.
      * eapply rtc_trans.
        { eapply cycle_path; [eassumption|]. cbn [next_node].
          rewrite Hlabel. reflexivity. }
        eapply rtc_l; [|exact R4].
        apply (step_node (env c)); reflexivity.
Qed.

(** A cycle that the limit lets run, and no node after it. *)
Lemma invoke_cycle_cut c st e :
  one_cycle (env c) st = Ok e -> invoke env 4 c N_analyze st = None.
Proof.
  intros (s & fs' & Hfix & ->)%one_cycle_unfold.
  cbn [invoke run_node next_node]. rewrite Hfix. cbn [bind fst].
  destruct (should_retry_label (cicd_agent (x_ci (env c))
                                  (git_agent (x_git (env c)) s))) as [H|H];
    rewrite H; reflexivity.
Qed.

(** The retry loop under a limit: with a budget of [m] retries or more and
    no cycle that reports success, [5 * m + 4] nodes are used up by [m]
    retries and the four nodes of one more cycle; the run has not ended. *)
Lemma retry_loop_cut : forall (m c : nat) (st : AgentState),
  status st <> "failed" ->
  retry_count st + Z.of_nat m <= retry_limit st ->
  (forall k, (k <= m)%nat ->
             exists e, cycles env c st k = Ok e /\ cicd_status e <> "success") ->
  invoke env (5 * m + 4) c N_analyze st = None
  /\ exists e, cycles env c st m = Ok e
               /\ retry_count e = retry_count st + Z.of_nat m.
Proof.
  induction m as [|m IH]; intros c st Hst Hrc Hfail.
  - destruct (Hfail 0%nat (le_n _)) as (e & He & Hci). cbn [cycles] in He.
    destruct (one_cycle_control _ _ _ He) as (E1 & E2 & E3).
    split; [by eapply invoke_cycle_cut|].
    exists e. split; [exact He|]. lia.
  - destruct (Hfail 0%nat (Nat.le_0_l _)) as (e & He & Hci).
    cbn [cycles] in He.
    destruct (one_cycle_control _ _ _ He) as (E1 & E2 & E3).
    assert (Hlabel : should_retry e = "analyze").
    { rewrite should_retry_cases. repeat case_decide; try done; try lia.
      congruence. }
    destruct (IH (S c) (increment_retry e)) as (Hcut & e' & He' & Hrc').
    + cbn. congruence.
    + cbn. lia.
    + intros k Hk. destruct (Hfail (S k) ltac:(lia)) as (ek & Hek & Hcik).
      cbn [cycles] in Hek. rewrite He in Hek. cbn [bind] in Hek. eauto.
    + split.
      * replace (5 * S m + 4)%nat with (S (S (S (S (S (5 * m + 4))))))
          by lia.
        rewrite (invoke_retry _ _ _ e) by assumption. exact Hcut.
      * exists e'. cbn [cycles]. rewrite He. cbn [bind].
        split; [exact He'|]. cbn in Hrc'. lia.
Qed.

End Driver.

(** Two edges of the budget.  Nothing keeps retry_limit from being
    negative, and then the initial state is already beyond it.  And a run
    whose clone failed goes to score after its first cycle, although the
    monitor reported a failure and the budget is unspent. *)
Remark retry_budget_edges :
  ~ (forall c, rtc step (N_clone, demo_state (-1)) c ->
               retry_count (snd c) <= retry_limit (snd c)) /\
  (exists e,
      cycle_end (fun _ => quiet_externals) (demo_state 5) 0 = Ok e
      /\ cicd_status e = "failure"
      /\ rtc step (N_clone, demo_state 5) (N_score, e)
      /\ retry_count e = 0 /\ retry_limit e = 5).
Proof.
  split.
  - intros H. specialize (H (N_clone, demo_state (-1)) (rtc_refl _ _)).
    change (0 <= -1) in H. lia.
  - set (failed := clone_agent (CloneRaises "unreachable") (demo_state 5)).
    exists (cicd_agent quiet_ci failed).
    assert (Hcycle : one_cycle quiet_externals failed
                     = Ok (cicd_agent quiet_ci failed))
      by (vm_compute; reflexivity).
    split; [exact Hcycle|]. split; [reflexivity|].
    split; [|split; reflexivity].
    apply (rtc_l _ _ (N_analyze, failed)).
    { apply (step_node quiet_externals); reflexivity. }
    apply (cycle_path (fun _ => quiet_externals) 0%nat _ _ _ Hcycle).
    reflexivity.
Qed.

(** C6.  A run cannot spend a retry budget of four or more.  The graph is
    invoked under the recursion limit of 25, and a run that retries k times
    executes 6 + 5k nodes.  When the clone succeeds and no cycle ends with
    a CI success: with a budget between 0 and 3 the run gets through all
    its retries and reaches the score node with retry_count equal to
    retry_limit; with a budget of 4 or more, the default of 5 included, it
    is cut off after the monitor of its fifth cycle, with retry_count 4,
    and ends with the recursion error of the library instead of a score. *)
Theorem retry_budget_cut_by_recursion_limit (env : nat -> Externals)
    (clk : RunClock) (repo team leader key token : string) (limit : Z) :
  let st0 := initial_state clk repo team leader key token limit in
  let run := run_pipeline env clk repo team leader key token limit in
  (exists dir lang, x_clone (env 0%nat) = CloneOk dir lang) ->
  (0 <= limit <= 3 ->
   (forall k, (k <= Z.to_nat limit)%nat ->
              exists e, cycle_end env st0 k = Ok e
                        /\ cicd_status e <> "success") ->
   exists e,
     cycle_end env st0 (Z.to_nat limit) = Ok e
     /\ retry_count e = limit
     /\ rtc step (N_clone, st0) (N_score, e)
     /\ run = Some (Ok (set_duration_seconds (Py.round (elapsed clk) 2)
                          (set_finished_at (finish_iso clk) (score_agent e))))) /\
  (4 <= limit ->
   (forall k, (k <= 4)%nat ->
              exists e, cycle_end env st0 k = Ok e
                        /\ cicd_status e <> "success") ->
   run = Some (Raise GraphRecursionError)
   /\ exists e, cycle_end env st0 4 = Ok e /\ retry_count e = 4).
Proof.
  intros st0 run (dir & lang & Hclone).
  assert (Hstart : forall fuel,
    invoke env (S fuel) 0 N_clone st0
    = invoke env fuel 0 N_analyze (clone_agent (CloneOk dir lang) st0)).
  { intros fuel. cbn [invoke run_node next_node]. rewrite Hclone.
    destruct fuel; reflexivity. }
  subst run. unfold run_pipeline, recursion_limit. fold st0.
  rewrite Hstart. unfold cycle_end. rewrite Hclone. split.
  - intros Hlimit Hfail.
    destruct (retry_loop env (Z.to_nat limit) 0
                (clone_agent (CloneOk dir lang) st0))
      as (e & He & R1 & R2 & R3 & R4).
    + discriminate.
    + cbn. lia.
    + exact Hfail.
    + exists e. split; [exact He|]. split; [exact R1|]. split.
      * eapply rtc_l; [|exact R4]. apply (step_node (env 0%nat)); [|reflexivity].
        cbn [run_node]. rewrite Hclone. reflexivity.
      * rewrite R3 by lia. reflexivity.
  - intros Hlimit Hfail.
    destruct (retry_loop_cut env 4 0 (clone_agent (CloneOk dir lang) st0))
      as (Hcut & e & He & Hrc).
    + discriminate.
    + cbn. lia.
    + exact Hfail.
    + change (5 * 4 + 4)%nat with 24%nat in Hcut. rewrite Hcut.
      split; [reflexivity|]. exists e. split; [exact He|]. exact Hrc.
Qed.

Lemma retry_budget_cut_by_recursion_limit_witness :
  run_pipeline (fun _ => clean_externals) demo_clock "https://github.com/o/r"
    "RIFT_TEAM" "LEADER" "" "" 5
  = Some (Raise GraphRecursionError)
  /\ exists final,
       run_pipeline (fun _ => clean_externals) demo_clock
         "https://github.com/o/r" "RIFT_TEAM" "LEADER" "" "" 2
       = Some (Ok final).
Proof.
  split.
  - destruct (retry_budget_cut_by_recursion_limit (fun _ => clean_externals)
                demo_clock "https://github.com/o/r" "RIFT_TEAM" "LEADER" "" ""
                5) as [_ H].
    + eexists _, _. reflexivity.
    + apply H; [lia|]. intros k Hk.
      destruct k as [|[|[|[|[|k]]]]]; [| | | | |lia];
        (vm_compute; eexists; split; [reflexivity|discriminate]).
  - destruct (retry_budget_cut_by_recursion_limit (fun _ => clean_externals)
                demo_clock "https://github.com/o/r" "RIFT_TEAM" "LEADER" "" ""
                2) as [H _].
    + eexists _, _. reflexivity.
    + destruct H as (e & _ & _ & _ & Hrun); [lia| |eexists; exact Hrun].
      intros k Hk. change (k <= 2)%nat in Hk.
      destruct k as [|[|[|k]]]; [| | |lia];
        (vm_compute; eexists; split; [reflexivity|discriminate]).
Defined.

(** The same two runs, evaluated: with the default budget of 5 on a clean
    project and without a CI credential, the step limit ends the run; with
    a budget of 3 the run is scored after three retries. *)
Example default_budget_run :
  run_pipeline (fun _ => clean_externals) demo_clock "https://github.com/o/r"
    "RIFT_TEAM" "LEADER" "" "" 5
  = Some (Raise GraphRecursionError)
  /\ match run_pipeline (fun _ => clean_externals) demo_clock
            "https://github.com/o/r" "RIFT_TEAM" "LEADER" "" "" 3 with
     | Some (Ok final) => retry_count final = 3 /\ status final = "success"
     | _ => False
     end
  /\ invoke (fun _ => clean_externals) 26 0 N_clone (demo_state 4) <> None
  /\ invoke (fun _ => clean_externals) 25 0 N_clone (demo_state 4) = None
  /\ invoke (fun _ => clean_externals) 21 0 N_clone (demo_state 3) <> None.
Proof. vm_compute. repeat split; discriminate. Qed.

(** ** A run whose clone fails *)

Section ShortCircuit.

Variable st : AgentState.

Lemma analyze_agent_failed o : status st = "failed" -> analyze_agent o st = st.
Proof. intros H. unfold analyze_agent. rewrite H, orb_true_r. reflexivity. Qed.

Lemma fix_agent_failed hosts fs :
  status st = "failed" -> fix_agent hosts fs st = Ok (st, fs).
Proof.
  intros H. unfold fix_agent. rewrite H. destruct (failures st); reflexivity.
Qed.

Lemma git_agent_failed o : status st = "failed" -> git_agent o st = st.
Proof. intros H. unfold git_agent. rewrite H, orb_true_r. reflexivity. Qed.

(** The monitor has no such guard.  Without a commit it infers the CI
    outcome from the fixes and logs it, failed state or not. *)
Lemma cicd_agent_inferred svc :
  commit_sha st = "" ->
  let ci_status :=
    if (0 <? count_applied (fixes st)) && (0 <? len_failures st)
    then "success" else "failure" in
  cicd_agent svc st
  = set_cicd_timeline (cicd_timeline st ++ [mk_event "cicd_simulated" ci_status])
      (set_cicd_status ci_status st).
Proof.
  intros H. unfold cicd_agent. rewrite H. cbn [Str.truthy negb].
  rewrite orb_true_r. reflexivity.
Qed.

Lemma should_retry_failed : status st = "failed" -> should_retry st = "score".
Proof. intros H. unfold should_retry. rewrite H. reflexivity. Qed.

(** The score step grades untouched counters with full marks. *)
Lemma score_agent_untouched_counters :
  total_tests st = 0 -> failures st = [] -> duration_seconds st = 0%Q ->
  retry_count st = 0 ->
  status (score_agent st) = "success"
  /\ (total_score (score (score_agent st)) == 110)%Q.
Proof.
  intros Ht Hf Hd Hr. rewrite score_agent_status, score_agent_score.
  cbn [Score.breakdown total_score].
  unfold Score.total, Score.base, Score.tests_score, Score.tests_component,
    Score.fix_quality, Score.ci_bonus, Score.speed, Score.penalty,
    Score.total_commits, len_failures.
  rewrite Ht, Hf, Hd, Hr. cbn [length Z.of_nat Z.ltb Z.eqb Z.compare snd andb].
  destruct (str_eq (cicd_status st) "success"); vm_compute; split; reflexivity.
Qed.

End ShortCircuit.

Section CloneFailure.

Variable env : nat -> Externals.

(** From analyze on, a failed state without failures passes through the
    cycle to the score node. *)
Lemma invoke_failed_state fuel c st :
  status st = "failed" -> commit_sha st = "" ->
  invoke env (S (S (S (S (S fuel))))) c N_analyze st
  = Some (Ok (score_agent (cicd_agent (x_ci (env c)) st)))
  /\ status (cicd_agent (x_ci (env c)) st) = "failed".
Proof.
  intros Hs Hc.
  assert (Hm : status (cicd_agent (x_ci (env c)) st) = "failed").
  { rewrite cicd_agent_inferred by assumption. exact Hs. }
  split; [|exact Hm].
  cbn [invoke run_node next_node].
  rewrite analyze_agent_failed, fix_agent_failed by assumption.
  cbn [bind fst]. rewrite git_agent_failed by assumption.
  rewrite (should_retry_failed _ Hm). reflexivity.
Qed.

Variables (clk : RunClock) (repo team leader key token exc : string).
Variable limit : Z.

Lemma failed_clone_run :
  x_clone (env 0%nat) = CloneRaises exc ->
  exists final,
    run_pipeline env clk repo team leader key token limit = Some (Ok final)
    /\ status final = "success"
    /\ (total_score (score final) == 110)%Q
    /\ retry_count final = 0
    /\ error_message final = Some exc.
Proof.
  intros Hclone. unfold run_pipeline, recursion_limit.
  set (st0 := initial_state clk repo team leader key token limit).
  assert (Hstart : forall fuel,
    invoke env (S fuel) 0 N_clone st0
    = invoke env fuel 0 N_analyze (clone_agent (CloneRaises exc) st0)).
  { intros fuel. cbn [invoke run_node next_node]. rewrite Hclone.
    destruct fuel; reflexivity. }
  rewrite (Hstart 24%nat). clear Hstart.
  generalize (eq_refl : status (clone_agent (CloneRaises exc) st0) = "failed").
  generalize (eq_refl : commit_sha (clone_agent (CloneRaises exc) st0) = "").
  generalize (eq_refl : total_tests (clone_agent (CloneRaises exc) st0) = 0).
  generalize (eq_refl : failures (clone_agent (CloneRaises exc) st0) = []).
  generalize (eq_refl :
    duration_seconds (clone_agent (CloneRaises exc) st0) = 0%Q).
  generalize (eq_refl : retry_count (clone_agent (CloneRaises exc) st0) = 0).
  generalize (eq_refl :
    error_message (clone_agent (CloneRaises exc) st0) = Some exc).
  generalize (clone_agent (CloneRaises exc) st0).
  intros failed He Hr Hd Hf Ht Hc Hs.
  destruct (invoke_failed_state 19 0 failed Hs Hc) as [Hrun _].
  change 24%nat with (S (S (S (S (S 19))))). rewrite Hrun. clear Hrun.
  rewrite (cicd_agent_inferred failed (x_ci (env 0%nat)) Hc). cbv zeta.
  set (monitored := set_cicd_timeline _ _).
  destruct (score_agent_untouched_counters monitored Ht Hf Hd Hr)
    as [Hstatus Htotal].
  eexists. split; [reflexivity|].
  split; [exact Hstatus|]. split; [exact Htotal|]. split; [exact Hr|exact He].
Qed.

End CloneFailure.

(** C3, at a concrete run.  The clone fails.  The status becomes "failed",
    and analyze, fix and git return the state as they receive it; the
    monitor still records an inferred CI failure; and the score step, which
    runs last, replaces the status: the run ends with status "success" and
    a total of 110, not with status "failed". *)
Theorem failed_clone_ends_with_success :
  let failed := clone_agent (CloneRaises "unreachable") (demo_state 5) in
  status failed = "failed" /\
  analyze_agent (x_analyze quiet_externals) failed = failed /\
  run_node quiet_externals N_fix failed = Ok failed /\
  git_agent (x_git quiet_externals) failed = failed /\
  cicd_status (cicd_agent quiet_ci failed) = "failure" /\
  cicd_status failed = "pending" /\
  exists final,
    run_pipeline (fun _ => quiet_externals) demo_clock
      "https://github.com/o/r" "RIFT TEAM" "LEADER" "" "" 5 = Some (Ok final)
    /\ status final = "success"
    /\ (total_score (score final) == 110)%Q.
Proof.
  cbn zeta. split; [reflexivity|].
  split; [apply analyze_agent_failed; reflexivity|].
  split.
  { cbn [run_node]. rewrite fix_agent_failed by reflexivity. reflexivity. }
  split; [apply git_agent_failed; reflexivity|].
  split; [vm_compute; reflexivity|]. split; [reflexivity|].
  destruct (failed_clone_run (fun _ => quiet_externals) demo_clock
              "https://github.com/o/r" "RIFT TEAM" "LEADER" "" "" "unreachable"
              5 eq_refl)
    as (final & Hrun & Hstatus & Htotal & _).
  exists final. split; [exact Hrun|]. split; [exact Hstatus|exact Htotal].
Qed.

(** ** The trigger endpoint (main.py) *)

(** C10.  A trigger is not refused while another run is in flight.  The
    endpoint refuses a trigger only when the shared status reads "running",
    and the status of an accepted run reads "queued" until its background
    task starts.  So a second trigger that arrives in between is accepted
    as well: it resets the shared state and adds a second background task
    beside the first.  Only once one of the tasks has started is a trigger
    refused with 409, with the state left as it was, and by then another
    accepted run is still waiting for its turn. *)
Theorem trigger_accepted_while_run_queued (r1 r2 r3 : RunAgentRequest)
    (srv : Server) :
  ps_status (pipeline_state srv) <> "running" ->
  let srv1 := snd (run_agent r1 srv) in
  let srv2 := snd (run_agent r2 srv1) in
  fst (run_agent r1 srv) = Reply "Pipeline started successfully" "queued" /\
  r1 ∈ background_tasks srv1 /\
  ps_status (pipeline_state srv1) = "queued" /\
  fst (run_agent r2 srv1) = Reply "Pipeline started successfully" "queued" /\
  background_tasks srv2 = background_tasks srv ++ [r1; r2] /\
  (forall i r srv',
      start_task i srv2 = Some (r, srv') ->
      (exists detail, run_agent r3 srv' = (HTTPException 409 detail, srv'))
      /\ length (background_tasks srv')
         = S (length (background_tasks srv))).
Proof.
  intros H. unfold run_agent.
  destruct (str_eq_spec (ps_status (pipeline_state srv)) "running") as [E|E];
    [contradiction|].
  cbn. split; [reflexivity|]. split; [set_solver|]. split; [reflexivity|].
  split; [reflexivity|]. split; [by rewrite <- app_assoc|].
  intros i r srv'. unfold start_task. cbn [background_tasks].
  destruct (((background_tasks srv ++ [r1]) ++ [r2]) !! i) as [r0|] eqn:Hi;
    [|discriminate].
  intros [= <- <-]. cbn. split; [eauto|].
  rewrite length_delete by (by eexists).
  rewrite !length_app. cbn. lia.
Qed.

Lemma trigger_accepted_while_run_queued_witness :
  fst (run_agent demo_request (snd (run_agent demo_request idle_server)))
  = Reply "Pipeline started successfully" "queued"
  /\ background_tasks
       (snd (run_agent demo_request (snd (run_agent demo_request idle_server))))
     = [demo_request; demo_request].
Proof.
  destruct (trigger_accepted_while_run_queued demo_request demo_request
              demo_request idle_server) as (_ & _ & _ & H4 & H5 & _).
  - discriminate.
  - split; [exact H4|exact H5].
Defined.

(** * Further properties of the code *)

(** ** Every run of the graph ends (orchestrator.py) *)

Section RunShape.

Variable env : nat -> Externals.

(** A fix step that raises ends the run with that exception. *)
Lemma invoke_cycle_raises fuel c st exc :
  one_cycle (env c) st = Raise exc ->
  invoke env (S (S fuel)) c N_analyze st = Some (Raise exc).
Proof.
  unfold one_cycle. cbn [invoke run_node next_node].
  destruct (fix_agent _ _ _) as [[s fs']|exc']; cbn [bind]; [discriminate|].
  intros [= ->]. reflexivity.
Qed.


(** More steps do not change the end of a run that has one. *)
Lemma invoke_more_fuel : forall fuel fuel' c n st r,
  invoke env fuel c n st = Some r -> (fuel <= fuel')%nat ->
  invoke env fuel' c n st = Some r.
Proof.
  induction fuel as [|fuel IH]; intros fuel' c n st r; [discriminate|].
  destruct fuel' as [|fuel']; [lia|]. cbn [invoke]. intros H Hle.
  destruct (run_node (env c) n st) as [st'|exc]; [|exact H].
  destruct (next_node n st') as [n'|]; [|exact H].
  destruct n'; try exact H; (eapply IH; [exact H|lia]).
Qed.

(** A run that is scored within [5 * m + 4] nodes from the start of a cycle
    is scored within [5 * m]: the last nodes allowed are the four of a
    cycle, and the score node would come after them. *)
Lemma scored_before_last_cycle : forall (m c : nat) (st final : AgentState),
  invoke env (5 * m + 4) c N_analyze st = Some (Ok final) ->
  invoke env (5 * m) c N_analyze st = Some (Ok final).
Proof.
  induction m as [|m IH]; intros c st final.
  - change (5 * 0 + 4)%nat with 4%nat.
    destruct (one_cycle (env c) st) as [e|exc] eqn:He.
    + rewrite (invoke_cycle_cut env c st e He). discriminate.
    + rewrite (invoke_cycle_raises 2 c st exc He). discriminate.
  - replace (5 * S m + 4)%nat with (S (S (S (S (S (5 * m + 4)))))) by lia.
    replace (5 * S m)%nat with (S (S (S (S (S (5 * m)))))) by lia.
    destruct (one_cycle (env c) st) as [e|exc] eqn:He.
    2:{ rewrite (invoke_cycle_raises _ c st exc He). discriminate. }
    destruct (should_retry_label e) as [Hlabel|Hlabel].
    + rewrite !(invoke_score env _ c st e He Hlabel). done.
    + rewrite !(invoke_retry env _ c st e He Hlabel). apply IH.
Qed.

(** The runs that are scored are the same under every limit from 21 to
    25: a run executes 6 + 5k nodes, never 22 to 25. *)
Remark recursion_limit_slack (limit : nat) (st final : AgentState) :
  (21 <= limit <= 25)%nat ->
  invoke env limit 0 N_clone st = Some (Ok final)
  <-> invoke env recursion_limit 0 N_clone st = Some (Ok final).
Proof.
  intros Hl. split.
  - intros H. apply (invoke_more_fuel _ _ _ _ _ _ H).
    unfold recursion_limit. lia.
  - intros H. apply (invoke_more_fuel 21); [|lia].
    revert H. unfold recursion_limit.
    assert (Hstart : forall fuel,
      invoke env (S fuel) 0 N_clone st
      = invoke env fuel 0 N_analyze (clone_agent (x_clone (env 0%nat)) st)).
    { intros fuel. cbn [invoke run_node next_node].
      destruct fuel; reflexivity. }
    rewrite (Hstart 24%nat), (Hstart 20%nat).
    apply (scored_before_last_cycle 4).
Qed.

(** A property of the states that every node hands on holds of the state
    that enters the score node of a completed run. *)
Lemma invoke_invariant (P : node -> AgentState -> Prop) :
  (forall c n st st' n',
      P n st -> run_node (env c) n st = Ok st' -> next_node n st' = Some n' ->
      P n' st') ->
  forall fuel c n st final,
    n <> N_END -> P n st ->
    invoke env fuel c n st = Some (Ok final) ->
    exists e, P N_score e /\ final = score_agent e.
Proof.
  intros Hstep. induction fuel as [|fuel IH]; intros c n st final Hn HP;
    cbn [invoke]; [discriminate|].
  destruct (run_node (env c) n st) as [st'|exc] eqn:Hrun; [|discriminate].
  destruct (next_node n st') as [n'|] eqn:Hnext.
  2:{ destruct n; cbn in Hnext; try discriminate; [|done].
      destruct (should_retry_label st') as [H|H]; rewrite H in Hnext;
        discriminate. }
  pose proof (Hstep c n st st' n' HP Hrun Hnext) as HP'.
  destruct n'; try (apply IH; [discriminate|exact HP']).
  intros [= <-].
  destruct n; cbn in Hnext; try discriminate.
  - destruct (should_retry_label st) as [H|H]; cbn in Hrun.
    all: injection Hrun as <-.
    all: destruct (should_retry_label (cicd_agent (x_ci (env c)) st)) as [H'|H'];
      rewrite H' in Hnext; discriminate.
  - cbn in Hrun. injection Hrun as <-. exists st. split; [|reflexivity].
    exact HP.
Qed.

End RunShape.

(** ** What the nodes leave alone, and what they only extend *)

Section Frames.

(** The fields a node does not write, and the timeline, which every node
    only extends. *)

Lemma clone_agent_frame o st :
  let st' := clone_agent o st in
  duration_seconds st' = duration_seconds st /\ fixes st' = fixes st /\
  failures st' = failures st /\ total_tests st' = total_tests st /\
  tests_passed st' = tests_passed st /\
  exists k, cicd_timeline st'
            = cicd_timeline st ++ mk_event "clone_started" "running" :: k.
Proof.
  destruct o; cbn; repeat (split; [reflexivity|]); eexists;
    rewrite <- app_assoc; reflexivity.
Qed.

Lemma analyze_agent_frame o st :
  let st' := analyze_agent o st in
  duration_seconds st' = duration_seconds st /\ fixes st' = fixes st /\
  cicd_timeline st `prefix_of` cicd_timeline st' /\
  (tests_passed st' = tests_passed st /\ total_tests st' = total_tests st \/
   match o with
   | AnalyzeOk _ total passed => tests_passed st' = passed /\ total_tests st' = total
   | AnalyzeRaises _ => tests_passed st' = 0 /\ total_tests st' = 0
   end).
Proof.
  unfold analyze_agent.
  destruct (negb (Str.truthy (clone_path st)) || str_eq (status st) "failed").
  - cbn. repeat (split; [reflexivity|]). by left.
  - destruct o; cbn; repeat (split; [reflexivity|]);
      (split; [rewrite <- app_assoc; by eexists|]); by right.
Qed.

Lemma fix_loop_length hosts clone_path key todo : forall k fs acc r fs',
  fix_loop hosts k fs todo clone_path key acc = Ok (r, fs') ->
  length r = (length acc + length todo)%nat.
Proof.
  induction todo as [|failure rest IH]; intros k fs acc r fs'; cbn [fix_loop].
  - intros [= <- <-]. cbn. lia.
  - destruct (_apply_fix _ _ _ _ _) as [[r1 fs1]|exc]; [|discriminate].
    cbn [bind fst snd]. intros H. apply IH in H. rewrite H, length_app.
    cbn. lia.
Qed.

Lemma fix_agent_frame hosts fs st st' fs' :
  fix_agent hosts fs st = Ok (st', fs') ->
  duration_seconds st' = duration_seconds st /\ failures st' = failures st /\
  total_tests st' = total_tests st /\ tests_passed st' = tests_passed st /\
  cicd_timeline st `prefix_of` cicd_timeline st' /\
  (fixes st' = fixes st \/ length (fixes st') = length (failures st)).
Proof.
  unfold fix_agent. destruct (failures st) as [|f0 rest] eqn:Hf.
  { intros [= <- <-]. rewrite Hf. repeat (split; [reflexivity|]). by left. }
  destruct (str_eq (status st) "failed").
  { intros [= <- <-]. rewrite Hf. repeat (split; [reflexivity|]). by left. }
  destruct (fix_loop _ _ _ _ _ _ _) as [[r fs1]|exc] eqn:Hloop; [|discriminate].
  cbn [bind fst snd]. intros [= <- <-]. cbn.
  split; [reflexivity|]. split; [exact Hf|]. split; [reflexivity|].
  split; [reflexivity|]. split; [rewrite <- app_assoc; by eexists|].
  right. apply fix_loop_length in Hloop. exact Hloop.
Qed.

Lemma git_agent_frame o st :
  let st' := git_agent o st in
  duration_seconds st' = duration_seconds st /\ fixes st' = fixes st /\
  failures st' = failures st /\ total_tests st' = total_tests st /\
  tests_passed st' = tests_passed st /\
  cicd_timeline st `prefix_of` cicd_timeline st'.
Proof.
  unfold git_agent.
  destruct (negb (Str.truthy (clone_path st)) || str_eq (status st) "failed");
    [by cbn|].
  destruct o; cbn; repeat (split; [reflexivity|]); rewrite <- app_assoc;
    by eexists.
Qed.

Lemma poll_extends svc n : forall i last timeline,
  timeline `prefix_of` snd (poll svc n i last timeline).
Proof.
  induction n as [|n IH]; intros i last timeline; cbn [poll].
  - cbn. by eexists.
  - destruct (workflow_status svc i) as [[st conclusion]|exc];
      [|cbn; by eexists].
    destruct (negb (str_eq st last)); destruct (str_eq st "completed"); cbn;
      try reflexivity; try (by eexists).
    + etrans; [|apply IH]. by eexists.
    + apply IH.
Qed.

Lemma cicd_agent_frame svc st :
  let st' := cicd_agent svc st in
  duration_seconds st' = duration_seconds st /\ fixes st' = fixes st /\
  failures st' = failures st /\ total_tests st' = total_tests st /\
  tests_passed st' = tests_passed st /\
  cicd_timeline st `prefix_of` cicd_timeline st'.
Proof.
  unfold cicd_agent.
  destruct (negb (Str.truthy (github_token st))
            || negb (Str.truthy (commit_sha st))).
  { cbn. repeat (split; [reflexivity|]). by eexists. }
  destruct (repo_of_url svc (repo_url st)).
  2:{ cbn. repeat (split; [reflexivity|]). by eexists. }
  destruct (latest_workflow_run svc) as [[id|]|].
  - destruct (Str.truthy id).
    + pose proof (poll_extends svc max_polls 0 ""
                    (cicd_timeline st ++ [mk_event "cicd_polling_started" "running"]))
        as Hp.
      destruct (poll svc max_polls 0 "" _) as [ci timeline']. cbn in Hp |- *.
      repeat (split; [reflexivity|]). etrans; [|exact Hp]. by eexists.
    + cbn. repeat (split; [reflexivity|]). rewrite <- app_assoc. by eexists.
  - cbn. repeat (split; [reflexivity|]). rewrite <- app_assoc. by eexists.
  - cbn. repeat (split; [reflexivity|]). rewrite <- app_assoc. by eexists.
Qed.

End Frames.

(** ** Completed runs (orchestrator.py, [run_pipeline]) *)


Section CompletedRuns.

Variable env : nat -> Externals.
Variables (clk : RunClock) (repo team leader key token : string).
Variable limit : Z.

Let st0 := initial_state clk repo team leader key token limit.
Let run := run_pipeline env clk repo team leader key token limit.

Lemma run_node_frame x n st st' :
  run_node x n st = Ok st' ->
  duration_seconds st' = duration_seconds st
  /\ cicd_timeline st `prefix_of` cicd_timeline st'.
Proof.
  destruct n; cbn [run_node].
  - intros [= <-]. destruct (clone_agent_frame (x_clone x) st)
      as (H & _ & _ & _ & _ & k & Hk).
    split; [exact H|]. rewrite Hk. by eexists.
  - intros [= <-]. destruct (analyze_agent_frame (x_analyze x) st) as (H & _ & Hp & _).
    done.
  - destruct (fix_agent _ _ st) as [[s fs']|exc] eqn:E; [|discriminate].
    cbn. intros [= <-]. apply fix_agent_frame in E as (H & _ & _ & _ & Hp & _).
    done.
  - intros [= <-]. destruct (git_agent_frame (x_git x) st)
      as (H & _ & _ & _ & _ & Hp). done.
  - intros [= <-]. destruct (cicd_agent_frame (x_ci x) st)
      as (H & _ & _ & _ & _ & Hp). done.
  - intros [= <-]. split; [reflexivity|]. cbn. by eexists.
  - intros [= <-]. split; reflexivity.
  - intros [= <-]. split; reflexivity.
Qed.

(** What [run_pipeline] returns for a completed run is what the graph
    returned, stamped with the finishing time. *)
Lemma run_completed final :
  run = Some (Ok final) ->
  exists f0,
    invoke env recursion_limit 0 N_clone st0 = Some (Ok f0)
    /\ final = set_duration_seconds (Py.round (elapsed clk) 2)
                 (set_finished_at (finish_iso clk) f0).
Proof.
  subst run. unfold run_pipeline. fold st0.
  destruct (invoke env recursion_limit 0 N_clone st0) as [[f0|exc]|];
    intros [= <-]. eauto.
Qed.

Lemma run_scored (P : node -> AgentState -> Prop) final :
  (forall c n st st' n',
      P n st -> run_node (env c) n st = Ok st' -> next_node n st' = Some n' ->
      P n' st') ->
  P N_clone st0 ->
  run = Some (Ok final) ->
  exists e,
    P N_score e
    /\ final = set_duration_seconds (Py.round (elapsed clk) 2)
                 (set_finished_at (finish_iso clk) (score_agent e)).
Proof.
  intros Hstep H0 (f0 & Hinv & ->)%run_completed.
  assert (Hn : N_clone <> N_END) by discriminate.
  destruct (invoke_invariant env P Hstep _ _ _ _ _ Hn H0 Hinv) as (e & He & ->).
  eauto.
Qed.


(** X2.  A completed run never reports "failed" or "running": its status is
    "success" or "partial", and its score is the breakdown of the state that
    entered the score node. *)
Theorem completed_run_status final :
  run = Some (Ok final) ->
  (status final = "success" \/ status final = "partial") /\
  exists e, score final = Score.breakdown e
            /\ rtc step (N_clone, st0) (N_score, e).
Proof.
  intros Hrun.
  destruct (run_scored (fun n st => rtc step (N_clone, st0) (n, st)) final)
    as (e & Hpath & ->); [| apply rtc_refl | exact Hrun |].
  { intros c n st st' n' Hp Hr Hn. eapply rtc_r; [exact Hp|].
    by apply (step_node (env c)). }
  split.
  - change (status (score_agent e) = "success"
            \/ status (score_agent e) = "partial").
    rewrite score_agent_status. destruct (Py.qge _ _); auto.
  - exists e. split; [reflexivity|exact Hpath].
Qed.

(** X3.  The score node runs before the duration of the run is known: the
    state it grades still carries duration 0, so every completed run gets
    the speed bonus, however long it took. *)
Theorem completed_run_gets_speed_bonus final :
  run = Some (Ok final) ->
  speed_bonus (score final) = 10%Q /\
  duration_seconds final = Py.round (elapsed clk) 2.
Proof.
  intros Hrun.
  destruct (run_scored (fun _ st => duration_seconds st = 0%Q) final)
    as (e & He & ->); [| |exact Hrun|].
  - intros c n st st' n' HP Hnode _.
    apply run_node_frame in Hnode as [-> _]. exact HP.
  - reflexivity.
  - split; [|reflexivity].
    change (Score.speed e = 10%Q). unfold Score.speed. rewrite He. reflexivity.
Qed.

Lemma budget_kept_step c n st st' n' :
  budget_kept limit n st -> run_node (env c) n st = Ok st' ->
  next_node n st' = Some n' -> budget_kept limit n' st'.
Proof.
  intros (Hl & Hc & Hi) Hrun Hnext.
  apply run_node_retry in Hrun as [Hl' Hc'].
  unfold budget_kept.
  destruct n; cbn [next_node] in Hnext;
    try (injection Hnext as <-; repeat split; try lia; discriminate).
  - split; [lia|]. split; [lia|]. intros ->.
    apply retry_edge_below_limit in Hnext. lia.
  - injection Hnext as <-. specialize (Hi eq_refl).
    repeat split; try lia. discriminate.
  - discriminate.
Qed.

(** X4.  A completed run ends with its retry counter between 0 and the
    budget (0 when the budget is negative); with a budget of at most 19 the
    efficiency penalty is 0. *)
Theorem completed_run_retry_budget final :
  run = Some (Ok final) ->
  retry_limit final = limit /\
  0 <= retry_count final <= Z.max 0 limit /\
  (limit <= 19 -> efficiency_penalty (score final) = 0).
Proof.
  intros Hrun.
  destruct (run_scored (budget_kept limit) final)
    as (e & (Hl & Hc & _) & ->); [| |exact Hrun|].
  - intros c n st st' n'. apply budget_kept_step.
  - unfold budget_kept. subst st0. cbn. repeat split; try lia. discriminate.
  - split; [exact Hl|]. split; [exact Hc|]. intros H19.
    change (Score.penalty e = 0). unfold Score.penalty, Score.total_commits.
    rewrite max0_Zmax. lia.
Qed.

Lemma counters_consistent_step c n st st' n' :
  well_counted (x_analyze (env c)) ->
  counters_consistent n st -> run_node (env c) n st = Ok st' ->
  next_node n st' = Some n' -> counters_consistent n' st'.
Proof.
  intros Hw (Hp & Ha & Hf) Hrun Hnext. unfold counters_consistent, len_failures.
  unfold len_failures in Ha.
  destruct n; cbn [run_node next_node] in Hrun, Hnext.
  - injection Hrun as <-. injection Hnext as <-.
    destruct (clone_agent_frame (x_clone (env c)) st)
      as (_ & F1 & F2 & F3 & F4 & _).
    rewrite F1, F2, F3, F4. split; [done|]. split; [done|]. intros _. auto.
  - injection Hrun as <-. injection Hnext as <-.
    destruct (analyze_agent_frame (x_analyze (env c)) st) as (_ & F1 & _ & F2).
    rewrite F1, (Hf ltac:(auto)). split.
    + destruct F2 as [[-> ->]|F2]; [done|].
      destruct (x_analyze (env c)); destruct F2 as [-> ->]; [exact Hw|lia].
    + split; [change (count_applied []) with 0; lia|done].
  - destruct (fix_agent _ _ st) as [[s fs']|exc] eqn:E; [|discriminate].
    cbn in Hrun. injection Hrun as <-. injection Hnext as <-.
    apply fix_agent_frame in E as (_ & F1 & F2 & F3 & _ & F4).
    rewrite F1, F2, F3. split; [done|]. split.
    + destruct F4 as [->|F4]; [done|].
      pose proof (count_applied_bounds (fixes s)). lia.
    + intros [?|[?|?]]; discriminate.
  - injection Hrun as <-. injection Hnext as <-.
    destruct (git_agent_frame (x_git (env c)) st) as (_ & F1 & F2 & F3 & F4 & _).
    rewrite F1, F2, F3, F4. split; [done|]. split; [done|].
    intros [?|[?|?]]; discriminate.
  - injection Hrun as <-.
    destruct (cicd_agent_frame (x_ci (env c)) st) as (_ & F1 & F2 & F3 & F4 & _).
    rewrite F1, F2, F3, F4. split; [done|]. split; [done|].
    intros [-> | [-> | ->]];
      destruct (should_retry_label (cicd_agent (x_ci (env c)) st)) as [H|H];
      rewrite H in Hnext; discriminate.
  - injection Hrun as <-. injection Hnext as <-. cbn.
    split; [done|]. split; [done|]. intros [?|[?|?]]; discriminate.
  - injection Hrun as <-. injection Hnext as <-.
    cbn [increment_retry fixes failures tests_passed total_tests set_fixes
         set_retry_count].
    split; [done|]. split; [change (count_applied []) with 0; lia|done].
  - discriminate.
Qed.

(** X5.  When no analysis of the run reports more passed tests than tests,
    the counters that the score node of a completed run divides are
    consistent: the passed tests do not outnumber the tests, and the applied
    fixes that the score reports are those of the final fix list and do not
    outnumber the failures. *)
Theorem completed_run_counters_consistent final :
  (forall c, well_counted (x_analyze (env c))) ->
  run = Some (Ok final) ->
  tests_passed final <= total_tests final /\
  0 <= fixes_applied (score final) <= len_failures final /\
  fixes_applied (score final) = count_applied (fixes final).
Proof.
  intros Hw Hrun.
  destruct (run_scored counters_consistent final)
    as (e & (Hp & Ha & _) & ->); [| |exact Hrun|].
  - intros c n st st' n' HP Hr Hn.
    exact (counters_consistent_step c n st st' n' (Hw c) HP Hr Hn).
  - unfold counters_consistent. subst st0.
    split; [change (0 <= 0); lia|]. split; [change (0 <= 0); lia|].
    intros _. reflexivity.
  - change (tests_passed e <= total_tests e /\
            0 <= count_applied (fixes e) <= len_failures e /\
            count_applied (fixes e) = count_applied (fixes e)).
    pose proof (count_applied_bounds (fixes e)). repeat split; lia.
Qed.

Lemma log_started_step c n st st' n' :
  log_started n st -> run_node (env c) n st = Ok st' ->
  next_node n st' = Some n' -> log_started n' st'.
Proof.
  intros HP Hrun Hnext.
  assert (Hk : exists k, cicd_timeline st'
                         = mk_event "clone_started" "running" :: k).
  { destruct n;
      [|destruct HP as [k Hst];
        apply run_node_frame in Hrun as [_ [k' Hk']];
        rewrite Hk', Hst; eauto ..].
    cbn in HP, Hrun. injection Hrun as <-.
    destruct (clone_agent_frame (x_clone (env c)) st)
      as (_ & _ & _ & _ & _ & k & Hk).
    rewrite HP in Hk. eauto. }
  destruct n'; try exact Hk.
  destruct n; cbn in Hnext; try discriminate.
  destruct (should_retry_label st') as [H|H]; rewrite H in Hnext; discriminate.
Qed.

(** X6.  The log of a run only grows: every step of the graph keeps the
    events it found and appends to them; and the log of a completed run
    begins with the start of the clone and ends with the score. *)
Theorem timeline_is_append_only :
  (forall c c', step c c' ->
                cicd_timeline (snd c) `prefix_of` cicd_timeline (snd c')) /\
  (forall c, rtc step (N_clone, st0) c ->
             cicd_timeline st0 `prefix_of` cicd_timeline (snd c)) /\
  (forall final,
      run = Some (Ok final) ->
      head (cicd_timeline final) = Some (mk_event "clone_started" "running")
      /\ last (cicd_timeline final)
         = Some (mk_event "score_calculated" "success")).
Proof.
  assert (Hstep : forall c c', step c c' ->
            cicd_timeline (snd c) `prefix_of` cicd_timeline (snd c')).
  { intros c c' H. inversion H as [x n st st' n' Hrun Hnext]; subst.
    apply run_node_frame in Hrun as [_ Hp]. exact Hp. }
  split; [exact Hstep|]. split.
  - intros c Hc. revert c Hc. apply rtc_ind_r; [reflexivity|].
    intros c1 c2 _ H2 IH. etrans; [exact IH|apply Hstep; exact H2].
  - intros final Hrun.
    destruct (run_scored log_started final) as (e & [k Hk] & ->);
      [| |exact Hrun|].
    + intros c n st st' n'. apply log_started_step.
    + reflexivity.
    + change (head (cicd_timeline e ++ [mk_event "score_calculated" "success"])
              = Some (mk_event "clone_started" "running")
              /\ last (cicd_timeline e ++ [mk_event "score_calculated" "success"])
                 = Some (mk_event "score_calculated" "success")).
      rewrite Hk, last_snoc. split; reflexivity.
Qed.

End CompletedRuns.

(** X30.  Along the steps of the graph from an initial state with
    retry_count 0, for any number of retries: retry_limit is never written;
    retry_count never decreases, grows by at most one per step, and stays
    between 0 and retry_limit, or at 0 when retry_limit is negative. *)
Theorem retry_count_monotone_and_bounded (st0 : AgentState) :
  retry_count st0 = 0 ->
  (forall c, rtc step (N_clone, st0) c ->
             0 <= retry_count (snd c) <= Z.max 0 (retry_limit st0)
             /\ retry_limit (snd c) = retry_limit st0) /\
  (forall c c', step c c' ->
                retry_count (snd c) <= retry_count (snd c')
                <= retry_count (snd c) + 1).
Proof.
  intros H0. split.
  - intros c Hc.
    assert (H : budget_kept (retry_limit st0) (fst c) (snd c)).
    { revert c Hc. apply rtc_ind_r.
      - unfold budget_kept. cbn [fst snd]. repeat split; try lia. discriminate.
      - intros [n st] [n' st'] _ Hstep IH. cbn [fst snd] in *.
        inversion Hstep as [x m s s' m' Hrun Hnext]; subst.
        exact (budget_kept_step (fun _ => x) (retry_limit st0) 0%nat
                 _ _ _ _ IH Hrun Hnext). }
    destruct H as (Hl & Hc' & _). done.
  - intros c c' Hstep.
    inversion Hstep as [x n st st' n' Hrun Hnext]; subst. cbn [snd].
    apply run_node_retry in Hrun as [_ Hrc]. destruct n; lia.
Qed.

Lemma retry_count_monotone_and_bounded_witness :
  0 <= retry_count (clone_agent (CloneOk "/repo" "python") (demo_state 2)) <= 2.
Proof.
  destruct (retry_count_monotone_and_bounded (demo_state 2) eq_refl)
    as [H _].
  destruct (H (N_analyze,
               clone_agent (CloneOk "/repo" "python") (demo_state 2)))
    as [Hb _]; [|exact Hb].
  apply rtc_once. apply (step_node small_project); reflexivity.
Defined.

Example small_run_completes :
  match small_run 1 with
  | Some (Ok final) =>
      status final = "success" /\ retry_count final = 0
      /\ length (fixes final) = 1%nat /\ cicd_status final = "success"
      /\ fixes_applied (score final) = 1
  | _ => False
  end.
Proof. vm_compute. repeat split; reflexivity. Qed.

Lemma completed_run_status_witness :
  match small_run 1 with
  | Some (Ok final) => status final = "success" \/ status final = "partial"
  | _ => False
  end.
Proof.
  unfold small_run.
  destruct (run_pipeline _ _ _ _ _ _ _ _) as [[final|exc]|] eqn:E.
  - apply (completed_run_status _ _ _ _ _ _ _ _ final E).
  - vm_compute in E. discriminate.
  - vm_compute in E. discriminate.
Defined.

Lemma completed_run_gets_speed_bonus_witness :
  match small_run 1 with
  | Some (Ok final) => speed_bonus (score final) = 10%Q
  | _ => False
  end.
Proof.
  unfold small_run.
  destruct (run_pipeline _ _ _ _ _ _ _ _) as [[final|exc]|] eqn:E.
  - apply (completed_run_gets_speed_bonus _ _ _ _ _ _ _ _ final E).
  - vm_compute in E. discriminate.
  - vm_compute in E. discriminate.
Defined.

Lemma completed_run_retry_budget_witness :
  match small_run 1 with
  | Some (Ok final) =>
      0 <= retry_count final <= 1 /\ efficiency_penalty (score final) = 0
  | _ => False
  end.
Proof.
  unfold small_run.
  destruct (run_pipeline _ _ _ _ _ _ _ _) as [[final|exc]|] eqn:E.
  - destruct (completed_run_retry_budget _ _ _ _ _ _ _ _ final E)
      as (_ & Hc & Hp).
    split; [exact Hc|]. apply Hp. lia.
  - vm_compute in E. discriminate.
  - vm_compute in E. discriminate.
Defined.

Lemma completed_run_counters_consistent_witness :
  match small_run 1 with
  | Some (Ok final) => tests_passed final <= total_tests final
  | _ => False
  end.
Proof.
  unfold small_run.
  destruct (run_pipeline _ _ _ _ _ _ _ _) as [[final|exc]|] eqn:E.
  - apply (completed_run_counters_consistent (fun _ => small_project)
             demo_clock "https://github.com/o/r" "RIFT TEAM" "LEADER" "" "" 1
             final); [|exact E].
    intros c. cbn. lia.
  - vm_compute in E. discriminate.
  - vm_compute in E. discriminate.
Defined.

Lemma timeline_is_append_only_witness :
  match small_run 1 with
  | Some (Ok final) =>
      last (cicd_timeline final) = Some (mk_event "score_calculated" "success")
  | _ => False
  end.
Proof.
  unfold small_run.
  destruct (run_pipeline _ _ _ _ _ _ _ _) as [[final|exc]|] eqn:E.
  - destruct (timeline_is_append_only (fun _ => small_project) demo_clock
                "https://github.com/o/r" "RIFT TEAM" "LEADER" "" "" 1)
      as (_ & _ & H).
    apply (H final E).
  - vm_compute in E. discriminate.
  - vm_compute in E. discriminate.
Defined.

(** ** The CI monitor (cicd_agent.py) *)

Section Monitor.

Variable svc : CIService.

Lemma truthy_false (s : string) : Str.truthy s = false <-> s = "".
Proof. destruct s; split; intros H; try discriminate; reflexivity. Qed.

Lemma truthy_true (s : string) : Str.truthy s = true <-> s <> "".
Proof. destruct s; split; intros H; try discriminate; try reflexivity; done. Qed.

Lemma poll_status n : forall i prev timeline,
  fst (poll svc n i prev timeline) = "success"
  \/ fst (poll svc n i prev timeline) = "failure".
Proof.
  induction n as [|n IH]; intros i prev timeline; cbn [poll]; [by right|].
  destruct (workflow_status svc i) as [[st conclusion]|exc]; [|by right].
  destruct (str_eq st "completed"); [|apply IH].
  cbn. destruct (conclusion_is_success conclusion); auto.
Qed.

Lemma conclusion_is_success_spec conclusion :
  conclusion_is_success conclusion = true <-> conclusion = Some "success".
Proof.
  destruct conclusion as [c|]; cbn; [|split; discriminate].
  destruct (str_eq_spec c "success") as [->|Hne]; split; try done.
  intros [= ->]. done.
Qed.

(** A polled success means that one of the answers read was a completed
    run with the conclusion "success". *)
Lemma poll_success n : forall i prev timeline,
  fst (poll svc n i prev timeline) = "success" ->
  exists j, (i <= j < i + n)%nat
            /\ workflow_status svc j = Ok ("completed", Some "success").
Proof.
  induction n as [|n IH]; intros i prev timeline; cbn [poll]; [discriminate|].
  destruct (workflow_status svc i) as [[st conclusion]|exc] eqn:Hi;
    [|discriminate].
  destruct (str_eq_spec st "completed") as [->|Hne].
  - cbn. destruct (conclusion_is_success conclusion) eqn:Hc; [|discriminate].
    intros _. apply conclusion_is_success_spec in Hc as ->.
    exists i. split; [lia|exact Hi].
  - intros H. apply IH in H as (j & Hj & Hw). exists j. split; [lia|exact Hw].
Qed.

(** When none of the answers within reach is a completed run, the loop
    gives up with a failure and logs the timeout last. *)
Lemma poll_timeout n : forall i prev timeline,
  (forall j, (i <= j < i + n)%nat ->
             exists s c, workflow_status svc j = Ok (s, c) /\ s <> "completed") ->
  fst (poll svc n i prev timeline) = "failure"
  /\ last (snd (poll svc n i prev timeline))
     = Some (mk_event "cicd_timeout" "failure").
Proof.
  induction n as [|n IH]; intros i prev timeline Hall; cbn [poll].
  - cbn. split; [reflexivity|apply last_snoc].
  - destruct (Hall i ltac:(lia)) as (s & c & -> & Hs).
    destruct (str_eq_spec s "completed") as [->|_]; [done|].
    apply IH. intros j Hj. apply Hall. lia.
Qed.

(** The loop reads the answers with index below [i + n] only. *)
Lemma poll_reads_first (svc' : CIService) n : forall i prev timeline,
  (forall j, (i <= j < i + n)%nat ->
             workflow_status svc j = workflow_status svc' j) ->
  poll svc n i prev timeline = poll svc' n i prev timeline.
Proof.
  induction n as [|n IH]; intros i prev timeline Hall; cbn [poll];
    [reflexivity|].
  rewrite <- (Hall i ltac:(lia)).
  destruct (workflow_status svc i) as [[s c]|exc]; [|reflexivity].
  destruct (str_eq s "completed"); [reflexivity|].
  apply IH. intros j Hj. apply Hall. lia.
Qed.

Variable st : AgentState.

(** X7.  The monitor leaves one of three CI outcomes, and "success" has
    only two sources: without a credential or a commit it is inferred from
    at least one applied fix of at least one failure; otherwise one of the
    first 60 answers of the service was a run completed with success. *)
Theorem cicd_agent_outcome :
  let ci := cicd_status (cicd_agent svc st) in
  (ci = "success" \/ ci = "failure" \/ ci = "pending") /\
  (ci = "success" ->
   ((github_token st = "" \/ commit_sha st = "")
    /\ 0 < count_applied (fixes st) /\ 0 < len_failures st)
   \/ (github_token st <> "" /\ commit_sha st <> ""
       /\ exists j, (j < max_polls)%nat
                    /\ workflow_status svc j = Ok ("completed", Some "success"))).
Proof.
  cbn zeta. unfold cicd_agent.
  destruct (Str.truthy (github_token st)) eqn:Ht; cbn [negb orb].
  2:{ apply truthy_false in Ht.
      destruct ((0 <? count_applied (fixes st)) && (0 <? len_failures st)) eqn:E;
        cbn; (split; [auto|]); [|discriminate].
      intros _. left. apply andb_true_iff in E as [E1 E2].
      apply Z.ltb_lt in E1, E2. auto. }
  destruct (Str.truthy (commit_sha st)) eqn:Hc; cbn [negb].
  2:{ apply truthy_false in Hc.
      destruct ((0 <? count_applied (fixes st)) && (0 <? len_failures st)) eqn:E;
        cbn; (split; [auto|]); [|discriminate].
      intros _. left. apply andb_true_iff in E as [E1 E2].
      apply Z.ltb_lt in E1, E2. auto. }
  apply truthy_true in Ht, Hc.
  destruct (repo_of_url svc (repo_url st)); [|cbn; split; [auto|discriminate]].
  destruct (latest_workflow_run svc) as [[id|]|];
    [|cbn; split; [auto|discriminate] ..].
  destruct (Str.truthy id); [|cbn; split; [auto|discriminate]].
  pose proof (poll_status max_polls 0 ""
                (cicd_timeline st ++ [mk_event "cicd_polling_started" "running"]))
    as Hs.
  pose proof (poll_success max_polls 0 ""
                (cicd_timeline st ++ [mk_event "cicd_polling_started" "running"]))
    as Hok.
  destruct (poll svc max_polls 0 "" _) as [ci timeline']. cbn in Hs, Hok |- *.
  split; [tauto|]. intros H. right.
  destruct (Hok H) as (j & Hj & Hw). repeat split; try done.
  exists j. split; [lia|exact Hw].
Qed.

(** X8.  With a credential, a commit, a recognised repository and a
    workflow run, a service that does not report the run completed within
    60 requests makes the monitor give up: the outcome is "failure" and the
    last event of the log is the timeout. *)
Theorem cicd_agent_times_out (owner_repo : string * string) (id : string) :
  github_token st <> "" -> commit_sha st <> "" ->
  repo_of_url svc (repo_url st) = Some owner_repo ->
  latest_workflow_run svc = Ok (Some id) -> id <> "" ->
  (forall j, (j < max_polls)%nat ->
             exists s c, workflow_status svc j = Ok (s, c) /\ s <> "completed") ->
  cicd_status (cicd_agent svc st) = "failure" /\
  last (cicd_timeline (cicd_agent svc st))
  = Some (mk_event "cicd_timeout" "failure").
Proof.
  intros Ht%truthy_true Hc%truthy_true Hrepo Hrun Hid%truthy_true Hall.
  unfold cicd_agent. rewrite Ht, Hc, Hrepo, Hrun, Hid. cbn [negb orb].
  destruct (poll_timeout max_polls 0 ""
              (cicd_timeline st ++ [mk_event "cicd_polling_started" "running"]))
    as [H1 H2].
  { intros j Hj. apply Hall. lia. }
  destruct (poll svc max_polls 0 "" _) as [ci timeline']. cbn in H1, H2 |- *.
  split; assumption.
Qed.

(** X9.  The monitor never asks more than 60 times: two services that agree
    on the repository, on the latest run and on their first 60 answers lead
    to the same state. *)
Theorem cicd_agent_reads_60_answers (svc' : CIService) :
  repo_of_url svc (repo_url st) = repo_of_url svc' (repo_url st) ->
  latest_workflow_run svc = latest_workflow_run svc' ->
  (forall j, (j < max_polls)%nat ->
             workflow_status svc j = workflow_status svc' j) ->
  cicd_agent svc st = cicd_agent svc' st.
Proof.
  intros Hrepo Hrun Hall. unfold cicd_agent. rewrite <- Hrepo, <- Hrun.
  rewrite (poll_reads_first svc' max_polls 0 ""); [reflexivity|].
  intros j Hj. apply Hall. lia.
Qed.

End Monitor.

Example passing_ci_run :
  cicd_status (cicd_agent passing_ci pushed_state) = "success" /\
  ev_event <$> cicd_timeline (cicd_agent passing_ci pushed_state)
  = ["cicd_polling_started"; "cicd_queued"; "cicd_in_progress"; "cicd_completed"].
Proof. vm_compute. split; reflexivity. Qed.

Lemma cicd_agent_outcome_witness :
  exists j, (j < max_polls)%nat
            /\ workflow_status passing_ci j = Ok ("completed", Some "success").
Proof.
  destruct (cicd_agent_outcome passing_ci pushed_state) as [_ H].
  destruct H as [(Hmissing & _)|(_ & _ & Hj)].
  - vm_compute. reflexivity.
  - destruct Hmissing as [H|H]; vm_compute in H; discriminate.
  - exact Hj.
Defined.

Lemma cicd_agent_times_out_witness :
  cicd_status (cicd_agent stalled_ci pushed_state) = "failure".
Proof.
  apply (cicd_agent_times_out stalled_ci pushed_state ("o", "r") "42");
    try discriminate; try reflexivity.
  intros j _. exists "in_progress", None. split; [reflexivity|discriminate].
Defined.

Lemma cicd_agent_reads_60_answers_witness :
  cicd_agent stalled_ci pushed_state = cicd_agent late_ci pushed_state.
Proof.
  apply (cicd_agent_reads_60_answers stalled_ci pushed_state late_ci);
    try reflexivity.
  intros j Hj. unfold late_ci, stalled_ci, workflow_status.
  destruct (Nat.ltb_spec j 60); [reflexivity|]. unfold max_polls in Hj. lia.
Defined.

(** ** More on the fix step (fix_agent.py) *)

Section FixTree.

Lemma apply_fix_keeps_paths h fs failure clone_path key r fs' :
  _apply_fix h fs failure clone_path key = Ok (r, fs') -> dom fs' = dom fs.
Proof.
  unfold _apply_fix. set (p := if path_exists fs _ then _ else _).
  unfold path_exists. destruct (fs !! p) as [e|] eqn:Hp; cbn [negb];
    [|by intros [= <- <-]].
  assert (Hin : forall v, dom (<[p := v]> fs) = dom fs).
  { intros v. apply dom_insert_lookup_L. by eexists. }
  assert (Hwrite : forall lines fs1,
            _write_file_lines h fs p lines = Ok fs1 -> dom fs1 = dom fs).
  { intros lines fs1. unfold _write_file_lines.
    destruct (write_error h p); [discriminate|]. intros [= <-]. apply Hin. }
  destruct (_read_file_lines fs p) as [original|exc]; [|discriminate].
  cbn [bind].
  assert (Hrule :
    Ok (rule_based_branch h fs failure p original) = Ok (r, fs') ->
    dom fs' = dom fs).
  { unfold rule_based_branch.
    destruct (_rule_based_fix failure original) as [desc fixed].
    destruct (_write_file_lines h fs p fixed) as [fs1|exc] eqn:E;
      intros [= <- <-]; [by eapply Hwrite|done]. }
  destruct (Str.truthy key && String.prefix "sk-" key); [|exact Hrule].
  cbv zeta. destruct (_parse_llm_response _) as [desc code].
  destruct (Str.truthy code); [|exact Hrule].
  destruct (_write_file_lines h fs p _) as [fs1|exc] eqn:E;
    intros [= <- <-]; [by eapply Hwrite|done].
Qed.

Lemma fix_loop_keeps_paths hosts clone_path key todo : forall k fs acc r fs',
  fix_loop hosts k fs todo clone_path key acc = Ok (r, fs') ->
  dom fs' = dom fs.
Proof.
  induction todo as [|failure rest IH]; intros k fs acc r fs'; cbn [fix_loop].
  - by intros [= <- <-].
  - destruct (_apply_fix _ _ _ _ _) as [[r1 fs1]|exc] eqn:E; [|discriminate].
    cbn [bind fst snd]. intros H. apply IH in H.
    apply apply_fix_keeps_paths in E. congruence.
Qed.

(** X10.  The fix step rewrites files in place: whatever the failures, the
    service and the write errors, a fix step that returns leaves the tree
    with exactly the paths it had. *)
Theorem fix_agent_keeps_paths (hosts : nat -> Host) (fs : gmap string entry)
    (st st' : AgentState) (fs' : gmap string entry) :
  fix_agent hosts fs st = Ok (st', fs') -> dom fs' = dom fs.
Proof.
  unfold fix_agent. destruct (failures st); [by intros [= <- <-]|].
  destruct (str_eq (status st) "failed"); [by intros [= <- <-]|].
  destruct (fix_loop _ _ _ _ _ _ _) as [[r fs1]|exc] eqn:E; [|discriminate].
  cbn [bind fst snd]. intros [= <- <-].
  by apply fix_loop_keeps_paths in E.
Qed.

Lemma apply_fix_not_found h fs failure clone_path key :
  file_missing h fs clone_path failure ->
  _apply_fix h fs failure clone_path key = Ok (not_found_record failure, fs).
Proof.
  unfold file_missing, _apply_fix, path_exists. intros [Hd Hc]. rewrite Hd.
  destruct (rglob_name h clone_path (fe_file failure)) as [|c more].
  - rewrite Hd. reflexivity.
  - rewrite Hc. reflexivity.
Qed.

Lemma fix_loop_not_found hosts fs clone_path key todo : forall k acc,
  (forall j failure,
      todo !! j = Some failure ->
      file_missing (hosts (k + j)%nat) fs clone_path failure) ->
  fix_loop hosts k fs todo clone_path key acc
  = Ok (acc ++ (not_found_record <$> todo), fs).
Proof.
  induction todo as [|failure rest IH]; intros k acc Hm; cbn [fix_loop].
  - by rewrite app_nil_r.
  - rewrite apply_fix_not_found.
    2:{ specialize (Hm 0%nat failure eq_refl).
        by rewrite Nat.add_0_r in Hm. }
    cbn [bind fst snd]. rewrite IH.
    + by rewrite <- app_assoc.
    + intros j f Hj. specialize (Hm (S j) f Hj).
      by replace (S k + j)%nat with (k + S j)%nat by lia.
Qed.

Lemma count_applied_not_found todo :
  count_applied (not_found_record <$> todo) = 0.
Proof.
  unfold count_applied. induction todo as [|f rest IH]; [reflexivity|].
  cbn. exact IH.
Qed.

(** X11.  On a tree, whatever else it holds, where the file of no failure
    is found, neither at its path nor by its name, the fix step reports one
    failed "file not found" record per failure, in order, leaves the tree
    as it is, and logs the step as a failure; the completion service and
    the credential play no part. *)
Theorem fix_agent_on_missing_files (hosts : nat -> Host)
    (fs : gmap string entry) (st : AgentState) :
  failures st <> [] -> status st <> "failed" ->
  (forall j failure,
      failures st !! j = Some failure ->
      file_missing (hosts j) fs (clone_path st) failure) ->
  exists st',
    fix_agent hosts fs st = Ok (st', fs)
    /\ fixes st' = not_found_record <$> failures st
    /\ count_applied (fixes st') = 0
    /\ last (cicd_timeline st') = Some (mk_event "fix_complete" "failure").
Proof.
  intros Hf Hs Hm. unfold fix_agent.
  destruct (failures st) as [|f0 rest] eqn:E; [done|].
  destruct (str_eq_spec (status st) "failed"); [done|].
  rewrite fix_loop_not_found by exact Hm. cbn [bind fst snd app].
  rewrite count_applied_not_found. eexists. split; [reflexivity|].
  cbn [fixes set_cicd_timeline set_fixes cicd_timeline].
  split; [reflexivity|]. split; [apply count_applied_not_found|].
  apply last_snoc.
Qed.

End FixTree.

Lemma fix_agent_keeps_paths_witness :
  exists st' fs',
    fix_agent (fun _ => quiet_host) demo_tree two_failures_state = Ok (st', fs')
    /\ dom fs' = dom demo_tree.
Proof.
  destruct (fix_agent (fun _ => quiet_host) demo_tree two_failures_state)
    as [[st' fs']|exc] eqn:E; [|vm_compute in E; discriminate].
  exists st', fs'. split; [reflexivity|].
  exact (fix_agent_keeps_paths _ _ _ _ _ E).
Defined.

Lemma fix_agent_on_missing_files_witness :
  exists st',
    fix_agent (fun _ => unreachable_host) demo_tree missing_files_state
    = Ok (st', demo_tree)
    /\ count_applied (fixes st') = 0.
Proof.
  destruct (fix_agent_on_missing_files (fun _ => unreachable_host) demo_tree
              missing_files_state) as (st' & H1 & _ & H3 & _).
  - discriminate.
  - discriminate.
  - intros [|[|j]] failure; cbn; intros [= <-]; split; vm_compute; reflexivity.
  - exists st'. split; [exact H1|exact H3].
Defined.

Section RuleTable.

Variable failure : FailureEvent.
Variable code_lines : list string.

Let idx := Z.to_nat (fe_line failure - 1).

Lemma rule_based_fix_cases :
  snd (_rule_based_fix failure code_lines) = code_lines
  \/ snd (_rule_based_fix failure code_lines)
     = alter Str.sub_leading_tabs idx code_lines
  \/ snd (_rule_based_fix failure code_lines)
     = alter commented_import idx code_lines.
Proof.
  unfold _rule_based_fix.
  destruct (str_eq (fe_bug_type failure) "INDENTATION" && _); [by right; left|].
  destruct (str_eq (fe_bug_type failure) "IMPORT" && _); [by right; right|].
  by left.
Qed.

(** X12.  The rule table never adds or removes a line and never touches a
    line other than the failing one. *)
Theorem rule_based_fix_is_local :
  let fixed := snd (_rule_based_fix failure code_lines) in
  length fixed = length code_lines /\
  (forall i, i <> idx -> fixed !! i = code_lines !! i) /\
  (fe_line failure < 1 \/ Z.of_nat (length code_lines) < fe_line failure ->
   fixed = code_lines) /\
  (fe_bug_type failure <> "INDENTATION" -> fe_bug_type failure <> "IMPORT" ->
   _rule_based_fix failure code_lines = ("apply automated fix", code_lines)).
Proof.
  cbn zeta. split; [|split; [|split]].
  - destruct rule_based_fix_cases as [-> | [-> | ->]];
      rewrite ?length_alter; reflexivity.
  - intros i Hi.
    destruct rule_based_fix_cases as [-> | [-> | ->]]; [done|..];
      by rewrite list_lookup_alter_ne.
  - intros Hout. unfold _rule_based_fix.
    assert (Hr : (0 <=? fe_line failure - 1)
                 && (fe_line failure - 1 <? Z.of_nat (length code_lines))
                 = false).
    { destruct Hout.
      - destruct (Z.leb_spec 0 (fe_line failure - 1)); [lia|reflexivity].
      - destruct (Z.ltb_spec (fe_line failure - 1)
                    (Z.of_nat (length code_lines))); [lia|].
        apply andb_false_r. }
    rewrite Hr, !andb_false_r. reflexivity.
  - intros H1 H2. unfold _rule_based_fix.
    destruct (str_eq_spec (fe_bug_type failure) "INDENTATION"); [done|].
    destruct (str_eq_spec (fe_bug_type failure) "IMPORT"); [done|].
    reflexivity.
Qed.

End RuleTable.

Lemma rule_based_fix_is_local_witness :
  _rule_based_fix (demo_failure "LOGIC" "a.py" 1) import_lines
  = ("apply automated fix", import_lines).
Proof.
  apply (rule_based_fix_is_local (demo_failure "LOGIC" "a.py" 1) import_lines);
    discriminate.
Defined.

Section RuleRepetition.

Lemma leading_tabs_split (s : string) :
  s = Str.replicate (fst (Str.leading_tabs s)) Str.tab +++ snd (Str.leading_tabs s)
  /\ starts_with_tab (snd (Str.leading_tabs s)) = false.
Proof.
  induction s as [|c t [IH1 IH2]]; [split; reflexivity|].
  rewrite leading_tabs_cons.
  destruct (Ascii.eqb_spec c Str.tab) as [->|Hne].
  - destruct (Str.leading_tabs t) as [n rest]. cbn [fst snd] in *.
    split; [|exact IH2].
    change (Str.replicate (S n) Str.tab +++ rest)
      with (String Str.tab (Str.replicate n Str.tab +++ rest)).
    by rewrite <- IH1.
  - cbn [fst snd]. split; [reflexivity|].
    unfold starts_with_tab. by apply Ascii.eqb_neq.
Qed.

Lemma sub_leading_tabs_no_tab (s : string) :
  starts_with_tab s = false -> Str.sub_leading_tabs s = s.
Proof.
  intros H. unfold Str.sub_leading_tabs.
  destruct s as [|c t]; [reflexivity|]. rewrite leading_tabs_cons.
  change (starts_with_tab (String c t)) with (Ascii.eqb c Str.tab) in H.
  rewrite H. reflexivity.
Qed.

Lemma sub_leading_tabs_idempotent (s : string) :
  Str.sub_leading_tabs (Str.sub_leading_tabs s) = Str.sub_leading_tabs s.
Proof.
  apply sub_leading_tabs_no_tab.
  destruct (leading_tabs_split s) as [Hs Hrest].
  rewrite Hs at 1. rewrite sub_leading_tabs_run by exact Hrest.
  by apply starts_with_tab_spaces.
Qed.

Lemma append_assoc (s t u : string) : (s +++ t) +++ u = s +++ (t +++ u).
Proof.
  induction s as [|c s IH]; [reflexivity|]. rewrite !append_cons. by rewrite IH.
Qed.

Lemma length_append (s t : string) :
  String.length (s +++ t) = (String.length s + String.length t)%nat.
Proof.
  induction s as [|c s IH]; [reflexivity|]. rewrite append_cons. cbn.
  by rewrite IH.
Qed.

Lemma rstrip_nonempty_append (s t : string) :
  Str.rstrip t <> "" -> Str.rstrip (s +++ t) = s +++ Str.rstrip t.
Proof.
  intros Ht. induction s as [|c s IH]; [reflexivity|].
  rewrite !append_cons. cbn [Str.rstrip]. rewrite IH.
  destruct (s +++ Str.rstrip t) eqn:E; [|reflexivity].
  destruct s; [cbn in E; contradiction|discriminate].
Qed.

Lemma rstrip_commented_import (l : string) :
  Str.rstrip (commented_import l)
  = "# " +++ Str.rstrip l +++ "  # removed unused import".
Proof.
  unfold commented_import.
  assert (Htail : Str.rstrip ("  # removed unused import" +++ String Str.lf "")
                  = "  # removed unused import") by reflexivity.
  rewrite (rstrip_nonempty_append "# ").
  - rewrite (rstrip_nonempty_append (Str.rstrip l)); rewrite Htail; done.
  - rewrite (rstrip_nonempty_append (Str.rstrip l)); rewrite Htail; [|done].
    destruct (Str.rstrip l); discriminate.
Qed.

Variable failure : FailureEvent.
Variable code_lines : list string.

(** X13.  The indentation rule is idempotent: applied to its own output it
    changes nothing, so a retry cycle that meets the same failure again
    leaves the file as the first cycle left it. *)
Theorem indentation_rule_idempotent :
  fe_bug_type failure = "INDENTATION" ->
  _rule_based_fix failure (snd (_rule_based_fix failure code_lines))
  = _rule_based_fix failure code_lines.
Proof.
  intros Hbug. unfold _rule_based_fix. rewrite Hbug.
  change (str_eq "INDENTATION" "INDENTATION") with true.
  change (str_eq "INDENTATION" "IMPORT") with false. cbn [andb].
  destruct ((0 <=? fe_line failure - 1)
            && (fe_line failure - 1 <? Z.of_nat (length code_lines))) eqn:Hr;
    cbn [snd].
  - rewrite length_alter, Hr. f_equal.
    apply list_eq. intros i.
    destruct (decide (Z.to_nat (fe_line failure - 1) = i)) as [<-|Hne].
    + rewrite !list_lookup_alter_eq.
      destruct (code_lines !! _); cbn; [|reflexivity].
      by rewrite sub_leading_tabs_idempotent.
    + by rewrite !list_lookup_alter_ne.
  - rewrite Hr. reflexivity.
Qed.

(** X14.  The import rule is not idempotent: applied to its own output it
    comments the line out once more and repeats the marker, so each retry
    cycle that meets the failure again makes the line longer. *)
Theorem import_rule_stacks (l : string) :
  fe_bug_type failure = "IMPORT" -> 1 <= fe_line failure ->
  code_lines !! Z.to_nat (fe_line failure - 1) = Some l ->
  let once := snd (_rule_based_fix failure code_lines) in
  let twice := snd (_rule_based_fix failure once) in
  once !! Z.to_nat (fe_line failure - 1) = Some (commented_import l) /\
  twice !! Z.to_nat (fe_line failure - 1)
  = Some ("# # " +++ Str.rstrip l +++
          "  # removed unused import  # removed unused import" +++
          String Str.lf "") /\
  twice <> once.
Proof.
  intros Hbug Hline Hl. cbn zeta.
  pose proof (lookup_lt_Some _ _ _ Hl) as Hlt.
  assert (Hrule : forall lines, length lines = length code_lines ->
            snd (_rule_based_fix failure lines)
            = alter commented_import (Z.to_nat (fe_line failure - 1)) lines).
  { intros lines Hlen. unfold _rule_based_fix. rewrite Hbug, Hlen.
    change (str_eq "IMPORT" "INDENTATION") with false.
    change (str_eq "IMPORT" "IMPORT") with true. cbn [andb].
    destruct (Z.leb_spec 0 (fe_line failure - 1)); [|lia].
    destruct (Z.ltb_spec (fe_line failure - 1) (Z.of_nat (length code_lines)));
      [|lia].
    reflexivity. }
  rewrite (Hrule code_lines eq_refl).
  rewrite (Hrule _ (length_alter _ _ _)).
  assert (Honce : alter commented_import (Z.to_nat (fe_line failure - 1))
                    code_lines !! Z.to_nat (fe_line failure - 1)
                  = Some (commented_import l)).
  { rewrite list_lookup_alter_eq, Hl. reflexivity. }
  assert (Htwice : commented_import (commented_import l)
                   = "# # " +++ Str.rstrip l +++
                     "  # removed unused import  # removed unused import" +++
                     String Str.lf "").
  { unfold commented_import at 1. rewrite rstrip_commented_import.
    change ("# # " +++ Str.rstrip l +++
            "  # removed unused import  # removed unused import" +++
            String Str.lf "")
      with ("# " +++ "# " +++ Str.rstrip l +++
            ("  # removed unused import" +++
             "  # removed unused import" +++ String Str.lf "")).
    rewrite !append_assoc. reflexivity. }
  assert (H2 : alter commented_import (Z.to_nat (fe_line failure - 1))
                 (alter commented_import (Z.to_nat (fe_line failure - 1))
                    code_lines) !! Z.to_nat (fe_line failure - 1)
               = Some (commented_import (commented_import l))).
  { rewrite list_lookup_alter_eq, Honce. reflexivity. }
  split; [exact Honce|]. split.
  - rewrite H2, Htwice. reflexivity.
  - intros Heq. rewrite Heq, Honce in H2.
    apply (f_equal (fun o => match o with
                             | Some x => String.length x
                             | None => O
                             end)) in H2.
    cbv beta iota in H2. rewrite Htwice in H2. unfold commented_import in H2.
    rewrite !length_append in H2. cbn in H2. lia.
Qed.

End RuleRepetition.

Lemma indentation_rule_idempotent_witness :
  _rule_based_fix indentation_failure
    (snd (_rule_based_fix indentation_failure
            (Str.lines_lf (Str.universal_newlines demo_source))))
  = _rule_based_fix indentation_failure
      (Str.lines_lf (Str.universal_newlines demo_source)).
Proof. apply indentation_rule_idempotent. reflexivity. Defined.

Lemma import_rule_stacks_witness :
  snd (_rule_based_fix import_failure
         (snd (_rule_based_fix import_failure import_lines)))
  <> snd (_rule_based_fix import_failure import_lines).
Proof.
  apply (import_rule_stacks import_failure import_lines
           ("import x" +++ String Str.lf ""));
    [reflexivity | cbn; lia | reflexivity].
Defined.

Example import_rule_twice :
  snd (_rule_based_fix import_failure
         (snd (_rule_based_fix import_failure import_lines)))
  = ["# # import x  # removed unused import  # removed unused import"
     +++ String Str.lf ""; "y = 1" +++ String Str.lf ""].
Proof. reflexivity. Qed.

(** ** Slices and the context window (fix_agent.py, [_apply_fix]) *)

Section Window.

Context {A : Type}.
Implicit Types (l r : list A).

Lemma bound_le_length l (i : Z) :
  (Slice.bound (Z.of_nat (length l)) i <= length l)%nat.
Proof. unfold Slice.bound. destruct (Z.ltb_spec i 0); lia. Qed.

Lemma bound_in_range l (i : Z) :
  0 <= i <= Z.of_nat (length l) ->
  Slice.bound (Z.of_nat (length l)) i = Z.to_nat i.
Proof. intros H. unfold Slice.bound. destruct (Z.ltb_spec i 0); lia. Qed.

(** X15.  Writing back what a slice read changes nothing, for every pair of
    bounds, negative or out of range included. *)
Theorem slice_assign_get l (start stop : Z) :
  Slice.assign l start stop (Slice.get l start stop) = l.
Proof.
  unfold Slice.assign, Slice.get.
  set (a := Slice.bound _ start). set (b := Slice.bound _ stop).
  destruct (Nat.le_gt_cases a b) as [Hab|Hab].
  - rewrite Nat.max_r by exact Hab. rewrite app_assoc, take_take_drop.
    replace (a + (b - a))%nat with b by lia. apply take_drop.
  - rewrite Nat.max_l by lia. replace (b - a)%nat with 0%nat by lia.
    rewrite take_0. cbn. apply take_drop.
Qed.

(** X16.  The context window of a failure at a line of the file: it holds
    at most 21 lines and the failing line among them; and replacing the
    window keeps every line before it and every line after it, in order. *)
Theorem context_window_splice l (line : Z) :
  1 <= line <= Z.of_nat (length l) ->
  let start := Z.max 0 (line - 11) in
  let stop := Z.min (Z.of_nat (length l)) (line + 10) in
  0 <= start <= line - 1 /\ line - 1 < stop <= Z.of_nat (length l) /\
  stop - start <= 21 /\
  Slice.get l start stop !! Z.to_nat (line - 1 - start)
  = l !! Z.to_nat (line - 1) /\
  forall r,
    let new := Slice.assign l start stop r in
    length new = (length l - Z.to_nat (stop - start) + length r)%nat /\
    (forall i, (i < Z.to_nat start)%nat -> new !! i = l !! i) /\
    (forall k, new !! (Z.to_nat start + length r + k)%nat
               = l !! (Z.to_nat stop + k)%nat).
Proof.
  intros Hline start stop.
  assert (Hs : 0 <= start <= line - 1) by lia.
  assert (Ht : line - 1 < stop <= Z.of_nat (length l)) by lia.
  split; [exact Hs|]. split; [exact Ht|]. split; [lia|].
  assert (Ha : Slice.bound (Z.of_nat (length l)) start = Z.to_nat start)
    by (apply bound_in_range; lia).
  assert (Hb : Slice.bound (Z.of_nat (length l)) stop = Z.to_nat stop)
    by (apply bound_in_range; lia).
  split.
  - unfold Slice.get. rewrite Ha, Hb.
    rewrite lookup_take_lt by lia. rewrite lookup_drop. f_equal. lia.
  - intros r new. subst new. unfold Slice.assign. rewrite Ha, Hb.
    rewrite Nat.max_r by lia. split; [|split].
    + rewrite !length_app, length_take, length_drop. lia.
    + intros i Hi. rewrite lookup_app_l by (rewrite length_take; lia).
      by apply lookup_take_lt.
    + intros k. rewrite lookup_app_r by (rewrite length_take; lia).
      rewrite length_take.
      rewrite lookup_app_r by lia.
      rewrite lookup_drop. f_equal. lia.
Qed.

End Window.

Lemma context_window_splice_witness :
  Slice.get thirty_lines (Z.max 0 (15 - 11))
    (Z.min (Z.of_nat (length thirty_lines)) (15 + 10))
    !! Z.to_nat (15 - 1 - Z.max 0 (15 - 11))
  = thirty_lines !! Z.to_nat (15 - 1).
Proof.
  assert (H : 1 <= 15 <= Z.of_nat (length thirty_lines))
    by (vm_compute; split; discriminate).
  destruct (context_window_splice thirty_lines 15 H) as (_ & _ & _ & H4 & _).
  exact H4.
Defined.

(** ** The reply parser (fix_agent.py, [_parse_llm_response]) *)

Section Parser.

Lemma rstrip_cons (c : ascii) (t : string) :
  Str.rstrip (String c t) =
  match Str.rstrip t with
  | EmptyString => if Str.is_space c then EmptyString else String c EmptyString
  | t' => String c t'
  end.
Proof. reflexivity. Qed.

Lemma rstrip_idempotent (s : string) : Str.rstrip (Str.rstrip s) = Str.rstrip s.
Proof.
  induction s as [|c t IH]; [reflexivity|]. rewrite rstrip_cons.
  destruct (Str.rstrip t) as [|c' t'] eqn:E.
  - destruct (Str.is_space c) eqn:Hc; [reflexivity|].
    rewrite rstrip_cons. cbn [Str.rstrip]. by rewrite Hc.
  - rewrite rstrip_cons, IH. reflexivity.
Qed.

Lemma lstrip_head (s : string) :
  Str.lstrip s = ""
  \/ exists c t, Str.lstrip s = String c t /\ Str.is_space c = false.
Proof.
  induction s as [|c t IH]; [by left|]. cbn [Str.lstrip].
  destruct (Str.is_space c) eqn:Hc; [exact IH|]. right. eauto.
Qed.

Lemma strip_is_stripped (s : string) :
  Str.lstrip (Str.strip s) = Str.strip s /\ Str.rstrip (Str.strip s) = Str.strip s.
Proof.
  unfold Str.strip. split; [|apply rstrip_idempotent].
  destruct (lstrip_head s) as [->|(c & t & -> & Hc)]; [reflexivity|].
  destruct (rstrip_keeps_visible c t Hc) as [t' ->].
  cbn [Str.lstrip]. by rewrite Hc.
Qed.

(** X17.  Whatever the reply, the parser returns a description and a code
    that neither begin nor end with whitespace; a reply without description
    marker gets the stock description, and a reply without code marker
    yields the empty code, which sends [_apply_fix] to the rule table. *)
Theorem parse_llm_response_stripped (response : string) :
  let '(fix_desc, fixed_code) := _parse_llm_response response in
  Str.lstrip fix_desc = fix_desc /\ Str.rstrip fix_desc = fix_desc /\
  Str.lstrip fixed_code = fixed_code /\ Str.rstrip fixed_code = fixed_code /\
  (Str.split_first "---FIX_DESC---" response = None ->
   fix_desc = "apply automated fix") /\
  (Str.split_first "---FIXED_CODE---" response = None -> fixed_code = "").
Proof.
  unfold _parse_llm_response.
  destruct (Str.split_first "---FIX_DESC---" response) as [[b rest]|];
    destruct (Str.split_first "---FIXED_CODE---" response) as [[b' rest']|];
    repeat match goal with
           | |- context [Str.strip ?x] =>
               let H1 := fresh in let H2 := fresh in
               destruct (strip_is_stripped x) as [H1 H2];
               generalize dependent (Str.strip x); intros
           end;
    repeat split; try assumption; try reflexivity; try discriminate.
Qed.

End Parser.

Lemma parse_llm_response_stripped_witness :
  _parse_llm_response untagged_reply = ("apply automated fix", "").
Proof.
  pose proof (parse_llm_response_stripped untagged_reply) as H.
  destruct (_parse_llm_response untagged_reply) as [d c].
  destruct H as (_ & _ & _ & _ & Hd & Hc).
  rewrite Hd, Hc; reflexivity.
Defined.

(** ** More on the analysis (analyze_agent.py) *)

Example count_tests_examples :
  _count_tests_in_output "==== 5 passed, 2 failed in 0.1s ====" "python" = (7, 5)
  /\ _count_tests_in_output "2 failed, 5 passed" "python" = (7, 5)
  /\ _count_tests_in_output "no tests ran" "python" = (0, 0)
  /\ _count_tests_in_output "Tests:       2 failed, 5 passed, 7 total"
       "javascript" = (7, 5)
  /\ _count_tests_in_output "Tests: 5 passed" "typescript" = (5, 5)
  /\ _count_tests_in_output "Tests: 1 failed, 2 skipped, 5 passed, 8 total"
       "javascript" = (0, 0)
  /\ _count_tests_in_output "Tests: 5 passed, 3 total" "javascript" = (3, 5).
Proof. repeat split; reflexivity. Qed.

Example classify_examples :
  _classify_python_error "SyntaxError" = "SYNTAX"
  /\ _classify_python_error "ModuleNotFoundError" = "IMPORT"
  /\ _classify_python_error "ZeroDivisionError" = "LOGIC"
  /\ _classify_js_error "ReferenceError" = "IMPORT"
  /\ _classify_js_error "typeerror" = "LOGIC".
Proof. repeat split; vm_compute; reflexivity. Qed.

Section DedupMore.

Implicit Types (fs : list FailureEvent) (f : FailureEvent).
Implicit Types (seen : gset (string * string * Z)).

Lemma keep_unseen_all fs : forall seen,
  (forall f, f ∈ fs -> failure_key f ∉ seen) ->
  NoDup (failure_key <$> fs) ->
  keep_unseen fs seen = fs.
Proof.
  induction fs as [|f0 rest IH]; intros seen Hfresh Hnd; [reflexivity|].
  cbn [keep_unseen]. cbn in Hnd. apply NoDup_cons in Hnd as [Hf0 Hnd].
  destruct (decide (failure_key f0 ∈ seen)) as [Hin|_].
  { exfalso. apply (Hfresh f0); [apply elem_of_cons; by left|exact Hin]. }
  f_equal. apply IH; [|exact Hnd].
  intros f Hf. apply fresh_after_add. split.
  - intros E. apply Hf0. rewrite <- E. by apply list_elem_of_fmap_2.
  - apply Hfresh, elem_of_cons. by right.
Qed.

(** X18.  Deduplication is idempotent, leaves a list without duplicate keys
    as it is, never makes the list longer, and always keeps the first
    entry. *)
Theorem dedup_idempotent fs :
  dedup (dedup fs) = dedup fs /\
  (NoDup (failure_key <$> fs) -> dedup fs = fs) /\
  (length (dedup fs) <= length fs)%nat /\
  head (dedup fs) = head fs.
Proof.
  assert (Hid : forall l, NoDup (failure_key <$> l) -> dedup l = l).
  { intros l Hl. rewrite dedup_keep. apply keep_unseen_all; [|exact Hl].
    intros f _. apply not_elem_of_empty. }
  split; [|split; [exact (Hid fs)|split]].
  - apply Hid. rewrite dedup_keep. apply keep_unseen_NoDup.
  - rewrite dedup_keep. apply sublist_length, keep_unseen_sublist.
  - rewrite dedup_keep. destruct fs as [|f0 rest]; [reflexivity|].
    cbn [keep_unseen]. destruct (decide (failure_key f0 ∈ ∅)) as [H|_];
      [by apply not_elem_of_empty in H|reflexivity].
Qed.

End DedupMore.

Lemma dedup_idempotent_witness :
  dedup [indentation_failure; import_failure]
  = [indentation_failure; import_failure].
Proof.
  apply (dedup_idempotent [indentation_failure; import_failure]).
  cbn. repeat constructor; rewrite ?elem_of_cons, ?elem_of_nil;
    intros H; repeat destruct H as [H|H]; try discriminate; done.
Defined.

Section Classifiers.

Lemma dict_get_rows (rows : list (string * string)) (key default : string) :
  dict_get (list_to_map rows) key default = default
  \/ (key, dict_get (list_to_map rows) key default) ∈ rows.
Proof.
  unfold dict_get.
  destruct ((list_to_map rows : gmap string string) !! key) as [v|] eqn:E;
    [|by left].
  right. by apply elem_of_list_to_map_2.
Qed.

Lemma upper_char_idempotent (c : ascii) :
  Str.upper_char (Str.upper_char c) = Str.upper_char c.
Proof.
  destruct c as [[] [] [] [] [] [] [] []]; reflexivity.
Qed.

Lemma upper_idempotent (s : string) : Str.upper (Str.upper s) = Str.upper s.
Proof.
  induction s as [|c t IH]; [reflexivity|]. cbn [Str.upper].
  by rewrite upper_char_idempotent, IH.
Qed.

(** X19.  Both classifiers are total on error names and stay inside the
    allowed bug types; neither ever answers LINTING; and the Python
    classifier gives a name and its upper-case form the same class, so the
    parser may upper-case the name before it calls the classifier. *)
Theorem classifiers_stay_in_allowed_types (etype : string) :
  _classify_python_error etype ∈ ALLOWED_BUG_TYPES /\
  _classify_python_error etype <> "LINTING" /\
  _classify_js_error etype ∈ ALLOWED_BUG_TYPES /\
  _classify_js_error etype <> "LINTING" /\
  _classify_python_error (Str.upper etype) = _classify_python_error etype.
Proof.
  assert (Hpy : forall v, v = "LOGIC" \/ (exists k, (k, v) ∈ python_error_rows) ->
                    v ∈ ALLOWED_BUG_TYPES /\ v <> "LINTING").
  { intros v [->|[k Hk]]; [split; [set_solver|discriminate]|].
    unfold python_error_rows in Hk.
    rewrite !elem_of_cons, elem_of_nil in Hk.
    repeat destruct Hk as [Hk|Hk]; try done;
      injection Hk as -> ->; (split; [set_solver|discriminate]). }
  assert (Hjs : forall v, v = "LOGIC" \/ (exists k, (k, v) ∈ js_error_rows) ->
                    v ∈ ALLOWED_BUG_TYPES /\ v <> "LINTING").
  { intros v [->|[k Hk]]; [split; [set_solver|discriminate]|].
    unfold js_error_rows in Hk.
    rewrite !elem_of_cons, elem_of_nil in Hk.
    repeat destruct Hk as [Hk|Hk]; try done;
      injection Hk as -> ->; (split; [set_solver|discriminate]). }
  assert (H1 : _classify_python_error etype ∈ ALLOWED_BUG_TYPES
               /\ _classify_python_error etype <> "LINTING").
  { apply Hpy. unfold _classify_python_error.
    destruct (dict_get_rows python_error_rows (Str.upper etype) "LOGIC")
      as [->|H]; [by left|right; eauto]. }
  assert (H2 : _classify_js_error etype ∈ ALLOWED_BUG_TYPES
               /\ _classify_js_error etype <> "LINTING").
  { apply Hjs. unfold _classify_js_error.
    destruct (dict_get_rows js_error_rows etype "LOGIC")
      as [->|H]; [by left|right; eauto]. }
  destruct H1 as [H1 H1']. destruct H2 as [H2 H2'].
  repeat (split; [assumption|]).
  unfold _classify_python_error. by rewrite upper_idempotent.
Qed.

End Classifiers.

Section Counters.

Lemma int_of_digits_nonneg (s : string) : forall acc,
  0 <= acc -> 0 <= Re.int_of_digits acc s.
Proof.
  induction s as [|c t IH]; intros acc Hacc; cbn [Re.int_of_digits];
    [exact Hacc|].
  apply IH. lia.
Qed.

Lemma number_then_nonneg lit s n rest :
  Re.number_then lit s = Some (n, rest) -> 0 <= n.
Proof.
  unfold Re.number_then. destruct (Re.digit_run s) as [[|c ds] r];
    [discriminate|].
  destruct (String.prefix lit r); [|discriminate].
  intros [= <- _]. apply int_of_digits_nonneg. lia.
Qed.

Lemma search_number_then_nonneg lit s n :
  Re.search_number_then lit s = Some n -> 0 <= n.
Proof.
  induction s as [|c t IH]; cbn [Re.search_number_then].
  - destruct (Re.number_then lit "") as [[m r]|] eqn:E; [|discriminate].
    intros [= <-]. by eapply number_then_nonneg.
  - destruct (Re.number_then lit (String c t)) as [[m r]|] eqn:E; [|exact IH].
    intros [= <-]. by eapply number_then_nonneg.
Qed.

Lemma jest_summary_after_nonneg s g1 passed g3 :
  Re.jest_summary_after s = Some (g1, passed, g3) ->
  0 <= passed /\ (forall n, g1 = Some n -> 0 <= n)
  /\ (forall n, g3 = Some n -> 0 <= n).
Proof.
  unfold Re.jest_summary_after.
  destruct (Re.spaces_then s) as [s1|]; [|discriminate].
  set (with_failed := match Re.number_then " failed," s1 with
                      | Some _ => _ | None => _ end).
  assert (Hwf : forall f p s4, with_failed = Some (f, p, s4) ->
                  0 <= p /\ forall n, f = Some n -> 0 <= n).
  { subst with_failed. intros f p s4.
    destruct (Re.number_then " failed," s1) as [[failed s2]|] eqn:E1;
      [|discriminate].
    destruct (Re.spaces_then s2) as [s3|]; [|discriminate].
    destruct (Re.number_then " passed" s3) as [[p' s4']|] eqn:E2;
      [|discriminate].
    intros [= <- <- <-]. split; [by eapply number_then_nonneg|].
    intros n [= <-]. by eapply number_then_nonneg. }
  assert (Htotal : forall s4 n,
    match s4 with
    | String c s5 =>
        if Ascii.eqb c ","%char then
          match Re.spaces_then s5 with
          | Some s6 =>
              match Re.number_then " total" s6 with
              | Some (total, _) => Some total
              | None => None
              end
          | None => None
          end
        else None
    | EmptyString => None
    end = Some n -> 0 <= n).
  { intros [|c s5] n; [discriminate|].
    destruct (Ascii.eqb c ","); [|discriminate].
    destruct (Re.spaces_then s5) as [s6|]; [|discriminate].
    destruct (Re.number_then " total" s6) as [[total r]|] eqn:E;
      [|discriminate].
    intros [= <-]. by eapply number_then_nonneg. }
  destruct with_failed as [[[f p] s4]|] eqn:Ewf.
  - intros [= <- <- <-]. destruct (Hwf f p s4 eq_refl) as [Hp Hf].
    split; [exact Hp|]. split; [exact Hf|]. intros n. apply Htotal.
  - destruct (Re.number_then " passed" s1) as [[p s4]|] eqn:E;
      [|discriminate].
    intros [= <- <- <-]. split; [by eapply number_then_nonneg|].
    split; [discriminate|]. intros n. apply Htotal.
Qed.

Lemma search_jest_summary_nonneg s g1 passed g3 :
  Re.search_jest_summary s = Some (g1, passed, g3) ->
  0 <= passed /\ (forall n, g1 = Some n -> 0 <= n)
  /\ (forall n, g3 = Some n -> 0 <= n).
Proof.
  induction s as [|c t IH]; cbn [Re.search_jest_summary].
  - destruct (String.prefix "Tests:" ""); [|discriminate].
    destruct (Re.jest_summary_after _) as [g|] eqn:E; [|discriminate].
    intros [= ->]. by eapply jest_summary_after_nonneg.
  - destruct (if String.prefix "Tests:" (String c t) then _ else None)
      as [g|] eqn:E; [|exact IH].
    intros [= ->]. destruct (String.prefix "Tests:" (String c t));
      [|discriminate].
    by eapply jest_summary_after_nonneg.
Qed.

Lemma digit_run_no_digit s : no_digit s = true -> Re.digit_run s = ("", s).
Proof.
  destruct s as [|c t]; [reflexivity|]. cbn [no_digit Re.digit_run].
  destruct (Re.is_digit c); [discriminate|reflexivity].
Qed.

Lemma number_then_no_digit lit s :
  no_digit s = true -> Re.number_then lit s = None.
Proof.
  intros H. unfold Re.number_then. by rewrite digit_run_no_digit.
Qed.

Lemma search_number_then_no_digit lit s :
  no_digit s = true -> Re.search_number_then lit s = None.
Proof.
  induction s as [|c t IH]; intros H; cbn [Re.search_number_then];
    rewrite number_then_no_digit by exact H; [reflexivity|].
  apply IH. cbn [no_digit] in H. by apply andb_true_iff in H as [_ H].
Qed.

Lemma no_digit_drop n : forall s, no_digit s = true -> no_digit (Str.drop n s) = true.
Proof.
  induction n as [|n IH]; intros s H; [exact H|].
  destruct s as [|c t]; [reflexivity|]. cbn [Str.drop]. apply IH.
  cbn [no_digit] in H. by apply andb_true_iff in H as [_ H].
Qed.

Lemma space_run_no_digit s :
  no_digit s = true -> no_digit (snd (Re.space_run s)) = true.
Proof.
  induction s as [|c t IH]; intros H; [reflexivity|]. cbn [Re.space_run].
  destruct (Str.is_space c); [|exact H].
  cbn [no_digit] in H. apply andb_true_iff in H as [_ H].
  specialize (IH H). destruct (Re.space_run t). exact IH.
Qed.

Lemma jest_summary_after_no_digit s :
  no_digit s = true -> Re.jest_summary_after s = None.
Proof.
  intros H. unfold Re.jest_summary_after, Re.spaces_then.
  pose proof (space_run_no_digit s H) as Hr.
  destruct (Re.space_run s) as [[|c ws] rest]; [reflexivity|].
  cbn [snd] in Hr. by rewrite !number_then_no_digit.
Qed.

Lemma search_jest_summary_no_digit s :
  no_digit s = true -> Re.search_jest_summary s = None.
Proof.
  induction s as [|c t IH]; intros H; cbn [Re.search_jest_summary].
  - destruct (String.prefix "Tests:" ""); [|reflexivity].
    by rewrite jest_summary_after_no_digit.
  - rewrite jest_summary_after_no_digit by (by apply no_digit_drop).
    destruct (String.prefix "Tests:" (String c t)); apply IH;
      cbn [no_digit] in H; by apply andb_true_iff in H as [_ H].
Qed.

(** X20.  The summary counters are never negative; for Python output the
    total is the sum of the passed and failed counts, so it is never below
    the passed count; and output without any digit counts as no tests at
    all, in every language. *)
Theorem count_tests_in_output_bounds (output language : string) :
  0 <= snd (_count_tests_in_output output language) /\
  0 <= fst (_count_tests_in_output output language) /\
  (language = "python" ->
   snd (_count_tests_in_output output language)
   <= fst (_count_tests_in_output output language)) /\
  (no_digit output = true -> _count_tests_in_output output language = (0, 0)).
Proof.
  unfold _count_tests_in_output.
  destruct (str_eq_spec language "python") as [->|Hne].
  - pose proof (search_number_then_nonneg " passed" output) as Hp.
    pose proof (search_number_then_nonneg " failed" output) as Hf.
    pose proof (search_number_then_no_digit " passed" output) as Hp0.
    pose proof (search_number_then_no_digit " failed" output) as Hf0.
    destruct (Re.search_number_then " passed" output) as [p|];
      destruct (Re.search_number_then " failed" output) as [f|]; cbn [fst snd];
      try specialize (Hp _ eq_refl); try specialize (Hf _ eq_refl);
      (split; [lia|]); (split; [lia|]); (split; [lia|]); intros Hd;
      try (specialize (Hp0 Hd); discriminate);
      try (specialize (Hf0 Hd); discriminate); reflexivity.
  - pose proof (search_jest_summary_nonneg output) as Hj.
    pose proof (search_jest_summary_no_digit output) as Hj0.
    destruct (Re.search_jest_summary output) as [[[g1 p] g3]|].
    + destruct (Hj _ _ _ eq_refl) as (Hp & H1 & H3).
      destruct g1 as [f|]; destruct g3 as [t|]; cbn [fst snd];
        try specialize (H1 _ eq_refl); try specialize (H3 _ eq_refl);
        (split; [lia|]); (split; [lia|]); (split; [done|]); intros Hd;
        specialize (Hj0 Hd); discriminate.
    + cbn. repeat split; (lia || done).
Qed.

End Counters.

Lemma count_tests_in_output_bounds_witness :
  snd (_count_tests_in_output "3 passed, 1 failed" "python")
  <= fst (_count_tests_in_output "3 passed, 1 failed" "python")
  /\ _count_tests_in_output "collected nothing" "javascript" = (0, 0).
Proof.
  split.
  - apply (count_tests_in_output_bounds "3 passed, 1 failed" "python").
    reflexivity.
  - apply (count_tests_in_output_bounds "collected nothing" "javascript").
    reflexivity.
Defined.

(** ** Language detection (clone_agent.py) *)

Section DetectLanguage.

Let py := has_suffix [".py"].
Let ts := has_suffix [".ts"; ".tsx"].
Let js := has_suffix [".js"; ".jsx"].

(** The loop counts, for each language, the regular files with one of its
    suffixes. *)
Lemma count_paths_from (paths : list PathEntry) : forall counts,
  fold_left count_path paths counts
  = {| n_python := n_python counts + count_files py paths;
       n_typescript := n_typescript counts + count_files ts paths;
       n_javascript := n_javascript counts + count_files js paths |}.
Proof.
  induction paths as [|[is_file suffix] rest IH]; intros [a b c].
  - cbn. f_equal; lia.
  - cbn [fold_left count_files]. rewrite IH. clear IH.
    unfold count_path, py, ts, js, has_suffix.
    cbn [pe_is_file pe_suffix negb existsb andb orb n_python n_typescript
         n_javascript].
    destruct is_file; cbn [negb andb]; [|f_equal; lia].
    destruct (str_eq_spec suffix ".py") as [->|_];
      [cbn; f_equal; lia|].
    destruct (str_eq_spec suffix ".ts") as [->|_];
      [cbn; f_equal; lia|].
    destruct (str_eq_spec suffix ".tsx") as [->|_];
      [cbn; f_equal; lia|].
    destruct (str_eq_spec suffix ".js") as [->|_];
      [cbn; f_equal; lia|].
    destruct (str_eq_spec suffix ".jsx") as [->|_];
      cbn; f_equal; lia.
Qed.

Lemma count_paths_counts (paths : list PathEntry) :
  count_paths paths
  = {| n_python := count_files py paths;
       n_typescript := count_files ts paths;
       n_javascript := count_files js paths |}.
Proof. unfold count_paths. rewrite count_paths_from. reflexivity. Qed.

Lemma count_files_nonneg f (paths : list PathEntry) : 0 <= count_files f paths.
Proof.
  induction paths as [|p rest IH]; cbn [count_files]; [lia|].
  destruct (f p); lia.
Qed.

Lemma count_files_perm f (paths paths' : list PathEntry) :
  Permutation paths paths' -> count_files f paths = count_files f paths'.
Proof.
  induction 1; cbn [count_files]; lia.
Qed.

(** X21.  The detected language does not depend on the order in which the
    directory walk yields the paths, and it is always one of python,
    typescript and javascript. *)
Theorem detect_language_order_independent (paths paths' : list PathEntry) :
  Permutation paths paths' ->
  _detect_language paths = _detect_language paths' /\
  (_detect_language paths = "python" \/ _detect_language paths = "typescript"
   \/ _detect_language paths = "javascript").
Proof.
  intros Hperm. split.
  - unfold _detect_language. rewrite !count_paths_counts.
    by rewrite !(count_files_perm _ _ _ Hperm).
  - unfold _detect_language, pick_language.
    destruct (_ && _); [auto|]. destruct (_ && _); [|auto].
    destruct (0 <? _); auto.
Qed.

(** X22.  TypeScript takes precedence over Python as well: one file in
    TypeScript, with no more JavaScript files than TypeScript files, makes
    the repository a TypeScript one however many Python files it holds; and
    "typescript" is answered in no other case.  A tree without any file in
    one of the five suffixes is a JavaScript one. *)
Theorem detect_language_prefers_typescript (paths : list PathEntry) :
  (0 < count_files (has_suffix [".ts"; ".tsx"]) paths ->
   count_files (has_suffix [".js"; ".jsx"]) paths
   <= count_files (has_suffix [".ts"; ".tsx"]) paths ->
   _detect_language paths = "typescript") /\
  (_detect_language paths = "typescript" ->
   0 < count_files (has_suffix [".ts"; ".tsx"]) paths
   /\ count_files (has_suffix [".js"; ".jsx"]) paths
      <= count_files (has_suffix [".ts"; ".tsx"]) paths) /\
  (count_files (has_suffix [".py"]) paths = 0 ->
   count_files (has_suffix [".ts"; ".tsx"]) paths = 0 ->
   _detect_language paths = "javascript").
Proof.
  unfold _detect_language, pick_language. rewrite count_paths_counts.
  cbn [n_python n_typescript n_javascript]. fold py ts js.
  pose proof (count_files_nonneg py paths).
  pose proof (count_files_nonneg ts paths).
  pose proof (count_files_nonneg js paths).
  destruct (Z.ltb_spec 0 (count_files ts paths));
    destruct (Z.leb_spec (count_files js paths) (count_files ts paths));
    cbn [andb].
  - split; [done|]. split; [intros _; lia|]. intros _ Hts. lia.
  - split; [intros; lia|]. split; [|intros _ Hts; lia].
    destruct (_ && _); [destruct (0 <? _)|]; discriminate.
  - split; [intros; lia|]. split.
    + destruct (_ && _); [destruct (0 <? _)|]; discriminate.
    + intros Hpy _. rewrite Hpy. destruct (_ && _); reflexivity.
  - split; [intros; lia|]. split.
    + destruct (_ && _); [destruct (0 <? _)|]; discriminate.
    + intros Hpy _. rewrite Hpy. destruct (_ && _); reflexivity.
Qed.

End DetectLanguage.

Lemma detect_language_order_independent_witness :
  _detect_language mostly_python_tree
  = _detect_language (rev mostly_python_tree).
Proof.
  apply (detect_language_order_independent mostly_python_tree
           (rev mostly_python_tree)).
  apply Permutation_rev.
Defined.

Lemma detect_language_prefers_typescript_witness :
  _detect_language mostly_python_tree = "typescript".
Proof.
  destruct (detect_language_prefers_typescript mostly_python_tree) as [H _].
  apply H; vm_compute; [reflexivity|discriminate].
Defined.

(** ** Branch names (git_agent.py) *)

Section BranchName.

Lemma spaces_to_underscores_no_space (s : string) :
  Str.mem Str.space (Str.spaces_to_underscores s) = false.
Proof.
  induction s as [|c s IH]; [reflexivity|].
  cbn [Str.spaces_to_underscores Str.mem]. rewrite IH, orb_false_r.
  destruct (Ascii.eqb_spec c Str.space) as [->|Hc]; [reflexivity|].
  destruct (Ascii.eqb_spec Str.space c) as [<-|_]; [done|reflexivity].
Qed.

Lemma normalise_char (c : ascii) :
  (if Ascii.eqb
        (Str.upper_char (if Ascii.eqb c Str.space then "_"%char else c))
        Str.space
   then "_"%char
   else Str.upper_char (if Ascii.eqb c Str.space then "_"%char else c))
  = (if Ascii.eqb (Str.upper_char c) Str.space then "_"%char
     else Str.upper_char c).
Proof.
  destruct c as [[] [] [] [] [] [] [] []]; reflexivity.
Qed.

Lemma normalise_underscored (s : string) :
  Str.spaces_to_underscores (Str.upper (Str.spaces_to_underscores s))
  = Str.spaces_to_underscores (Str.upper s).
Proof.
  induction s as [|c s IH]; [reflexivity|].
  cbn [Str.spaces_to_underscores Str.upper].
  by rewrite normalise_char, IH.
Qed.

(** X23.  A branch name holds no space, and the names of two teams that
    differ only in letter case, or in spaces against underscores, give one
    and the same branch. *)
Theorem build_branch_name_normalises (team leader : string) :
  Str.mem Str.space (_build_branch_name team leader) = false /\
  _build_branch_name (Str.spaces_to_underscores team) leader
  = _build_branch_name team leader /\
  _build_branch_name (Str.upper team) leader = _build_branch_name team leader.
Proof.
  unfold _build_branch_name. split; [|split].
  - rewrite !mem_append, !spaces_to_underscores_no_space. reflexivity.
  - by rewrite normalise_underscored.
  - by rewrite upper_idempotent.
Qed.

End BranchName.

(** ** The background task and the endpoints (main.py) *)

Section BackgroundTask.

Variable env : nat -> Externals.
Variable clk : RunClock.
Variable write_error : AgentState -> option string.

(** [run_pipeline] returns, and what it returns without an exception is
    graded. *)
Lemma run_pipeline_returns (repo team leader key token : string) (limit : Z) :
  exists r,
    run_pipeline env clk repo team leader key token limit = Some r
    /\ forall final, r = Ok final ->
         status final = "success" \/ status final = "partial".
Proof.
  destruct (run_pipeline env clk repo team leader key token limit)
    as [[final|exc]|] eqn:E.
  - eexists. split; [reflexivity|]. intros f [= <-].
    destruct (run_scored env clk repo team leader key token limit
                (fun _ _ => True) final) as (e & _ & ->); try done.
    change (status (score_agent e) = "success"
            \/ status (score_agent e) = "partial").
    rewrite score_agent_status. destruct (Py.qge _ _); auto.
  - eexists. split; [reflexivity|]. discriminate.
  - exfalso. revert E. unfold run_pipeline.
    destruct (invoke env recursion_limit 0 N_clone _) as [[f|exc]|];
      discriminate.
Qed.

(** X24.  The background task always ends and never leaves the shared
    status at "running": the status is that of the graded run, "success" or
    "partial", or it is "failed", which is the case exactly when the
    pipeline or the writing of the results raised, and then the error text
    is recorded while run id and data stay what they were.  Whatever
    happened, the next trigger is accepted. *)
Theorem run_pipeline_task_releases_server (request : RunAgentRequest)
    (ps : PipelineState) :
  exists ps',
    _run_pipeline_task env clk write_error request ps = Some ps' /\
    (ps_status ps' = "success" \/ ps_status ps' = "partial"
     \/ ps_status ps' = "failed") /\
    (ps_status ps' = "failed" <-> ps_error ps' <> None) /\
    (ps_status ps' = "failed" ->
     ps_data ps' = ps_data ps /\ ps_run_id ps' = ps_run_id ps) /\
    (forall (next : RunAgentRequest) (tasks : list RunAgentRequest),
        fst (run_agent next {| pipeline_state := ps';
                               background_tasks := tasks |})
        = Reply "Pipeline started successfully" "queued").
Proof.
  unfold _run_pipeline_task.
  destruct (run_pipeline_returns (rq_repo_url request) (rq_team_name request)
              (rq_leader_name request) (rq_openai_key request)
              (rq_github_token request) (rq_retry_limit request))
    as (r & -> & Hr).
  eexists. split; [reflexivity|].
  assert (Hfailed : forall exc,
    let ps' := task_end (Raise exc) (task_begin ps) in
    (ps_status ps' = "success" \/ ps_status ps' = "partial"
     \/ ps_status ps' = "failed") /\
    (ps_status ps' = "failed" <-> ps_error ps' <> None) /\
    (ps_status ps' = "failed" ->
     ps_data ps' = ps_data ps /\ ps_run_id ps' = ps_run_id ps) /\
    (forall next tasks,
        fst (run_agent next {| pipeline_state := ps';
                               background_tasks := tasks |})
        = Reply "Pipeline started successfully" "queued")).
  { intros exc. cbn. repeat split; auto. }
  destruct r as [final|exc]; cbn [bind]; [|apply Hfailed].
  destruct (write_error final) as [exc|]; [apply Hfailed|].
  specialize (Hr final eq_refl). cbn [task_end task_begin ps_status ps_error
    ps_data ps_run_id].
  split; [tauto|]. split; [|split].
  - split; [|done]. intros H. rewrite H in Hr. by destruct Hr.
  - intros H. rewrite H in Hr. by destruct Hr.
  - intros next tasks. unfold run_agent. cbn [pipeline_state ps_status].
    destruct Hr as [-> | ->]; reflexivity.
Qed.

End BackgroundTask.

(** X25.  The reset endpoint does not look at the status: after a reset
    the next trigger is accepted, also while the task of the earlier trigger
    still runs, and when that task ends it overwrites the idle state with
    its own outcome. *)
Theorem reset_pipeline_lifts_guard (request : RunAgentRequest) (srv : Server)
    (r : Result AgentState) :
  ps_status (pipeline_state srv) = "running" ->
  (exists detail, fst (run_agent request srv) = HTTPException 409 detail) /\
  run_agent request (snd (reset_pipeline srv))
  = (Reply "Pipeline started successfully" "queued",
     {| pipeline_state :=
          {| ps_status := "queued"; ps_run_id := None; ps_data := None;
             ps_error := None |};
        background_tasks := background_tasks srv ++ [request] |}) /\
  ps_status (task_end r (pipeline_state (snd (reset_pipeline srv))))
  = match r with Ok final => status final | Raise _ => "failed" end.
Proof.
  intros H. split; [|split].
  - unfold run_agent. rewrite H. cbn. eauto.
  - reflexivity.
  - destruct r; reflexivity.
Qed.

Lemma reset_pipeline_lifts_guard_witness :
  fst (run_agent demo_request (snd (reset_pipeline running_server)))
  = Reply "Pipeline started successfully" "queued".
Proof.
  destruct (reset_pipeline_lifts_guard demo_request running_server
              (Raise "boom")) as (_ & H & _); [reflexivity|].
  rewrite H. reflexivity.
Defined.

(** ** What the nodes do to the status (agents, orchestrator.py) *)

Lemma run_node_status (x : Externals) n st st' :
  n <> N_clone -> n <> N_score ->
  run_node x n st = Ok st' -> status st' = status st.
Proof.
  intros Hc Hs. destruct n; cbn [run_node]; try done.
  - intros [= <-]. by destruct (analyze_agent_control (x_analyze x) st)
      as (_ & _ & ?).
  - destruct (fix_agent _ _ st) as [[s fs']|exc] eqn:E; [|discriminate].
    cbn. intros [= <-]. by apply fix_agent_control in E as (_ & _ & ?).
  - intros [= <-]. by destruct (git_agent_control (x_git x) st)
      as (_ & _ & ?).
  - intros [= <-]. by destruct (cicd_agent_control (x_ci x) st)
      as (_ & _ & ?).
  - by intros [= <-].
  - by intros [= <-].
Qed.

Lemma next_node_not_clone n st' n' : next_node n st' = Some n' -> n' <> N_clone.
Proof.
  intros H ->. destruct n; cbn [next_node] in H; try discriminate.
  unfold retry_path_map in H.
  repeat (destruct (str_eq _ _) in H; try discriminate).
Qed.

(** X26.  Only the clone node and the score node write the status: from the
    analyze node on, through any number of retries and whatever the
    analysis, the fixes, git or the CI service answer, every state up to the
    score node carries the status the clone node left. *)
Theorem status_written_by_clone_and_score (st e : AgentState) (n : node) :
  rtc step (N_analyze, st) (n, e) ->
  n <> N_END ->
  n <> N_clone /\ status e = status st.
Proof.
  intros Hpath.
  assert (H : fst (n, e) <> N_clone
              /\ (fst (n, e) <> N_END -> status (snd (n, e)) = status st)).
  { revert Hpath. generalize (n, e). apply rtc_ind_r.
    - cbn. split; [discriminate|done].
    - intros [m s] [m' s'] _ Hstep [Hmc Hms]. cbn [fst snd] in *.
      inversion Hstep as [x m0 s0 s0' m0' Hrun Hnext]; subst.
      split; [by eapply next_node_not_clone|]. intros Hend.
      assert (Hm : m <> N_END) by (intros ->; discriminate).
      rewrite <- (Hms Hm). eapply run_node_status; [exact Hmc| |exact Hrun].
      intros ->. cbn in Hnext. by injection Hnext as <-. }
  cbn [fst snd] in H. intros Hn. destruct H as [H1 H2]. auto.
Qed.

Lemma status_written_by_clone_and_score_witness :
  status (analyze_agent (AnalyzeRaises "boom") cloned_state)
  = status cloned_state.
Proof.
  pose (x := {| x_clone := CloneRaises "unused";
                x_analyze := AnalyzeRaises "boom";
                x_hosts := fun _ => quiet_host;
                x_tree := ∅;
                x_git := GitNothingToCommit;
                x_ci := quiet_ci |}).
  apply (status_written_by_clone_and_score cloned_state
           (analyze_agent (AnalyzeRaises "boom") cloned_state) N_fix);
    [|discriminate].
  apply rtc_once. apply (step_node x N_analyze); reflexivity.
Defined.

(** X27.  A state marked "failed" passes the analyze, fix and git nodes
    unchanged, the file tree included, whatever the outside world would
    have answered; the CI monitor keeps the mark, and the router then sends
    the run to the score node. *)
Theorem failed_state_passes_untouched (st : AgentState) (o : analyze_outcome)
    (hosts : nat -> Host) (fs : gmap string entry) (g : git_outcome)
    (svc : CIService) :
  status st = "failed" ->
  analyze_agent o st = st /\
  fix_agent hosts fs st = Ok (st, fs) /\
  git_agent g st = st /\
  status (cicd_agent svc st) = "failed" /\
  should_retry (cicd_agent svc st) = "score".
Proof.
  intros H.
  assert (Hci : status (cicd_agent svc st) = "failed").
  { destruct (cicd_agent_control svc st) as (_ & _ & ->). exact H. }
  split; [by apply analyze_agent_failed|].
  split; [by apply fix_agent_failed|].
  split; [by apply git_agent_failed|].
  split; [exact Hci|]. by apply should_retry_failed.
Qed.

Lemma failed_state_passes_untouched_witness :
  fix_agent (fun _ => quiet_host) demo_tree
    (set_status "failed" two_failures_state)
  = Ok (set_status "failed" two_failures_state, demo_tree).
Proof.
  destruct (failed_state_passes_untouched
              (set_status "failed" two_failures_state) (AnalyzeRaises "boom")
              (fun _ => quiet_host) demo_tree GitNothingToCommit quiet_ci)
    as (_ & H & _); [reflexivity|exact H].
Defined.

(** ** The identity of a run (orchestrator.py, agents, main.py) *)

Lemma identity_kept_refl st : identity_kept st st.
Proof. unfold identity_kept. repeat split; auto. Qed.

Ltac kept := unfold identity_kept; repeat (split; [reflexivity|]); auto.

Lemma run_node_identity x n st st' :
  run_node x n st = Ok st' -> identity_kept st st'.
Proof.
  destruct n; cbn [run_node].
  - (intros [= <-]; destruct (x_clone x); kept).
  - (intros [= <-]; unfold analyze_agent;
    destruct (negb (Str.truthy (clone_path st)) || str_eq (status st) "failed");
      [apply identity_kept_refl|]; destruct (x_analyze x); kept).
  - (unfold fix_agent; destruct (failures st);
      [intros [= <-]; apply identity_kept_refl|];
    destruct (str_eq (status st) "failed");
      [intros [= <-]; apply identity_kept_refl|];
    destruct (fix_loop _ _ _ _ _ _ _) as [r|exc]; [|discriminate];
    cbn [bind]; intros [= <-]; kept).
  - (intros [= <-]; unfold git_agent;
    destruct (negb (Str.truthy (clone_path st)) || str_eq (status st) "failed");
      [apply identity_kept_refl|]; destruct (x_git x); kept).
  - (intros [= <-]; unfold cicd_agent;
    destruct (negb (Str.truthy (github_token st))
              || negb (Str.truthy (commit_sha st))); [kept|];
    destruct (repo_of_url (x_ci x) (repo_url st)); [|kept];
    destruct (latest_workflow_run (x_ci x)) as [[id|]|]; try kept;
    destruct (Str.truthy id); [|kept];
    destruct (poll (x_ci x) max_polls 0 "" _); kept).
  - (intros [= <-]; kept).
  - (intros [= <-]; kept).
  - (intros [= <-]; apply identity_kept_refl).
Qed.

Section RunIdentity.

Variable env : nat -> Externals.
Variables (clk : RunClock) (repo team leader key token : string).
Variable limit : Z.

Lemma run_identity_step x n st st' :
  run_identity clk repo team leader st -> run_node x n st = Ok st' ->
  run_identity clk repo team leader st'.
Proof.
  intros (H1 & H2 & H3 & H4 & H5 & H6) Hnode.
  destruct (run_node_identity _ _ _ _ Hnode) as (K1 & K2 & K3 & K4 & K5 & K6).
  unfold run_identity. rewrite K1, K2, K3, K4, K5.
  repeat (split; [assumption|]).
  destruct K6 as [-> | ->]; [exact H6|]. right. by rewrite H4, H5.
Qed.

Lemma run_keeps_identity (final : AgentState) :
  run_pipeline env clk repo team leader key token limit = Some (Ok final) ->
  run_identity clk repo team leader final
  /\ finished_at final = finish_iso clk.
Proof.
  intros Hrun.
  destruct (run_scored env clk repo team leader key token limit
              (fun _ st => run_identity clk repo team leader st) final)
    as (e & He & ->); [| |exact Hrun|].
  - intros c n st st' n' HP Hnode _. by eapply run_identity_step.
  - unfold run_identity. repeat (split; [reflexivity|]). by left.
  - split; [exact He|reflexivity].
Qed.

(** X28.  No node rewrites what identifies a run: a completed run carries
    the run id and the starting time drawn when it began, the repository
    and the names it was started with, and the finishing time; its branch
    is unset or the one built from the two names. *)
Theorem completed_run_keeps_identity (final : AgentState) :
  run_pipeline env clk repo team leader key token limit = Some (Ok final) ->
  run_id final = new_run_id clk /\ started_at final = start_iso clk /\
  finished_at final = finish_iso clk /\
  repo_url final = repo /\ team_name final = team /\
  leader_name final = leader /\
  (branch_name final = ""
   \/ branch_name final = _build_branch_name team leader).
Proof.
  intros Hrun.
  destruct (run_keeps_identity final Hrun)
    as ((H1 & H2 & H3 & H4 & H5 & Hb) & Hf).
  repeat (split; [assumption|]). exact Hb.
Qed.

End RunIdentity.

Lemma completed_run_keeps_identity_witness :
  match small_run 1 with
  | Some (Ok final) =>
      run_id final = new_run_id demo_clock
      /\ team_name final = "RIFT TEAM"
  | _ => False
  end.
Proof.
  unfold small_run.
  destruct (run_pipeline _ _ _ _ _ _ _ _) as [[final|exc]|] eqn:E.
  - destruct (completed_run_keeps_identity _ _ _ _ _ _ _ _ final E)
      as (H1 & _ & _ & _ & H5 & _).
    split; [exact H1|exact H5].
  - vm_compute in E. discriminate.
  - vm_compute in E. discriminate.
Defined.

Section ServedRun.

Variable env : nat -> Externals.
Variable clk : RunClock.
Variable write_error : AgentState -> option string.

(** X29.  After a task that did not fail, the status endpoint serves the
    run that this task made: its grade, the run id and the starting time
    drawn for it, and no error text; the timeline endpoint serves the same
    grade. *)
Theorem get_status_serves_the_run (request : RunAgentRequest)
    (ps ps' : PipelineState) (tasks : list RunAgentRequest) :
  _run_pipeline_task env clk write_error request ps = Some ps' ->
  ps_status ps' <> "failed" ->
  get_status {| pipeline_state := ps'; background_tasks := tasks |}
  = (ps_status ps', Some (new_run_id clk), Some (start_iso clk),
     "Pipeline is " +++ ps_status ps') /\
  fst (get_timeline {| pipeline_state := ps'; background_tasks := tasks |})
  = ps_status ps' /\
  (ps_status ps' = "success" \/ ps_status ps' = "partial").
Proof.
  unfold _run_pipeline_task.
  destruct (run_pipeline env clk _ _ _ _ _ _) as [[final|exc]|] eqn:E;
    [| |discriminate].
  2:{ cbn. intros [= <-]. cbn. done. }
  cbn [bind]. destruct (write_error final) as [exc|].
  { intros [= <-]. cbn. done. }
  intros [= <-] _.
  destruct (run_keeps_identity _ _ _ _ _ _ _ _ final E)
    as ((H1 & H2 & _) & _).
  unfold get_status, get_timeline.
  cbn [pipeline_state task_end task_begin ps_status ps_run_id ps_data ps_error
       fst].
  rewrite H1, H2. split; [reflexivity|]. split; [reflexivity|].
  destruct (run_pipeline_returns env clk (rq_repo_url request)
              (rq_team_name request) (rq_leader_name request)
              (rq_openai_key request) (rq_github_token request)
              (rq_retry_limit request)) as (r & Hr & Hst).
  rewrite E in Hr. injection Hr as <-. by apply Hst.
Qed.

End ServedRun.

Lemma get_status_serves_the_run_witness :
  match _run_pipeline_task (fun _ => small_project) demo_clock results_written
          demo_request idle_state with
  | Some ps' =>
      fst (get_timeline {| pipeline_state := ps'; background_tasks := [] |})
      = ps_status ps'
  | None => False
  end.
Proof.
  assert (Hs : option_map ps_status
                 (_run_pipeline_task (fun _ => small_project) demo_clock
                    results_written demo_request idle_state)
               = Some "success") by (vm_compute; reflexivity).
  destruct (_run_pipeline_task _ _ _ _ _) as [ps'|] eqn:E; [|discriminate].
  cbn [option_map] in Hs. injection Hs as Hs.
  destruct (get_status_serves_the_run _ _ _ _ _ ps' [] E) as (_ & H & _);
    [rewrite Hs; discriminate|exact H].
Defined.
